(** * A shallow embedding of [patcher.py]

    The resource-pack patcher backs up a target directory, clears it,
    downloads a ZIP archive, extracts it into a scratch directory and copies
    each top-level entry of the extraction into the target.

    The program is a sequence of calls into [os], [shutil], [tempfile],
    [zipfile] and [requests].  It is embedded here as follows.

    - The file system is a tree ([node]): a file with its bytes, or a
      directory with a finite map from names to nodes.  A path is the list of
      its components, so [os.path.join p name] is [p ++ [name]],
      [os.path.dirname] drops the last component and [os.path.basename]
      returns it.
    - What stays the same from one run to the next (permission faults, the
      server, the archive decoder, the location of the system's temporary
      directory, variable expansion) is a field of the record [env].
    - The program runs in a small monad [M] of state, exceptions and output:
      a run starts in a [world] (the file system, the lines waiting on
      standard input, the reading of the clock and the random name the
      scratch directory will get) and leaves an [outcome]: the value returned or the
      exception raised, the world afterwards, and the events emitted, oldest
      first (every mutating library call with its outcome, and every
      [print]).
    - Python's exception hierarchy is kept as far as the program depends on
      it: [except Exception] does not catch [KeyboardInterrupt] or
      [SystemExit]; [finally] runs on every exit. *)

From Stdlib Require Import Ascii.
From stdpp Require Import base option list strings gmap.

#[local] Set Warnings "-register-all,-notation-for-abbreviation".

(** ** Paths *)

Notation path := (list string).

(** Neither path is an ancestor of (or equal to) the other. *)
Definition diverge (p q : path) : Prop :=
  ¬ p `prefix_of` q ∧ ¬ q `prefix_of` p.

(** [os.path.dirname(p.rstrip("/\\"))] and [os.path.basename(...)] on a path
    given by its components. *)
Definition dirname (p : path) : path := removelast p.
Definition basename (p : path) : string := List.last p "".

(** ** The file system *)

Inductive node :=
| File (data : string)
| Dir (entries : gmap string node).

Fixpoint get (p : path) (n : node) : option node :=
  match p with
  | [] => Some n
  | x :: q => match n with
              | Dir es => es !! x ≫= get q
              | File _ => None
              end
  end.

(** [upd p o n] sets the entry at [p] to [o] ([None] removes it).  The parent
    of [p] has to be a directory. *)
Fixpoint upd (p : path) (o : option node) (n : node) : option node :=
  match p with
  | [] => o
  | x :: q =>
      match n with
      | File _ => None
      | Dir es =>
          match q with
          | [] => Some (Dir (partial_alter (λ _, o) x es))
          | _ :: _ => c ← es !! x; c' ← upd q o c; Some (Dir (<[x := c']> es))
          end
      end
  end.

Definition put (p : path) (t : node) : node → option node := upd p (Some t).
Definition del (p : path) : node → option node := upd p None.

(** [mkdirs p n] creates [p] and its missing ancestors as directories; it
    fails when a component of [p] is a file. *)
Fixpoint mkdirs (p : path) (n : node) : option node :=
  match n with
  | File _ => None
  | Dir es =>
      match p with
      | [] => Some n
      | x :: q =>
          c' ← mkdirs q (default (Dir ∅) (es !! x)); Some (Dir (<[x := c']> es))
      end
  end.

Definition isdir (p : path) (n : node) : bool :=
  match get p n with Some (Dir _) => true | _ => false end.
Definition path_exists (p : path) (n : node) : bool :=
  match get p n with Some _ => true | None => false end.

(** The names [os.listdir] returns, in the order the map enumerates them. *)
Definition names (es : gmap string node) : list string := (map_to_list es).*1.

(** ** Python strings *)

Definition is_decimal (c : ascii) : bool :=
  let n := nat_of_ascii c in (48 <=? n) && (n <=? 57).

(** Header values are decoded as Latin-1, where the superscripts one, two and
    three (code points 185, 178, 179) satisfy [str.isdigit] although [int]
    rejects them. *)
Definition is_superscript (c : ascii) : bool :=
  let n := nat_of_ascii c in (n =? 178) || (n =? 179) || (n =? 185).

Definition chars (s : string) : list ascii := String.list_ascii_of_string s.

(** [s.isdigit()] *)
Definition str_isdigit (s : string) : bool :=
  match chars s with
  | [] => false
  | cs => forallb (λ c, is_decimal c || is_superscript c) cs
  end.

(** [int(s)] for a string without sign or blanks: [None] is [ValueError]. *)
Definition py_int (s : string) : option N :=
  match chars s with
  | [] => None
  | cs =>
      if forallb is_decimal cs
      then Some (fold_left (λ acc c, acc * 10 + N.of_nat (nat_of_ascii c - 48)) cs 0)%N
      else None
  end.

Definition str_len (s : string) : N := N.of_nat (String.length s).

(** [c.isspace()] for the code points below 256: tab to carriage return,
    the four separators 28 to 31, the space, next-line and the no-break
    space. *)
Definition is_space (c : ascii) : bool :=
  let n := nat_of_ascii c in
  (n =? 32) || ((9 <=? n) && (n <=? 13)) || ((28 <=? n) && (n <=? 31))
  || (n =? 133) || (n =? 160).

Fixpoint lstrip (cs : list ascii) : list ascii :=
  match cs with
  | c :: cs' => if is_space c then lstrip cs' else cs
  | [] => []
  end.

(** [s.strip()] *)
Definition strip (s : string) : string :=
  String.string_of_list_ascii (rev (lstrip (rev (lstrip (chars s))))).



(** ** Exceptions *)

Inductive exn :=
| OSError (kind : string) (p : path)
| ShutilError (p : path)
| RequestException (what : string)
| HTTPError (status : N)
| BadZipFile
| ValueError (what : string)
| EOFError
| KeyboardInterrupt
| SystemExit (code : N).

(** The classes [except Exception] catches. *)
Definition is_Exception (e : exn) : bool :=
  match e with
  | KeyboardInterrupt | SystemExit _ => false
  | _ => true
  end.

(** ** Events *)

Inductive syscall :=
| Makedirs (p : path)
| Mkdir (p : path)
| Mkdtemp (p : path)
| Copytree (src dst : path)
| Copy2 (src dst : path)
| Rmtree (p : path)
| Remove (p : path)
| OpenW (p : path)
| WriteChunk (p : path) (len : N)
| HttpGet (url : string).

Inductive event :=
| Sys (c : syscall) (ok : bool)
| Say (text : string)
| SayPath (text : string) (p : path)
| SayStr (text : string) (s : string)
| SayNum (text : string) (n : N)
| SayExn (text : string) (e : exn)
| Warn (text : string) (p : path) (e : exn)
| Progress (downloaded total pct : N)
| Downloaded (downloaded total : N).

(** ** The environment *)

(** What a failing call leaves behind: nothing changed ([Denied]) or the
    entry it was working on in the state [remains]. *)
Inductive fault := NoFault | Denied | Partial (remains : node).

Record response := {
  status : N;
  content_length : option string;
  chunks : list string;          (* what [iter_content] yields *)
  broken : option exn;           (* raised by the stream after the last chunk *)
}.

(** A member of an archive: its name as it is stored there, and its data. *)
Record member := { filename : string; content : string }.

Record env := {
  rm_fault : path → fault;       (* [shutil.rmtree] / [os.remove] of this entry *)
  cp_fault : path → fault;       (* [shutil.copytree] / [shutil.copy2] from this source *)
  ls_denied : path → bool;       (* [os.listdir] *)
  mk_denied : path → bool;       (* [os.makedirs], [os.mkdir], [tempfile.mkdtemp] *)
  open_denied : path → bool;     (* [open(p, "wb")] *)
  wr_denied : path → N → bool;   (* [f.write] once the file holds that many bytes *)
  http : string → exn + response;
  zip_decode : string → option (list member);
  tmp_root : path;               (* [tempfile.gettempdir()] *)
  expandvars : string → path;    (* [os.path.expandvars], split into components *)
}.

(** ** The monad *)

Record world := World {
  fs : node;
  stdin : list string;           (* the lines [input] will read *)
  now : string;                  (* what the clock reads: [now_stamp()] *)
  entropy : string;              (* the random part [tempfile.mkdtemp] picks *)
}.

Definition set_fs (t : node) (w : world) : world :=
  World t (stdin w) (now w) (entropy w).

Inductive result (A : Type) :=
| Ok (a : A)
| Raise (e : exn).
Arguments Ok {A} a.
Arguments Raise {A} e.

(** What a run leaves: how it ended, the world after it, and the events it
    emitted, oldest first. *)
Record outcome (A : Type) := Outcome {
  res : result A;
  post : world;
  trace : list event;
}.
Arguments Outcome {A} res post trace.
Arguments res {A} o.
Arguments post {A} o.
Arguments trace {A} o.

Definition M (A : Type) : Type := world → outcome A.

Definition ret {A} (a : A) : M A := λ w, Outcome (Ok a) w [].
Definition raise {A} (e : exn) : M A := λ w, Outcome (Raise e) w [].
Definition bind {A B} (m : M A) (k : A → M B) : M B := λ w,
  let o := m w in
  match res o with
  | Ok a => let o' := k a (post o) in Outcome (res o') (post o') (trace o ++ trace o')
  | Raise e => Outcome (Raise e) (post o) (trace o)
  end.

Declare Scope M_scope.
Delimit Scope M_scope with M.
Bind Scope M_scope with M.
Notation "x ← y ; z" := (bind y (λ x, z))
  (at level 20, y at level 100, z at level 200, only parsing) : M_scope.
Notation "x ;; z" := (bind x (λ _, z))
  (at level 100, z at level 200, only parsing, right associativity) : M_scope.
#[local] Open Scope M_scope.

Definition emit (ev : event) : M unit := λ w, Outcome (Ok tt) w [ev].

(** [try: body  except Exception as e: handler e] *)
Definition try_except {A} (body : M A) (handler : exn → M A) : M A := λ w,
  let o := body w in
  match res o with
  | Raise e =>
      if is_Exception e then
        let o' := handler e (post o) in
        Outcome (res o') (post o') (trace o ++ trace o')
      else o
  | Ok _ => o
  end.

(** [try: body  finally: fin] *)
Definition try_finally {A} (body : M A) (fin : M unit) : M A := λ w,
  let o := body w in
  let o' := fin (post o) in
  Outcome (match res o' with Ok _ => res o | Raise e => Raise e end)
          (post o') (trace o ++ trace o').

(** A [for] loop whose body updates local variables [s]. *)
Fixpoint for_fold {A S} (l : list A) (s : S) (body : S → A → M S) : M S :=
  match l with
  | [] => ret s
  | x :: l' => s' ← body s x; for_fold l' s' body
  end.

Definition for_each {A} (l : list A) (body : A → M unit) : M unit :=
  for_fold l tt (λ _, body).

(** A read-only library call. *)
Definition peek {A} (f : node → result A) : M A := λ w, Outcome (f (fs w)) w [].
(** A library call that succeeded, leaving the file system [t]. *)
Definition commit {A} (c : syscall) (a : A) (t : node) : M A := λ w,
  Outcome (Ok a) (set_fs t w) [Sys c true].
(** A library call that raised [e], leaving the file system [t]. *)
Definition abort {A} (c : syscall) (e : exn) (t : node) : M A := λ w,
  Outcome (Raise e) (set_fs t w) [Sys c false].

(** [input(prompt)] *)
Definition input (prompt : string) : M string := λ w,
  match stdin w with
  | l :: ls => Outcome (Ok l) (World (fs w) ls (now w) (entropy w)) [Say prompt]
  | [] => Outcome (Raise EOFError) w [Say prompt]
  end.

Definition say (text : string) : M unit := emit (Say text).

(** ** CONFIG *)

Record patch := { patch_name : string; patch_url : string }.

Definition PATCHES : list (string * patch) :=
  [ ("1", {| patch_name := "Java Animations Fix + Debloat (removes some lobby cosmetics functionality)";
             patch_url := "https://github.com/alcfv/patch-file-host/releases/download/V1/Java.Anims.Fix.+.Debloat.zip" |});
    ("2", {| patch_name := "Java Animations Armor Overlay Fix";
             patch_url := "https://github.com/alcfv/patch-file-host/releases/download/V1/Java.Anims.Armor.Fix.zip" |});
    ("3", {| patch_name := "Java Animations Armor Overlay + Running Animation Fix (may hide lobby costumes)";
             patch_url := "https://github.com/alcfv/patch-file-host/releases/download/V1/Java.Anims.Armor.Run.Fix.zip" |}) ].

(** [PATCHES.get(k)] *)
Definition PATCHES_get (k : string) : option patch :=
  (list_to_map PATCHES : gmap string patch) !! k.

Definition PATH_UWP : string :=
  "%localappdata%\Packages\Microsoft.MinecraftUWP_8wekyb3d8bbwe\LocalCache\minecraftpe\packcache\resource".
Definition PATH_GDK : string := "%temp%\minecraftpe\packcache\resource".

(** ** Names in an archive

    The program runs on Windows: its targets are below [%localappdata%] and
    [%temp%].  There [os.path] is [ntpath], [os.sep] is the backslash and
    [os.altsep] the slash.  What follows is [zipfile] and [ntpath] as they
    are on that platform. *)

Definition sep : ascii := "092"%char.       (* the backslash *)
Definition altsep : ascii := "047"%char.    (* the slash *)

(** [s.replace(a, b)] for single characters *)
Definition replace (a b : ascii) (cs : list ascii) : list ascii :=
  map (λ c, if decide (c = a) then b else c) cs.

(** [s.split(d)]; [cur] holds the part being read, last character first. *)
Fixpoint split_parts (d : ascii) (cs cur : list ascii) : list (list ascii) :=
  match cs with
  | [] => [rev cur]
  | c :: cs' =>
      if decide (c = d) then rev cur :: split_parts d cs' []
      else split_parts d cs' (c :: cur)
  end.

Definition split (d : ascii) (cs : list ascii) : list (list ascii) :=
  split_parts d cs [].

(** [d.join(parts)] *)
Fixpoint join (d : ascii) (parts : list (list ascii)) : list ascii :=
  match parts with
  | [] => []
  | [p] => p
  | p :: ps => p ++ d :: join d ps
  end.

Fixpoint index_of (d : ascii) (cs : list ascii) : option nat :=
  match cs with
  | [] => None
  | c :: cs' => if decide (c = d) then Some 0 else S <$> index_of d cs'
  end.

(** [s.find(d, start)]: [None] is [-1]. *)
Definition find (d : ascii) (cs : list ascii) (start : nat) : option nat :=
  (λ i, start + i) <$> index_of d (drop start cs).

(** [s.upper()] as far as [splitdrive] needs it.  The result is compared
    with a prefix made of backslashes, a question mark and the letters U, N
    and C; of the code points below 256 only the letters a to z have one of
    these as their upper case. *)
Definition upper (c : ascii) : ascii :=
  let n := nat_of_ascii c in
  if (97 <=? n) && (n <=? 122) then ascii_of_nat (n - 32) else c.

Definition unc_prefix : list ascii := chars "\\?\UNC\".

(** The second component of [ntpath.splitdrive(p)]: the path without its
    drive letter or UNC share. *)
Definition splitdrive_tail (p : list ascii) : list ascii :=
  if 2 <=? length p then
    let normp := replace altsep sep p in
    if decide (take 2 normp = [sep; sep]) then
      let start := if decide (upper <$> take 8 normp = unc_prefix) then 8 else 2 in
      match find sep normp start with
      | None => []
      | Some index =>
          match find sep normp (index + 1) with
          | None => []
          | Some index2 => drop index2 p
          end
      end
    else if decide (take 1 (drop 1 normp) = [":"%char]) then drop 2 p
    else p
  else p.

Definition invalid_path_parts : list (list ascii) := [chars ""; chars "."; chars ".."].

(** The characters [_sanitize_windows_name] replaces by an underscore:
    colon, angle brackets, bar, double quote, question mark and star. *)
Definition illegal : list ascii :=
  [":"; "<"; ">"; "|"; "034"; "?"; "*"]%char.

(** [s.translate(table)] for that table *)
Definition translate (cs : list ascii) : list ascii :=
  map (λ c, if decide (c ∈ illegal) then "_"%char else c) cs.

Fixpoint drop_chars (f : ascii → bool) (cs : list ascii) : list ascii :=
  match cs with
  | c :: cs' => if f c then drop_chars f cs' else cs
  | [] => []
  end.

(** [s.rstrip(...)] of the characters [f] holds of *)
Definition rstrip (f : ascii → bool) (cs : list ascii) : list ascii :=
  rev (drop_chars f (rev cs)).

Definition dot_or_space (c : ascii) : bool :=
  bool_decide (c = "."%char) || bool_decide (c = " "%char).

(** [ZipFile._sanitize_windows_name(arcname, os.path.sep)], up to the last
    [join]: the parts of the name it returns.  Trailing dots and spaces go,
    as in the current library (older versions strip the dots only). *)
Definition sanitize_windows_name (arcname : list ascii) : list (list ascii) :=
  List.filter (λ x, negb (bool_decide (x = [])))
    (rstrip dot_or_space <$> split sep (translate arcname)).

(** [ZipInfo.__init__]: the name as it is stored in the archive is cut at
    the first null byte, and its backslashes become slashes. *)
Definition ZipInfo_filename (m : member) : list ascii :=
  let name := chars (filename m) in
  let name := match index_of "000"%char name with
              | Some null_byte => take null_byte name
              | None => name
              end in
  replace sep altsep name.

(** The first lines of [ZipFile._extract_member]: the parts of the name a
    member is extracted under, which [os.path.join] then appends to the
    target directory.  Slashes become backslashes, the drive goes, then the
    empty parts and the parts [.] and [..], and what is left is sanitised. *)
Definition arcname (m : member) : path :=
  let arcname := replace altsep sep (ZipInfo_filename m) in
  let arcname := splitdrive_tail arcname in
  let arcname := join sep (List.filter (λ x, bool_decide (x ∉ invalid_path_parts))
                                       (split sep arcname)) in
  String.string_of_list_ascii <$> sanitize_windows_name arcname.

(** [ZipInfo.is_dir] *)
Definition member_is_dir (m : member) : bool :=
  match rev (ZipInfo_filename m) with
  | c :: _ => bool_decide (c = altsep)
  | [] => false
  end.

(** [if total:] for [total] an integer or [None] *)
Definition truthy (total : option N) : bool :=
  match total with
  | Some n => negb (n =? 0)%N
  | None => false
  end.

(** [int(total) if total and total.isdigit() else None] for the value of
    the [content-length] header. *)
Definition parse_total (h : option string) : result (option N) :=
  match h with
  | Some s =>
      if str_isdigit s then
        match py_int s with
        | Some n => Ok (Some n)
        | None => Raise (ValueError "invalid literal for int()")
        end
      else Ok None
  | None => Ok None
  end.

Section Program.

Context (E : env).

(** *** The library calls *)

Definition os_path_exists (p : path) : M bool := peek (λ t, Ok (path_exists p t)).
Definition os_path_isdir (p : path) : M bool := peek (λ t, Ok (isdir p t)).

Definition os_listdir (p : path) : M (list string) := peek (λ t,
  match get p t with
  | Some (Dir es) =>
      if ls_denied E p then Raise (OSError "PermissionError" p)
      else Ok (names es)
  | Some (File _) => Raise (OSError "NotADirectoryError" p)
  | None => Raise (OSError "FileNotFoundError" p)
  end).

(** [os.makedirs(p, exist_ok=exist_ok)] *)
Definition os_makedirs (exist_ok : bool) (p : path) : M unit := λ w,
  let c := Makedirs p in
  if mk_denied E p then abort c (OSError "PermissionError" p) (fs w) w
  else if negb exist_ok && isdir p (fs w) then abort c (OSError "FileExistsError" p) (fs w) w
  else match mkdirs p (fs w) with
       | Some t => commit c tt t w
       | None => abort c (OSError "FileExistsError" p) (fs w) w
       end.

Definition os_mkdir (p : path) : M unit := λ w,
  let c := Mkdir p in
  if mk_denied E p then abort c (OSError "PermissionError" p) (fs w) w
  else if path_exists p (fs w) then abort c (OSError "FileExistsError" p) (fs w) w
  else match put p (Dir ∅) (fs w) with
       | Some t => commit c tt t w
       | None => abort c (OSError "FileNotFoundError" p) (fs w) w
       end.

(** [tempfile.mkdtemp(prefix=prefix)], with a single candidate name: a name
    that is taken is reported like the library does once it runs out of
    candidates. *)
Definition tempfile_mkdtemp (prefix : string) : M path := λ w,
  let d := tmp_root E ++ [prefix +:+ entropy w] in
  let c := Mkdtemp d in
  if mk_denied E d then abort c (OSError "PermissionError" d) (fs w) w
  else if path_exists d (fs w) then abort c (OSError "FileExistsError" d) (fs w) w
  else match put d (Dir ∅) (fs w) with
       | Some t => commit c d t w
       | None => abort c (OSError "FileNotFoundError" d) (fs w) w
       end.

(** What is left at [p] after a call on it failed with [f]. *)
Definition leftover (f : fault) (p : path) (t : node) : node :=
  match f with
  | Partial rest => default t (put p rest t)
  | _ => t
  end.

Definition shutil_rmtree (p : path) : M unit := λ w,
  let c := Rmtree p in
  match get p (fs w) with
  | Some (Dir _) =>
      match rm_fault E p with
      | NoFault =>
          match del p (fs w) with
          | Some t => commit c tt t w
          | None => abort c (OSError "PermissionError" p) (fs w) w
          end
      | f => abort c (OSError "PermissionError" p) (leftover f p (fs w)) w
      end
  | Some (File _) => abort c (OSError "NotADirectoryError" p) (fs w) w
  | None => abort c (OSError "FileNotFoundError" p) (fs w) w
  end.

(** [shutil.rmtree(p, ignore_errors=True)] *)
Definition shutil_rmtree_ignore (p : path) : M unit := λ w,
  let o := shutil_rmtree p w in Outcome (Ok tt) (post o) (trace o).

Definition os_remove (p : path) : M unit := λ w,
  let c := Remove p in
  match get p (fs w) with
  | Some (File _) =>
      match rm_fault E p with
      | NoFault =>
          match del p (fs w) with
          | Some t => commit c tt t w
          | None => abort c (OSError "PermissionError" p) (fs w) w
          end
      | f => abort c (OSError "PermissionError" p) (leftover f p (fs w)) w
      end
  | Some (Dir _) => abort c (OSError "IsADirectoryError" p) (fs w) w
  | None => abort c (OSError "FileNotFoundError" p) (fs w) w
  end.

(** [shutil.copytree(src, dst)]: the source is listed, [dst] is created with
    [os.makedirs] (it must not exist), the tree is copied; errors met while
    copying are raised together at the end as [shutil.Error], with what could
    be copied left in place. *)
Definition shutil_copytree (src dst : path) : M path := λ w,
  let c := Copytree src dst in
  match get src (fs w) with
  | Some (Dir es) =>
      match cp_fault E src with
      | Denied => abort c (OSError "PermissionError" src) (fs w) w
      | f =>
          if mk_denied E dst then abort c (OSError "PermissionError" dst) (fs w) w
          else if path_exists dst (fs w) then abort c (OSError "FileExistsError" dst) (fs w) w
          else match mkdirs dst (fs w) with
               | None => abort c (OSError "NotADirectoryError" dst) (fs w) w
               | Some t =>
                   match f with
                   | Partial rest => abort c (ShutilError src) (leftover f dst t) w
                   | _ => commit c dst (default t (put dst (Dir es) t)) w
                   end
               end
      end
  | Some (File _) => abort c (OSError "NotADirectoryError" src) (fs w) w
  | None => abort c (OSError "FileNotFoundError" src) (fs w) w
  end.

(** [shutil.copy2(src, dst)]: when [dst] is a directory the file goes into it
    under the source's base name. *)
Definition shutil_copy2 (src dst : path) : M path := λ w,
  let c := Copy2 src dst in
  match get src (fs w) with
  | Some (File d) =>
      let dst' := if isdir dst (fs w) then dst ++ [basename src] else dst in
      match cp_fault E src with
      | Denied => abort c (OSError "PermissionError" src) (fs w) w
      | f =>
          if isdir dst' (fs w) then abort c (OSError "IsADirectoryError" dst') (fs w) w
          else match f, put dst' (File d) (fs w) with
               | Partial rest, Some _ => abort c (OSError "OSError" dst') (leftover f dst' (fs w)) w
               | _, Some t => commit c dst' t w
               | _, None => abort c (OSError "FileNotFoundError" dst') (fs w) w
               end
      end
  | Some (Dir _) => abort c (OSError "IsADirectoryError" src) (fs w) w
  | None => abort c (OSError "FileNotFoundError" src) (fs w) w
  end.

(** [open(p, "wb")] creates or truncates the file. *)
Definition open_wb (p : path) : M unit := λ w,
  let c := OpenW p in
  if open_denied E p then abort c (OSError "PermissionError" p) (fs w) w
  else if isdir p (fs w) then abort c (OSError "IsADirectoryError" p) (fs w) w
  else match put p (File "") (fs w) with
       | Some t => commit c tt t w
       | None => abort c (OSError "FileNotFoundError" p) (fs w) w
       end.

(** [f.write(chunk)] on the file opened at [p]. *)
Definition f_write (p : path) (chunk : string) : M unit := λ w,
  let c := WriteChunk p (str_len chunk) in
  match get p (fs w) with
  | Some (File d) =>
      if wr_denied E p (str_len d) then abort c (OSError "OSError" p) (fs w) w
      else commit c tt (default (fs w) (put p (File (d +:+ chunk)) (fs w))) w
  | _ => abort c (ValueError "I/O operation on closed file") (fs w) w
  end.

(** [requests.get(url, stream=True)] *)
Definition requests_get (url : string) : M response := λ w,
  match http E url with
  | inr r => commit (HttpGet url) r (fs w) w
  | inl e => abort (HttpGet url) e (fs w) w
  end.

(** [r.raise_for_status()] *)
Definition raise_for_status (r : response) : M unit :=
  if ((400 <=? status r) && (status r <? 600))%N then raise (HTTPError (status r))
  else ret tt.

(** [zipfile.ZipFile(p, "r")] *)
Definition zipfile_open (p : path) : M (list member) := peek (λ t,
  match get p t with
  | Some (File d) =>
      match zip_decode E d with
      | Some ms => Ok ms
      | None => Raise BadZipFile
      end
  | Some (Dir _) => Raise (OSError "IsADirectoryError" p)
  | None => Raise (OSError "FileNotFoundError" p)
  end).

(** [ZipFile._extract_member]: the member's name is cut into components,
    the invalid ones are dropped, and the rest is joined to the target
    directory. *)
Definition zip_extract_member (m : member) (targetdir : path) : M path :=
  let targetpath := targetdir ++ arcname m in
  let upperdirs := dirname targetpath in
  ex ← os_path_exists upperdirs;
  (if negb ex then os_makedirs false upperdirs else ret tt);;
  if member_is_dir m then
    d ← os_path_isdir targetpath;
    (if negb d then os_mkdir targetpath else ret tt);;
    ret targetpath
  else
    open_wb targetpath;;
    f_write targetpath (content m);;
    ret targetpath.

(** [z.extractall(dest)] *)
Definition zip_extractall (ms : list member) (dest : path) : M unit :=
  for_each ms (λ m, zip_extract_member m dest;; ret tt).

(** *** The program *)

Definition expand (p : string) : path := expandvars E p.

(** [datetime.now().strftime("%Y%m%d-%H%M%S")] *)
Definition now_stamp : M string := λ w, Outcome (Ok (now w)) w [].

Definition prompt_version : M path :=
  say "=======================================";;
  say "   Minecraft Resource Pack Patcher";;
  say "=======================================";;
  say "Choose your Minecraft installation type:";;
  say "  1) Minecraft Bedrock BEFORE 1.21.20 (UWP)";;
  say "  2) Minecraft Bedrock 1.21.20+ (GDK)";;
  v ← input "Enter 1 or 2: ";
  let v := strip v in
  if decide (v = "1") then ret (expand PATH_UWP)
  else if decide (v = "2") then ret (expand PATH_GDK)
  else say "Invalid selection. Exiting.";; raise (SystemExit 1).

Definition prompt_action : M string :=
  say "Select a patch action:";;
  for_each PATCHES (λ kp, emit (SayStr kp.1 (patch_name kp.2)));;
  say "  4) Clear patched files (backup then clear packcache/resource)";;
  choice ← input "Enter 1, 2, 3 or 4: ";
  let choice := strip choice in
  if decide (choice ∈ ["1"; "2"; "3"; "4"]) then ret choice
  else say "Invalid selection. Exiting.";; raise (SystemExit 1).

Definition make_backup (folder : path) : M (option path) :=
  ex ← os_path_exists folder;
  if negb ex then
    say "Target folder does not exist; skipping backup.";;
    ret None
  else
    let parent := dirname folder in
    let base := basename folder in
    stamp ← now_stamp;
    let backup_name := base +:+ "_backup_" +:+ stamp in
    let backup_path := parent ++ [backup_name] in
    emit (SayPath "Creating backup:" backup_path);;
    shutil_copytree folder backup_path;;
    say "Backup complete.";;
    ret (Some backup_path).

(** The body of the loop of [clear_folder_contents]. *)
Definition clear_entry (folder : path) (entry : string) : M unit :=
  let p := folder ++ [entry] in
  try_except
    (d ← os_path_isdir p;
     if d then shutil_rmtree p else os_remove p)
    (λ e, emit (Warn "failed to remove" p e)).

Definition clear_folder_contents (folder : path) : M unit :=
  ex ← os_path_exists folder;
  if negb ex then
    say "Target folder does not exist - creating it.";;
    os_makedirs true folder
  else
    say "Clearing folder contents...";;
    entries ← os_listdir folder;
    for_each entries (clear_entry folder);;
    say "Folder cleared.".

(** The body of the loop of [download_zip]; it returns the new value of
    [downloaded]. *)
Definition download_chunk (dest_path : path) (total : option N)
    (downloaded : N) (chunk : string) : M N :=
  if decide (chunk = "") then ret downloaded
  else
    f_write dest_path chunk;;
    let downloaded := (downloaded + str_len chunk)%N in
    (if truthy total then
       let pct := (downloaded * 100 `div` default 0 total)%N in
       emit (Progress downloaded (default 0%N total) pct)
     else ret tt);;
    ret downloaded.

Definition download_zip (url : string) (dest_path : path) : M path :=
  emit (SayStr "Downloading patch from:" url);;
  r ← requests_get url;
  raise_for_status r;;
  total ← peek (λ _, parse_total (content_length r));
  open_wb dest_path;;
  downloaded ← for_fold (chunks r) 0%N (download_chunk dest_path total);
  match broken r with Some e => raise e | None => ret tt end;;
  (if truthy total then emit (Downloaded downloaded (default 0%N total))
   else say "  download complete.");;
  ret dest_path.

Definition extract_zip (zip_path dest_dir : path) : M path :=
  say "Extracting zip...";;
  z ← zipfile_open zip_path;
  zip_extractall z dest_dir;;
  emit (SayPath "Extracted to:" dest_dir);;
  ret dest_dir.

(** The body of the loop of [copy_top_level_folders]; it returns the new
    value of [applied]. *)
Definition copy_entry (src_root dst_root : path) (applied : list string)
    (name : string) : M (list string) :=
  let src := src_root ++ [name] in
  let dst := dst_root ++ [name] in
  d ← os_path_isdir src;
  if d then
    ex ← os_path_exists dst;
    (if ex then
       try_except
         (dd ← os_path_isdir dst;
          if dd then shutil_rmtree dst else os_remove dst)
         (λ e, emit (Warn "failed to remove existing" dst e))
     else ret tt);;
    shutil_copytree src dst;;
    let applied := applied ++ [name] in
    emit (SayStr "  Copied pack:" name);;
    ret applied
  else
    try_except
      (shutil_copy2 src dst;;
       emit (SayStr "  Copied file:" name))
      (λ _, emit (SayStr "  Skipped non-dir item:" name));;
    ret applied.

Definition copy_top_level_folders (src_root dst_root : path) : M (list string) :=
  listing ← os_listdir src_root;
  for_fold listing [] (copy_entry src_root dst_root).

(** Lines 160-162 of [main]. *)
Definition ensure_target (target : path) : M unit :=
  ex ← os_path_exists target;
  if negb ex then
    say "Target folder does not exist. Creating it now.";;
    os_makedirs true target
  else ret tt.

Definition report_backup (text : string) (backup : option path) : M unit :=
  match backup with
  | Some b => emit (SayPath text b)
  | None => ret tt
  end.

(** The body of the [try] block of [main], lines 187-195. *)
Definition patch_steps (p : patch) (target : path) (backup : option path)
    (tmpdir : path) : M unit :=
  let zip_path := tmpdir ++ ["patch.zip"] in
  download_zip (patch_url p) zip_path;;
  let extract_dir := tmpdir ++ ["extracted"] in
  extract_zip zip_path extract_dir;;
  applied ← copy_top_level_folders extract_dir target;
  emit (SayNum "Applied packs count:" (N.of_nat (length applied)));;
  report_backup "Backup available at:" backup;;
  say "Patch applied successfully!".

(** The [except Exception as e] block, lines 196-199. *)
Definition patch_failed (backup : option path) (e : exn) : M unit :=
  emit (SayExn "ERROR during patch application:" e);;
  report_backup "You can restore from backup at:" backup.

(** Lines 184-201 of [main]: the scratch directory and the
    [try]/[except]/[finally] around download, extraction and merge. *)
Definition apply_patch (p : patch) (target : path) (backup : option path) : M unit :=
  tmpdir ← tempfile_mkdtemp "patcher_";
  try_finally
    (try_except (patch_steps p target backup tmpdir) (patch_failed backup))
    (shutil_rmtree_ignore tmpdir).

(** [main] from line 160 on, for the target and the action the prompts
    returned. *)
Definition run_session (target : path) (action : string) : M unit :=
  ensure_target target;;
  if decide (action = "4") then
    say "Clearing patched files...";;
    backup ← make_backup target;
    clear_folder_contents target;;
    say "Cleared. Game will redownload server packs when you join servers.";;
    report_backup "Backup located at:" backup;;
    input "Press ENTER to exit.";;
    ret tt
  else
    match PATCHES_get action with
    | None => say "Invalid patch selection. Exiting."
    | Some p =>
        emit (SayStr "Applying patch:" (patch_name p));;
        backup ← make_backup target;
        clear_folder_contents target;;
        apply_patch p target backup;;
        input "Press ENTER to exit.";;
        ret tt
    end.

Definition main : M unit :=
  target ← prompt_version;
  emit (SayPath "Target folder:" target);;
  action ← prompt_action;
  run_session target action.

End Program.

(** * Observations *)

(** Calls that remove an entry. *)
Definition is_removal (ev : event) : bool :=
  match ev with
  | Sys (Rmtree _) _ | Sys (Remove _) _ => true
  | _ => false
  end.

(** The call that completes a backup of [target]. *)
Definition is_backup_of (target : path) (ev : event) : bool :=
  match ev with
  | Sys (Copytree src _) true => bool_decide (src = target)
  | _ => false
  end.

(** No removal is attempted before a backup of [target] has completed. *)
Fixpoint backup_first (target : path) (l : list event) : bool :=
  match l with
  | [] => true
  | ev :: l' =>
      if is_backup_of target ev then true
      else negb (is_removal ev) && backup_first target l'
  end.

Definition is_progress (ev : event) : bool :=
  match ev with
  | Progress _ _ _ => true
  | _ => false
  end.

(** Every chunk written is followed at once by a progress report giving the
    bytes written so far, [total] and the percentage. *)
Fixpoint progress_after_writes (total sofar : N) (l : list event) : bool :=
  match l with
  | [] => true
  | Sys (WriteChunk _ len) true :: l' =>
      let d := (sofar + len)%N in
      match l' with
      | Progress d' t' pct :: l'' =>
          ((d' =? d) && (t' =? total) && (pct =? d * 100 `div` total))%N
          && progress_after_writes total d l''
      | _ => false
      end
  | _ :: l' => progress_after_writes total sofar l'
  end.

(** How the apply action reports its end. *)
Definition success : event := Say "Patch applied successfully!".
Definition is_success (ev : event) : bool :=
  match ev with
  | Say text => bool_decide (text = "Patch applied successfully!")
  | _ => false
  end.
Definition is_failure (ev : event) : bool :=
  match ev with
  | SayExn _ _ => true
  | _ => false
  end.

(** An environment without faults. *)
Record no_faults (E : env) : Prop := {
  nf_rm : ∀ p, rm_fault E p = NoFault;
  nf_cp : ∀ p, cp_fault E p = NoFault;
  nf_ls : ∀ p, ls_denied E p = false;
  nf_mk : ∀ p, mk_denied E p = false;
  nf_open : ∀ p, open_denied E p = false;
  nf_wr : ∀ p n, wr_denied E p n = false;
}.




(** The scratch directory as download and extraction leave it, computed with
    the scratch directory as the root. *)
Definition staged (E : env) (p : patch) : outcome path :=
  (download_zip E (patch_url p) ["patch.zip"];;
   extract_zip E ["patch.zip"] ["extracted"])%M (World (Dir ∅) [] "" "").

(** What the archive of [p] unpacks to. *)
Definition payload (E : env) (p : patch) : option node :=
  get ["extracted"] (fs (post (staged E p))).

(** What [clear_folder_contents] leaves of the children [es] of [folder]:
    a child whose removal fails stays, as the failed call left it. *)
Definition survivors (E : env) (folder : path) (es : gmap string node) :
    gmap string node :=
  map_imap (λ n c, match rm_fault E (folder ++ [n]) with
                   | NoFault => None
                   | Denied => Some c
                   | Partial rest => Some rest
                   end) es.

(** One round of the loop of [clear_folder_contents], on the children of
    [folder]. *)
Definition clear_step (E : env) (folder : path) (cur : gmap string node)
    (n : string) : gmap string node :=
  match cur !! n with
  | None => cur
  | Some c =>
      match rm_fault E (folder ++ [n]) with
      | NoFault => delete n cur
      | Denied => cur
      | Partial rest => <[n := rest]> cur
      end
  end.

(** The scratch directory [apply_patch] creates in the world [w]. *)
Definition tmpdir_of (E : env) (w : world) : path :=
  tmp_root E ++ ["patcher_" +:+ entropy w].

(** The top-level directories of an extraction root with children [es]. *)
Definition is_dir_child (es : gmap string node) (n : string) : bool :=
  match es !! n with Some (Dir _) => true | _ => false end.

(** Nothing in the environment stops the merge from replacing the child [n]
    of the target, whose children are [cur], by the directory [n] of the
    extraction. *)
Definition can_replace (E : env) (src_root dst_root : path)
    (cur : gmap string node) (n : string) : Prop :=
  cp_fault E (src_root ++ [n]) = NoFault
  ∧ mk_denied E (dst_root ++ [n]) = false
  ∧ (cur !! n = None ∨ rm_fault E (dst_root ++ [n]) = NoFault).

Definition skipped (n : string) : event := SayStr "  Skipped non-dir item:" n.

(** * Statements about runs *)

Definition is_ok {A} (r : result A) : bool :=
  match r with Ok _ => true | Raise _ => false end.

(** Every library call that changes the file system emits exactly one event,
    which tells whether it succeeded. *)
Definition one_call {A} (c : syscall) (m : M A) : Prop :=
  ∀ w, trace (m w) = [Sys c (is_ok (res (m w)))].


(** [mute f m]: no event of a run of [m] satisfies [f]. *)
Definition mute {A} (f : event → bool) (m : M A) : Prop :=
  ∀ w, existsb f (trace (m w)) = false.


(** A property [I] of the file system that no write at [p] can break. *)
Definition upd_stable (I : node → Prop) (p : path) : Prop :=
  ∀ t o t', upd p o t = Some t' → I t → I t'.
Definition mk_stable (I : node → Prop) (p : path) : Prop :=
  ∀ t t', mkdirs p t = Some t' → I t → I t'.

(** [preserves I m]: a run of [m] keeps [I]. *)
Definition preserves {A} (I : node → Prop) (m : M A) : Prop :=
  ∀ w, I (fs w) → I (fs (post (m w))).


(** [reloc R d m m']: [m], run where the directory [d] holds the tree [c],
    ends like [m'] run on [c] as the whole file system: both return, with
    values related by [R], or both raise; and [d] then holds what [m'] left.
    It relates a step of the program working in the scratch directory to the
    same step with the scratch directory as the root. *)
Definition reloc {A A'} (R : A → A' → Prop) (d : path) (m : M A) (m' : M A') : Prop :=
  ∀ w w', get d (fs w) = Some (fs w') →
    match res (m w), res (m' w') with
    | Ok a, Ok a' => R a a'
    | Raise _, Raise _ => True
    | _, _ => False
    end
    ∧ get d (fs (post (m w))) = Some (fs (post (m' w'))).

Definition any {A A'} : A → A' → Prop := λ _ _, True.


(** Where [make_backup] puts the backup of [folder]. *)
Definition backup_path_of (folder : path) (w : world) : path :=
  dirname folder ++ [basename folder +:+ "_backup_" +:+ now w].


(** * Scenarios *)

(** The target and the system's temporary directory. *)
Definition home : path := ["home"; "resource"].
Definition tmp : path := ["tmp"].

(** An archive with two packs, a top-level file and an entry whose name
    climbs out of the destination. *)
Definition archive : list member :=
  [ {| filename := "packA/"; content := "" |};
    {| filename := "packA/manifest.json"; content := "{A}" |};
    {| filename := "packB/manifest.json"; content := "{B}" |};
    {| filename := "readme.txt"; content := "hi" |};
    {| filename := "../evil.txt"; content := "x" |} ].

(** A server that sends the archive in two chunks (and an empty keep-alive
    chunk between them), with or without its length. *)
Definition answer (length : option string) : response :=
  {| status := 200; content_length := length;
     chunks := ["ab"; ""; "cd"]; broken := None |}.

Definition decoder (data : string) : option (list member) :=
  if decide (data = "abcd") then Some archive else None.

(** No faults; the length is announced. *)
Definition E_plain : env :=
  {| rm_fault := λ _, NoFault; cp_fault := λ _, NoFault;
     ls_denied := λ _, false; mk_denied := λ _, false;
     open_denied := λ _, false; wr_denied := λ _ _, false;
     http := λ _, inr (answer (Some "4"));
     zip_decode := decoder;
     tmp_root := tmp;
     expandvars := λ _, home |}.

(** The same, but the server announces no length. *)
Definition E_no_length : env :=
  {| rm_fault := λ _, NoFault; cp_fault := λ _, NoFault;
     ls_denied := λ _, false; mk_denied := λ _, false;
     open_denied := λ _, false; wr_denied := λ _ _, false;
     http := λ _, inr (answer None);
     zip_decode := decoder;
     tmp_root := tmp;
     expandvars := λ _, home |}.

(** Copying from [bad] fails; nothing else does. *)
Definition E_copy_fails (bad : path) (f : fault) : env :=
  {| rm_fault := λ _, NoFault;
     cp_fault := λ p, if decide (p = bad) then f else NoFault;
     ls_denied := λ _, false; mk_denied := λ _, false;
     open_denied := λ _, false; wr_denied := λ _ _, false;
     http := λ _, inr (answer (Some "4"));
     zip_decode := decoder;
     tmp_root := tmp;
     expandvars := λ _, home |}.

(** Removing [stuck] is denied; nothing else fails. *)
Definition E_remove_fails (stuck : path) : env :=
  {| rm_fault := λ p, if decide (p = stuck) then Denied else NoFault;
     cp_fault := λ _, NoFault;
     ls_denied := λ _, false; mk_denied := λ _, false;
     open_denied := λ _, false; wr_denied := λ _ _, false;
     http := λ _, inr (answer (Some "4"));
     zip_decode := decoder;
     tmp_root := tmp;
     expandvars := λ _, home |}.

(** The children of the target before the session: an old pack and a file. *)
Definition old_entries : gmap string node :=
  <["old" := Dir (<["f" := File "1"]> ∅)]> (<["junk.txt" := File "2"]> ∅).

(** A file system in which the target exists ... *)
Definition fs_home : node :=
  Dir (<["tmp" := Dir ∅]> (<["home" := Dir (<["resource" := Dir old_entries]> ∅)]> ∅)).
(** ... and one in which it does not. *)
Definition fs_bare : node :=
  Dir (<["tmp" := Dir ∅]> (<["home" := Dir ∅]> ∅)).

Definition w_home : world := World fs_home [""; ""] "20260101-000000" "abc".
Definition w_bare : world := World fs_bare [""; ""] "20260101-000000" "abc".

Definition patch_1 : patch :=
  Eval vm_compute in default (Build_patch "" "") (PATCHES_get "1").

(** The scratch directory of these worlds, and what extraction leaves in it. *)
Definition scratch : path := ["tmp"; "patcher_abc"].
Definition extracted : path := scratch ++ ["extracted"].
Definition unpacked : gmap string node :=
  <["packA" := Dir (<["manifest.json" := File "{A}"]> ∅)]>
  (<["packB" := Dir (<["manifest.json" := File "{B}"]> ∅)]>
  (<["readme.txt" := File "hi"]>
  (<["evil.txt" := File "x"]> ∅))).

(** The world in which the apply pipeline starts once the backup is made and
    the target is cleared. *)
Definition w_cleared : world :=
  World (Dir (<["tmp" := Dir ∅]> (<["home" := Dir (<["resource" := Dir ∅]> ∅)]> ∅)))
        [""] "20260101-000000" "abc".

(** * Further observations *)

(** A library call, as opposed to a line printed. *)
Definition is_call (ev : event) : bool :=
  match ev with
  | Sys _ _ => true
  | _ => false
  end.

(** A warning about an entry that could not be removed. *)
Definition is_warning (ev : event) : bool :=
  match ev with
  | Warn _ _ _ => true
  | _ => false
  end.

(** The line of [main] for an action that names no patch. *)
Definition is_invalid_patch (ev : event) : bool :=
  match ev with
  | Say text => bool_decide (text = "Invalid patch selection. Exiting.")
  | _ => false
  end.

(** The calls the clear-only action may make: it creates the target, copies
    it, and removes children of it. *)
Definition clear_only_call (target : path) (ev : event) : bool :=
  match ev with
  | Sys (Makedirs p) _ => bool_decide (p = target)
  | Sys (Copytree src _) _ => bool_decide (src = target)
  | Sys (Rmtree p) _ | Sys (Remove p) _ =>
      bool_decide (p ≠ [] ∧ dirname p = target)
  | Sys _ _ => false
  | _ => true
  end.


(** A string of blanks. *)
Definition all_blank (s : string) : bool := forallb is_space (chars s).

(** [400 <= status < 600], the codes [raise_for_status] raises on. *)
Definition is_error_status (r : response) : bool :=
  ((400 <=? status r) && (status r <? 600))%N.

(** The world with other lines waiting on standard input. *)
Definition set_stdin (ls : list string) (w : world) : world :=
  World (fs w) ls (now w) (entropy w).

(** What [download_zip] raises before it opens the destination: the error
    of the request, of [raise_for_status], or of [int] on a header that
    [isdigit] let through. *)
Definition response_error (E : env) (url : string) : option exn :=
  match http E url with
  | inl e => Some e
  | inr r =>
      if is_error_status r then Some (HTTPError (status r))
      else match parse_total (content_length r) with
           | Raise e => Some e
           | Ok _ => None
           end
  end.

(** A call that creates or writes a file. *)
Definition is_file_write (ev : event) : bool :=
  match ev with
  | Sys (OpenW _) _ | Sys (WriteChunk _ _) _ => true
  | _ => false
  end.


(** The archive of [p] can be fetched and unpacked, and unpacks to a
    directory. *)
Definition deliverable (E : env) (p : patch) : bool :=
  is_ok (res (staged E p))
  && match payload E p with Some (Dir _) => true | _ => false end.

(** * Further scenarios *)

(** An environment without faults whose server answers [r] and whose
    archives decode by [dec]. *)
Definition E_serving (r : response) (dec : string → option (list member)) : env :=
  {| rm_fault := λ _, NoFault; cp_fault := λ _, NoFault;
     ls_denied := λ _, false; mk_denied := λ _, false;
     open_denied := λ _, false; wr_denied := λ _ _, false;
     http := λ _, inr r;
     zip_decode := dec;
     tmp_root := tmp;
     expandvars := λ _, home |}.

(** The server does not have the file. *)
Definition E_not_found : env :=
  E_serving {| status := 404; content_length := None; chunks := []; broken := None |}
            decoder.

(** The length is announced as a superscript two, which [isdigit] accepts
    and [int] rejects. *)
Definition E_odd_length : env :=
  E_serving (answer (Some (String "178"%char ""))) decoder.

(** The archive has no members. *)
Definition E_empty_archive : env :=
  E_serving (answer (Some "4")) (λ _, Some []).

(** The world of [w_home] with other answers waiting. *)
Definition w_asked (answers : list string) : world := set_stdin answers w_home.


(** The archive unpacked in the scratch directory, and a target with the
    children [resource]. *)
Definition w_unpacked (resource : gmap string node) : world :=
  World (Dir (<["tmp" := Dir (<["patcher_abc" :=
                 Dir (<["extracted" := Dir unpacked]> ∅)]> ∅)]>
             (<["home" := Dir (<["resource" := Dir resource]> ∅)]> ∅)))
        [] "" "".

(** The backup [make_backup] makes of the target in these worlds. *)
Definition home_backup : path := ["home"; "resource_backup_20260101-000000"].


(** The world a first session leaves, a second later, when the pack [packA]
    it has put into the target can no longer be removed. *)
Definition w_again : world :=
  World (fs (post (run_session (E_remove_fails (home ++ ["packA"])) home "1" w_home)))
        [""; ""] "20260101-000001" "abc".
(** * Properties of the file system *)

Lemma get_nil n : get [] n = Some n.
Proof. done. Qed.
Lemma get_cons x q es : get (x :: q) (Dir es) = es !! x ≫= get q.
Proof. done. Qed.
Lemma get_cons_File x q d : get (x :: q) (File d) = None.
Proof. done. Qed.
Lemma upd_nil o n : upd [] o n = o.
Proof. done. Qed.
Lemma upd_single x o es :
  upd [x] o (Dir es) = Some (Dir (partial_alter (λ _, o) x es)).
Proof. done. Qed.
Lemma upd_cons x y q o es :
  upd (x :: y :: q) o (Dir es) =
  es !! x ≫= λ c, upd (y :: q) o c ≫= λ c', Some (Dir (<[x := c']> es)).
Proof. done. Qed.
Lemma upd_cons_File x q o d : upd (x :: q) o (File d) = None.
Proof. done. Qed.
Lemma mkdirs_nil es : mkdirs [] (Dir es) = Some (Dir es).
Proof. done. Qed.
Lemma mkdirs_cons x q es :
  mkdirs (x :: q) (Dir es) =
  mkdirs q (default (Dir ∅) (es !! x)) ≫= λ c', Some (Dir (<[x := c']> es)).
Proof. done. Qed.

#[global] Opaque get upd mkdirs.

Lemma bind_Some_inv {A B} (o : option A) (f : A → option B) b :
  o ≫= f = Some b → ∃ a, o = Some a ∧ f a = Some b.
Proof. destruct o; simpl; eauto; done. Qed.

Lemma get_app p q n : get (p ++ q) n = get p n ≫= get q.
Proof.
  revert n. induction p as [|x p IH]; intros n; [done|].
  destruct n as [|es]; [done|]. simpl. rewrite !get_cons.
  destruct (es !! x); simpl; auto.
Qed.

Lemma diverge_sym p q : diverge p q → diverge q p.
Proof. intros [??]; split; done. Qed.

Lemma diverge_app_l p q r : diverge p q → diverge (p ++ r) q.
Proof.
  intros [H1 H2]. split.
  - intros H. apply H1. etrans; [|done]. by apply prefix_app_r.
  - intros H. destruct (prefix_weak_total q p (p ++ r)) as [?|?]; auto.
    by apply prefix_app_r.
Qed.

Lemma diverge_app_r p q r : diverge p q → diverge p (q ++ r).
Proof. intros. by apply diverge_sym, diverge_app_l, diverge_sym. Qed.

Lemma diverge_cons x p q : diverge (x :: p) (x :: q) ↔ diverge p q.
Proof.
  unfold diverge. split; intros [H1 H2]; split; intros H.
  - apply H1. by apply prefix_cons.
  - apply H2. by apply prefix_cons.
  - apply H1. by apply prefix_cons_inv_2 in H.
  - apply H2. by apply prefix_cons_inv_2 in H.
Qed.

Lemma diverge_siblings p x y r r' : x ≠ y → diverge (p ++ x :: r) (p ++ y :: r').
Proof.
  intros Hxy. induction p as [|z p IH]; simpl.
  - split; intros H; apply prefix_cons_inv_1 in H; congruence.
  - by apply diverge_cons.
Qed.

(** Reading back what [upd] wrote. *)
Lemma get_upd_same p o n n' r :
  upd p o n = Some n' → get (p ++ r) n' = o ≫= get r.
Proof.
  revert n n'. induction p as [|x q IH]; intros n n' H.
  - rewrite upd_nil in H. by subst.
  - destruct n as [|es]; [done|]. destruct q as [|y q].
    + rewrite upd_single in H. simplify_eq. simpl.
      by rewrite get_cons, lookup_partial_alter_eq.
    + rewrite upd_cons in H.
      apply bind_Some_inv in H as (c & Hx & H).
      apply bind_Some_inv in H as (c' & Hc & H). simplify_eq.
      change ((x :: y :: q) ++ r) with (x :: ((y :: q) ++ r)).
      rewrite get_cons, lookup_insert_eq. simpl. eauto.
Qed.

(** [upd] changes nothing at a path that is neither below nor above. *)
Lemma get_upd_diverge p o n n' q :
  upd p o n = Some n' → diverge p q → get q n' = get q n.
Proof.
  revert n n' q. induction p as [|x p IH]; intros n n' q H [H1 H2].
  - destruct H1. apply prefix_nil.
  - destruct q as [|y q]; [destruct H2; apply prefix_nil|].
    destruct n as [|es]; [done|]. destruct p as [|z p].
    + rewrite upd_single in H. simplify_eq. rewrite !get_cons.
      destruct (decide (x = y)) as [->|Hxy].
      * destruct H1. apply prefix_cons, prefix_nil.
      * by rewrite lookup_partial_alter_ne.
    + rewrite upd_cons in H.
      apply bind_Some_inv in H as (c & Hx & H).
      apply bind_Some_inv in H as (c' & Hc & H). simplify_eq.
      rewrite !get_cons. destruct (decide (x = y)) as [->|Hxy].
      * rewrite lookup_insert_eq, Hx. simpl. eapply IH; [done|].
        by apply (diverge_cons y).
      * by rewrite lookup_insert_ne.
Qed.

(** A directory above the place [upd] works at stays a directory. *)
Lemma isdir_upd_above p o n n' q :
  upd p o n = Some n' → q `prefix_of` p → q ≠ p → isdir q n' = true.
Proof.
  unfold isdir. revert n n' q. induction p as [|x p IH]; intros n n' q H Hq Hne.
  - apply prefix_nil_inv in Hq. congruence.
  - destruct n as [|es]; [done|]. destruct q as [|y q].
    { rewrite get_nil. destruct p.
      - rewrite upd_single in H. by simplify_eq.
      - rewrite upd_cons in H.
        apply bind_Some_inv in H as (c & Hx & H).
        apply bind_Some_inv in H as (c' & Hc & H). by simplify_eq. }
    pose proof (prefix_cons_inv_1 _ _ _ _ Hq) as ->.
    apply prefix_cons_inv_2 in Hq. destruct p as [|z p].
    { apply prefix_nil_inv in Hq. congruence. }
    rewrite upd_cons in H.
    apply bind_Some_inv in H as (c & Hx & H).
    apply bind_Some_inv in H as (c' & Hc & H). simplify_eq.
    rewrite get_cons, lookup_insert_eq. simpl. eapply IH; [done..|congruence].
Qed.

(** [upd] below [p] is [upd] on the subtree at [p]. *)
Lemma upd_app p x q o n :
  upd (p ++ x :: q) o n =
  get p n ≫= λ c, upd (x :: q) o c ≫= λ c', upd p (Some c') n.
Proof.
  revert n. induction p as [|y p IH]; intros n.
  - rewrite get_nil. simpl. by destruct (upd (x :: q) o n).
  - destruct n as [|es]; [done|].
    assert (∃ z r, p ++ x :: q = z :: r) as (z & r & Hzr).
    { destruct p; simpl; eauto. }
    simpl. rewrite Hzr, upd_cons, <-Hzr, get_cons.
    destruct (es !! y) as [c|] eqn:Hy; simpl; [|done].
    rewrite IH. destruct (get p c) as [d|] eqn:Hd; simpl; [|done].
    destruct (upd (x :: q) o d) as [d'|]; simpl; [|done].
    destruct p as [|z' p].
    + rewrite upd_nil, upd_single. rewrite get_nil in Hd. by simplify_eq.
    + by rewrite upd_cons, Hy.
Qed.

Lemma upd_Some_is_Some p t n : is_Some (get p n) → is_Some (upd p (Some t) n).
Proof.
  revert n. induction p as [|x p IH]; intros n H; [by rewrite upd_nil|].
  destruct n as [|es]; [by destruct H|]. destruct p as [|y p].
  { rewrite upd_single. eauto. }
  rewrite get_cons in H. rewrite upd_cons.
  destruct (es !! x) as [c|]; [|by destruct H]. simpl in *.
  destruct (IH c H) as [c' ->]. simpl. eauto.
Qed.

(** Writing or removing the child [x] of the directory at [p]. *)
Lemma upd_child p x o n es :
  get p n = Some (Dir es) →
  ∃ n', upd (p ++ [x]) o n = Some n' ∧
        get p n' = Some (Dir (partial_alter (λ _, o) x es)).
Proof.
  intros Hp. rewrite upd_app, Hp. simpl. rewrite upd_single. simpl.
  destruct (upd_Some_is_Some p (Dir (partial_alter (λ _, o) x es)) n) as [n' Hn'].
  { by rewrite Hp. }
  exists n'. split; [done|].
  rewrite <-(app_nil_r p). by rewrite (get_upd_same _ _ _ _ _ Hn').
Qed.

Lemma mkdirs_app p q n c :
  get p n = Some c →
  mkdirs (p ++ q) n = mkdirs q c ≫= λ c', upd p (Some c') n.
Proof.
  revert n. induction p as [|y p IH]; intros n Hp.
  - rewrite get_nil in Hp. simplify_eq. simpl. by destruct (mkdirs q c).
  - destruct n as [|es]; [done|]. rewrite get_cons in Hp.
    apply bind_Some_inv in Hp as (c0 & Hy & Hp).
    simpl. rewrite mkdirs_cons, Hy. simpl. rewrite (IH _ Hp).
    destruct (mkdirs q c) as [c'|]; simpl; [|done].
    destruct p as [|z p].
    + rewrite upd_nil, upd_single. rewrite get_nil in Hp. by simplify_eq.
    + by rewrite upd_cons, Hy.
Qed.

Lemma mkdirs_isdir p n n' : mkdirs p n = Some n' → isdir p n' = true.
Proof.
  unfold isdir. revert n n'. induction p as [|x p IH]; intros n n' H.
  - destruct n; [done|]. rewrite mkdirs_nil in H. by simplify_eq.
  - destruct n as [|es]; [done|]. rewrite mkdirs_cons in H.
    apply bind_Some_inv in H as (c' & Hc & H). simplify_eq.
    rewrite get_cons, lookup_insert_eq. simpl. eauto.
Qed.

Lemma mkdirs_existing p n : isdir p n = true → mkdirs p n = Some n.
Proof.
  unfold isdir. revert n. induction p as [|x p IH]; intros n H.
  - rewrite get_nil in H. by destruct n.
  - destruct n as [|es]; [done|]. rewrite get_cons in H.
    rewrite mkdirs_cons.
    destruct (es !! x) as [c|] eqn:Hx; [|done]. simpl in *.
    rewrite (IH c H). simpl. by rewrite insert_id.
Qed.

Lemma get_mkdirs_diverge p n n' q :
  mkdirs p n = Some n' → diverge p q → get q n' = get q n.
Proof.
  revert n n' q. induction p as [|x p IH]; intros n n' q H [H1 H2].
  - destruct H1. apply prefix_nil.
  - destruct q as [|y q]; [destruct H2; apply prefix_nil|].
    destruct n as [|es]; [done|]. rewrite mkdirs_cons in H.
    apply bind_Some_inv in H as (c' & Hc & H). simplify_eq.
    rewrite !get_cons. destruct (decide (x = y)) as [->|Hxy].
    + rewrite lookup_insert_eq. simpl.
      destruct p as [|z p].
      { destruct H1. apply prefix_cons, prefix_nil. }
      erewrite IH; [|done|by apply (diverge_cons y)].
      destruct (es !! y) as [c|] eqn:Hy; simpl; [done|].
      destruct q; [|done].
      destruct H2. apply prefix_cons, prefix_nil.
    + by rewrite lookup_insert_ne.
Qed.

(** Directories stay directories under [mkdirs]. *)
Lemma mkdirs_keeps_dirs p n n' q :
  mkdirs p n = Some n' → isdir q n = true → isdir q n' = true.
Proof.
  unfold isdir. revert n n' q. induction p as [|x p IH]; intros n n' q H Hq.
  - destruct n; [done|]. rewrite mkdirs_nil in H. by simplify_eq.
  - destruct n as [|es]; [done|]. rewrite mkdirs_cons in H.
    apply bind_Some_inv in H as (c' & Hc & H). simplify_eq.
    destruct q as [|y q]; [done|]. rewrite get_cons in *.
    destruct (decide (x = y)) as [->|Hxy].
    + rewrite lookup_insert_eq. simpl.
      destruct (es !! y) as [c|] eqn:Hy; [|done]. simpl in *. eauto.
    + by rewrite lookup_insert_ne.
Qed.

(** [mkdirs p] changes nothing at a path that is not above [p]. *)
Lemma get_mkdirs_other p n n' q :
  mkdirs p n = Some n' → ¬ q `prefix_of` p → get q n' = get q n.
Proof.
  revert n n' q. induction p as [|x p IH]; intros n n' q H Hq.
  - destruct n; [done|]. rewrite mkdirs_nil in H. by simplify_eq.
  - destruct q as [|y q]; [destruct Hq; apply prefix_nil|].
    destruct n as [|es]; [done|]. rewrite mkdirs_cons in H.
    apply bind_Some_inv in H as (c' & Hc & H). simplify_eq.
    rewrite !get_cons. destruct (decide (x = y)) as [->|Hxy].
    + rewrite lookup_insert_eq. cbn.
      assert (¬ q `prefix_of` p) as Hq'.
      { intros ?. apply Hq. by apply prefix_cons. }
      rewrite (IH _ _ _ Hc Hq').
      destruct (es !! y) as [c|]; cbn; [done|].
      destruct q as [|z q]; [destruct Hq'; apply prefix_nil|].
      by rewrite get_cons, lookup_empty.
    + by rewrite lookup_insert_ne.
Qed.

(** A write strictly below a directory changes at most one of its children. *)
Lemma upd_below p x r o n n' es :
  upd (p ++ x :: r) o n = Some n' → get p n = Some (Dir es) →
  ∃ es', get p n' = Some (Dir es') ∧ ∀ y, y ≠ x → es' !! y = es !! y.
Proof.
  intros H Hp. rewrite upd_app, Hp in H. cbn in H.
  apply bind_Some_inv in H as (c' & Hc & H).
  rewrite <-(app_nil_r p), (get_upd_same _ _ _ _ _ H). cbn. rewrite get_nil.
  destruct r as [|z r].
  - rewrite upd_single in Hc. simplify_eq. eexists. split; [done|].
    intros y Hy. by rewrite lookup_partial_alter_ne.
  - rewrite upd_cons in Hc.
    apply bind_Some_inv in Hc as (c & Hx & Hc).
    apply bind_Some_inv in Hc as (c2 & Hc2 & Hc). simplify_eq.
    eexists. split; [done|]. intros y Hy. by rewrite lookup_insert_ne.
Qed.

Lemma mkdirs_below p x r n n' es :
  mkdirs (p ++ x :: r) n = Some n' → get p n = Some (Dir es) →
  ∃ es', get p n' = Some (Dir es') ∧ ∀ y, y ≠ x → es' !! y = es !! y.
Proof.
  intros H Hp. rewrite (mkdirs_app _ _ _ _ Hp) in H.
  apply bind_Some_inv in H as (c' & Hc & H).
  rewrite <-(app_nil_r p), (get_upd_same _ _ _ _ _ H). cbn. rewrite get_nil.
  rewrite mkdirs_cons in Hc.
  apply bind_Some_inv in Hc as (c2 & Hc2 & Hc). simplify_eq.
  eexists. split; [done|]. intros y Hy. by rewrite lookup_insert_ne.
Qed.

(** * Running the monad *)

Section Run.

Context {A B : Type}.
Implicit Types (m : M A) (k : A → M B) (w : world).

Lemma res_bind m k w :
  res (bind m k w) =
  match res (m w) with Ok a => res (k a (post (m w))) | Raise e => Raise e end.
Proof. unfold bind. by destruct (res (m w)). Qed.

Lemma post_bind m k w :
  post (bind m k w) =
  match res (m w) with Ok a => post (k a (post (m w))) | Raise _ => post (m w) end.
Proof. unfold bind. by destruct (res (m w)). Qed.

Lemma trace_bind m k w :
  trace (bind m k w) =
  trace (m w) ++
  match res (m w) with Ok a => trace (k a (post (m w))) | Raise _ => [] end.
Proof. unfold bind. destruct (res (m w)); simpl; by rewrite ?app_nil_r. Qed.

Lemma res_try_except m (h : exn → M A) w :
  res (try_except m h w) =
  match res (m w) with
  | Raise e => if is_Exception e then res (h e (post (m w))) else Raise e
  | Ok a => Ok a
  end.
Proof. unfold try_except. destruct (res (m w)) as [|e] eqn:H; [done|]. by destruct (is_Exception e). Qed.

Lemma post_try_except m (h : exn → M A) w :
  post (try_except m h w) =
  match res (m w) with
  | Raise e => if is_Exception e then post (h e (post (m w))) else post (m w)
  | Ok a => post (m w)
  end.
Proof. unfold try_except. destruct (res (m w)) as [|e]; [done|]. by destruct (is_Exception e). Qed.

Lemma trace_try_except m (h : exn → M A) w :
  trace (try_except m h w) =
  trace (m w) ++
  match res (m w) with
  | Raise e => if is_Exception e then trace (h e (post (m w))) else []
  | Ok a => []
  end.
Proof.
  unfold try_except. destruct (res (m w)) as [|e]; [by rewrite app_nil_r|].
  destruct (is_Exception e); simpl; by rewrite ?app_nil_r.
Qed.

End Run.

#[global] Arguments os_listdir : simpl never.
#[global] Arguments os_makedirs : simpl never.
#[global] Arguments os_mkdir : simpl never.
#[global] Arguments tempfile_mkdtemp : simpl never.
#[global] Arguments shutil_rmtree : simpl never.
#[global] Arguments shutil_rmtree_ignore : simpl never.
#[global] Arguments os_remove : simpl never.
#[global] Arguments shutil_copytree : simpl never.
#[global] Arguments shutil_copy2 : simpl never.
#[global] Arguments open_wb : simpl never.
#[global] Arguments f_write : simpl never.
#[global] Arguments requests_get : simpl never.
#[global] Arguments zipfile_open : simpl never.
#[global] Arguments input : simpl never.
#[global] Arguments for_fold : simpl nomatch.
#[global] Arguments make_backup : simpl never.
#[global] Arguments clear_folder_contents : simpl never.
#[global] Arguments download_zip : simpl never.
#[global] Arguments extract_zip : simpl never.
#[global] Arguments zip_extractall : simpl never.
#[global] Arguments zip_extract_member : simpl never.
#[global] Arguments copy_top_level_folders : simpl never.
#[global] Arguments copy_entry : simpl never.
#[global] Arguments clear_entry : simpl never.
#[global] Arguments download_chunk : simpl never.
#[global] Arguments ensure_target : simpl never.
#[global] Arguments apply_patch : simpl never.
#[global] Arguments patch_steps : simpl never.
#[global] Arguments patch_failed : simpl never.
#[global] Arguments run_session : simpl never.

(** Pushes [res], [post] and [trace] through the structure of a program,
    without unfolding the program's functions. *)
Ltac run_step :=
  match goal with
  | |- context [trace (bind ?m ?k ?w)] => rewrite (trace_bind m k w)
  | |- context [res (bind ?m ?k ?w)] => rewrite (res_bind m k w)
  | |- context [post (bind ?m ?k ?w)] => rewrite (post_bind m k w)
  | |- context [trace (try_except ?m ?h ?w)] => rewrite (trace_try_except m h w)
  | |- context [res (try_except ?m ?h ?w)] => rewrite (res_try_except m h w)
  | |- context [post (try_except ?m ?h ?w)] => rewrite (post_try_except m h w)
  end.
Ltac run := repeat (first [run_step | progress cbn]).

Ltac run_step_in H :=
  match type of H with
  | context [trace (bind ?m ?k ?w)] => rewrite (trace_bind m k w) in H
  | context [res (bind ?m ?k ?w)] => rewrite (res_bind m k w) in H
  | context [post (bind ?m ?k ?w)] => rewrite (post_bind m k w) in H
  | context [trace (try_except ?m ?h ?w)] => rewrite (trace_try_except m h w) in H
  | context [res (try_except ?m ?h ?w)] => rewrite (res_try_except m h w) in H
  | context [post (try_except ?m ?h ?w)] => rewrite (post_try_except m h w) in H
  end.
Ltac run_in H := repeat (first [run_step_in H | progress cbn in H]).

(** * What a run emits *)

Ltac one_call_tac :=
  intros w; cbv beta delta [commit abort leftover] zeta;
  repeat case_match; reflexivity.

Section Calls.

Context (E : env).

Lemma one_call_makedirs b p : one_call (Makedirs p) (os_makedirs E b p).
Proof. unfold os_makedirs. one_call_tac. Qed.
Lemma one_call_mkdir p : one_call (Mkdir p) (os_mkdir E p).
Proof. unfold os_mkdir. one_call_tac. Qed.
Lemma one_call_rmtree p : one_call (Rmtree p) (shutil_rmtree E p).
Proof. unfold shutil_rmtree. one_call_tac. Qed.
Lemma one_call_remove p : one_call (Remove p) (os_remove E p).
Proof. unfold os_remove. one_call_tac. Qed.
Lemma one_call_copytree s d : one_call (Copytree s d) (shutil_copytree E s d).
Proof. unfold shutil_copytree. one_call_tac. Qed.
Lemma one_call_open p : one_call (OpenW p) (open_wb E p).
Proof. unfold open_wb. one_call_tac. Qed.
Lemma one_call_write p s : one_call (WriteChunk p (str_len s)) (f_write E p s).
Proof. unfold f_write. one_call_tac. Qed.
Lemma one_call_get u : one_call (HttpGet u) (requests_get E u).
Proof. unfold requests_get. one_call_tac. Qed.

Lemma one_call_copy2 s d : one_call (Copy2 s d) (shutil_copy2 E s d).
Proof. unfold shutil_copy2. one_call_tac. Qed.

Lemma trace_mkdtemp prefix w :
  trace (tempfile_mkdtemp E prefix w) =
  [Sys (Mkdtemp (tmp_root E ++ [prefix +:+ entropy w]))
       (is_ok (res (tempfile_mkdtemp E prefix w)))].
Proof. unfold tempfile_mkdtemp. revert w. one_call_tac. Qed.

Lemma trace_rmtree_ignore p w :
  trace (shutil_rmtree_ignore E p w) = [Sys (Rmtree p) (is_ok (res (shutil_rmtree E p w)))].
Proof. unfold shutil_rmtree_ignore. simpl. apply one_call_rmtree. Qed.

Lemma res_rmtree_ignore p w : res (shutil_rmtree_ignore E p w) = Ok tt.
Proof. done. Qed.

End Calls.

Section Mute.

Context (f : event → bool).

Lemma mute_ret {A} (a : A) : mute f (ret a).
Proof. done. Qed.
Lemma mute_raise {A} e : mute f (@raise A e).
Proof. done. Qed.
Lemma mute_peek {A} (g : node → result A) : mute f (peek g).
Proof. done. Qed.
Lemma mute_now : mute f now_stamp.
Proof. done. Qed.
Lemma mute_emit ev : f ev = false → mute f (emit ev).
Proof. intros H w. simpl. by rewrite H. Qed.
Lemma mute_input s : f (Say s) = false → mute f (input s).
Proof. intros H w. unfold input. destruct (stdin w); simpl; by rewrite H. Qed.

Lemma mute_bind {A B} (m : M A) (k : A → M B) :
  mute f m → (∀ a, mute f (k a)) → mute f (bind m k).
Proof.
  intros Hm Hk w. rewrite trace_bind, existsb_app, Hm. simpl.
  destruct (res (m w)); [apply Hk|done].
Qed.

Lemma mute_try_except {A} (m : M A) h :
  mute f m → (∀ e, mute f (h e)) → mute f (try_except m h).
Proof.
  intros Hm Hh w. rewrite trace_try_except, existsb_app, Hm. simpl.
  destruct (res (m w)) as [|e]; [done|]. destruct (is_Exception e); [apply Hh|done].
Qed.

Lemma mute_try_finally {A} (m : M A) fin :
  mute f m → mute f fin → mute f (try_finally m fin).
Proof.
  intros Hm Hf w. unfold try_finally. simpl. by rewrite existsb_app, Hm, Hf.
Qed.

Lemma mute_for_fold {A S} (l : list A) (s : S) body :
  (∀ s x, mute f (body s x)) → mute f (for_fold l s body).
Proof.
  intros Hb. revert s. induction l as [|x l IH]; intros s; simpl.
  - apply mute_ret.
  - apply mute_bind; auto.
Qed.

Lemma mute_for_each {A} (l : list A) body :
  (∀ x, mute f (body x)) → mute f (for_each l body).
Proof. intros Hb. apply mute_for_fold. intros _. apply Hb. Qed.

Lemma mute_one_call {A} c (m : M A) :
  one_call c m → (∀ ok, f (Sys c ok) = false) → mute f m.
Proof. intros Hc Hf w. rewrite Hc. simpl. by rewrite Hf. Qed.

Lemma mute_mkdtemp E prefix :
  (∀ p ok, f (Sys (Mkdtemp p) ok) = false) → mute f (tempfile_mkdtemp E prefix).
Proof. intros Hf w. rewrite trace_mkdtemp. simpl. by rewrite Hf. Qed.

Lemma mute_rmtree_ignore E p :
  (∀ ok, f (Sys (Rmtree p) ok) = false) → mute f (shutil_rmtree_ignore E p).
Proof. intros Hf w. rewrite trace_rmtree_ignore. simpl. by rewrite Hf. Qed.

End Mute.

(** Takes a goal [mute f m] apart along the structure of [m]. *)
Ltac mute_step :=
  lazymatch goal with
  | |- mute _ (bind _ _) => apply mute_bind; [|intros ?]
  | |- mute _ (ret _) => apply mute_ret
  | |- mute _ (raise _) => apply mute_raise
  | |- mute _ (peek _) => apply mute_peek
  | |- mute _ now_stamp => apply mute_now
  | |- mute _ (os_path_exists _) => apply mute_peek
  | |- mute _ (os_path_isdir _) => apply mute_peek
  | |- mute _ (os_listdir _ _) => apply mute_peek
  | |- mute _ (zipfile_open _ _) => apply mute_peek
  | |- mute _ (emit _) => apply mute_emit; reflexivity
  | |- mute _ (say _) => apply mute_emit; reflexivity
  | |- mute _ (input _) => apply mute_input; reflexivity
  | |- mute _ (report_backup _ _) => unfold report_backup
  | |- mute _ (patch_steps _ _ _ _ _) => unfold patch_steps
  | |- mute _ (patch_failed _ _) => unfold patch_failed
  | |- mute _ (download_zip _ _ _) => unfold download_zip
  | |- mute _ (download_chunk _ _ _ _ _) => unfold download_chunk
  | |- mute _ (extract_zip _ _ _) => unfold extract_zip
  | |- mute _ (zip_extractall _ _ _) => unfold zip_extractall
  | |- mute _ (zip_extract_member _ _ _) => unfold zip_extract_member
  | |- mute _ (copy_top_level_folders _ _ _) => unfold copy_top_level_folders
  | |- mute _ (copy_entry _ _ _ _ _) => unfold copy_entry
  | |- mute _ (clear_folder_contents _ _) => unfold clear_folder_contents
  | |- mute _ (clear_entry _ _ _) => unfold clear_entry
  | |- mute _ (make_backup _ _) => unfold make_backup
  | |- mute _ (ensure_target _ _) => unfold ensure_target
  | |- mute _ (raise_for_status _) => unfold raise_for_status
  | |- mute _ (try_except _ _) => apply mute_try_except; [|intros ?]
  | |- mute _ (try_finally _ _) => apply mute_try_finally
  | |- mute _ (for_fold _ _ _) => apply mute_for_fold; intros ? ?
  | |- mute _ (for_each _ _) => apply mute_for_each; intros ?
  | |- mute _ (os_makedirs _ _ _) =>
      eapply mute_one_call; [apply one_call_makedirs|intros ?; reflexivity]
  | |- mute _ (os_mkdir _ _) =>
      eapply mute_one_call; [apply one_call_mkdir|intros ?; reflexivity]
  | |- mute _ (shutil_rmtree _ _) =>
      eapply mute_one_call; [apply one_call_rmtree|intros ?; reflexivity]
  | |- mute _ (os_remove _ _) =>
      eapply mute_one_call; [apply one_call_remove|intros ?; reflexivity]
  | |- mute _ (shutil_copytree _ _ _) =>
      eapply mute_one_call; [apply one_call_copytree|intros ?; reflexivity]
  | |- mute _ (shutil_copy2 _ _ _) =>
      eapply mute_one_call; [apply one_call_copy2|intros ?; reflexivity]
  | |- mute _ (open_wb _ _) =>
      eapply mute_one_call; [apply one_call_open|intros ?; reflexivity]
  | |- mute _ (f_write _ _ _) =>
      eapply mute_one_call; [apply one_call_write|intros ?; reflexivity]
  | |- mute _ (requests_get _ _) =>
      eapply mute_one_call; [apply one_call_get|intros ?; reflexivity]
  | |- mute _ (tempfile_mkdtemp _ _) => apply mute_mkdtemp; intros ? ?; reflexivity
  | |- mute _ (shutil_rmtree_ignore _ _) => apply mute_rmtree_ignore; intros ?; reflexivity
  | |- mute _ (if ?b then _ else _) => destruct b
  | |- mute _ (match ?x with _ => _ end) => destruct x
  | |- mute _ (let _ := _ in _) => cbv zeta
  end.

Ltac mute_tac := repeat mute_step.

(** * What a run leaves alone *)

Lemma upd_stable_get p q v :
  diverge p q → upd_stable (λ t, get q t = v) p.
Proof. intros Hd t o t' H <-. by eapply get_upd_diverge. Qed.

Lemma mk_stable_get p q v :
  ¬ q `prefix_of` p → mk_stable (λ t, get q t = v) p.
Proof. intros Hd t t' H <-. by eapply get_mkdirs_other. Qed.

Lemma upd_stable_isdir p d :
  ¬ p `prefix_of` d → upd_stable (λ t, isdir d t = true) p.
Proof.
  intros Hp t o t' H Hd. destruct (decide (d `prefix_of` p)) as [Hdp|Hdp].
  - eapply isdir_upd_above; [done..|]. intros ->. by apply Hp.
  - unfold isdir in *. by rewrite (get_upd_diverge _ _ _ _ d H).
Qed.

Lemma mk_stable_isdir p d : mk_stable (λ t, isdir d t = true) p.
Proof. intros t t' H Hd. by eapply mkdirs_keeps_dirs. Qed.

Section Preserves.

Context (E : env) (I : node → Prop).

Lemma preserves_ret {A} (a : A) : preserves I (ret a).
Proof. by intros w. Qed.
Lemma preserves_raise {A} e : preserves I (@raise A e).
Proof. by intros w. Qed.
Lemma preserves_peek {A} (g : node → result A) : preserves I (peek g).
Proof. by intros w. Qed.
Lemma preserves_emit ev : preserves I (emit ev).
Proof. by intros w. Qed.
Lemma preserves_now : preserves I now_stamp.
Proof. by intros w. Qed.
Lemma preserves_input s : preserves I (input s).
Proof. intros w. unfold input. by destruct (stdin w). Qed.

Lemma preserves_bind {A B} (m : M A) (k : A → M B) :
  preserves I m → (∀ a, preserves I (k a)) → preserves I (bind m k).
Proof.
  intros Hm Hk w Hw. rewrite post_bind. specialize (Hm w Hw).
  destruct (res (m w)); [by apply Hk|done].
Qed.

Lemma preserves_try_except {A} (m : M A) h :
  preserves I m → (∀ e, preserves I (h e)) → preserves I (try_except m h).
Proof.
  intros Hm Hh w Hw. rewrite post_try_except. specialize (Hm w Hw).
  destruct (res (m w)) as [|e]; [done|]. destruct (is_Exception e); [by apply Hh|done].
Qed.

Lemma preserves_try_finally {A} (m : M A) fin :
  preserves I m → preserves I fin → preserves I (try_finally m fin).
Proof. intros Hm Hf w Hw. unfold try_finally. cbn. by apply Hf, Hm. Qed.

Lemma preserves_for_fold {A S} (l : list A) (s : S) body :
  (∀ s x, preserves I (body s x)) → preserves I (for_fold l s body).
Proof.
  intros Hb. revert s. induction l as [|x l IH]; intros s; cbn [for_fold].
  - apply preserves_ret.
  - apply preserves_bind; auto.
Qed.

Lemma preserves_for_each {A} (l : list A) body :
  (∀ x, preserves I (body x)) → preserves I (for_each l body).
Proof. intros Hb. apply preserves_for_fold. intros _. apply Hb. Qed.

Lemma leftover_stable f p t : upd_stable I p → I t → I (leftover f p t).
Proof.
  intros Hs Ht. destruct f as [| |rest]; cbn; [done..|].
  destruct (put p rest t) as [t'|] eqn:Hput; cbn; [|done]. by eapply Hs.
Qed.

Ltac prim_tac :=
  cbv beta delta [commit abort] zeta;
  repeat case_match; cbn [post fs set_fs]; try done.

Lemma preserves_makedirs b p : mk_stable I p → preserves I (os_makedirs E b p).
Proof. intros Hs w Hw. unfold os_makedirs. prim_tac. by eapply Hs. Qed.

Lemma preserves_mkdir p : upd_stable I p → preserves I (os_mkdir E p).
Proof. intros Hs w Hw. unfold os_mkdir. prim_tac. by eapply Hs. Qed.

Lemma preserves_mkdtemp prefix :
  (∀ s, upd_stable I (tmp_root E ++ [prefix +:+ s])) →
  preserves I (tempfile_mkdtemp E prefix).
Proof. intros Hs w Hw. unfold tempfile_mkdtemp. prim_tac. by eapply Hs. Qed.

Lemma preserves_rmtree p : upd_stable I p → preserves I (shutil_rmtree E p).
Proof.
  intros Hs w Hw. unfold shutil_rmtree. prim_tac;
    try (by eapply Hs); by apply leftover_stable.
Qed.

Lemma preserves_rmtree_ignore p :
  upd_stable I p → preserves I (shutil_rmtree_ignore E p).
Proof. intros Hs w Hw. unfold shutil_rmtree_ignore. cbn. by apply preserves_rmtree. Qed.

Lemma preserves_remove p : upd_stable I p → preserves I (os_remove E p).
Proof.
  intros Hs w Hw. unfold os_remove. prim_tac;
    try (by eapply Hs); by apply leftover_stable.
Qed.

Lemma preserves_copytree src dst :
  upd_stable I dst → mk_stable I dst → preserves I (shutil_copytree E src dst).
Proof.
  intros Hu Hm w Hw. unfold shutil_copytree. prim_tac.
  all: match goal with H : mkdirs _ _ = Some ?t |- _ =>
         assert (I t) by by eapply Hm end.
  all: try by apply leftover_stable.
  all: match goal with |- I (default _ ?o) =>
         destruct o eqn:Hput; cbn; [by eapply Hu|done] end.
Qed.

Lemma preserves_copy2 src dst :
  upd_stable I dst → upd_stable I (dst ++ [basename src]) →
  preserves I (shutil_copy2 E src dst).
Proof.
  intros Hu Hu' w Hw. unfold shutil_copy2. prim_tac.
  all: try (by eapply Hu); try (by eapply Hu'); by apply leftover_stable.
Qed.

Lemma preserves_open p : upd_stable I p → preserves I (open_wb E p).
Proof. intros Hs w Hw. unfold open_wb. prim_tac. by eapply Hs. Qed.

Lemma preserves_write p s : upd_stable I p → preserves I (f_write E p s).
Proof.
  intros Hs w Hw. unfold f_write. prim_tac.
  destruct (put p _ _) eqn:Hput; cbn; [by eapply Hs|done].
Qed.

Lemma preserves_get u : preserves I (requests_get E u).
Proof. intros w Hw. unfold requests_get. prim_tac. Qed.

End Preserves.

(** Takes a goal [preserves I m] apart along the structure of [m]; what is
    left are the [upd_stable] and [mk_stable] conditions on the paths
    written. *)
Ltac preserves_step :=
  lazymatch goal with
  | |- preserves _ (bind _ _) => apply preserves_bind; [|intros ?]
  | |- preserves _ (ret _) => apply preserves_ret
  | |- preserves _ (raise _) => apply preserves_raise
  | |- preserves _ (peek _) => apply preserves_peek
  | |- preserves _ now_stamp => apply preserves_now
  | |- preserves _ (os_path_exists _) => apply preserves_peek
  | |- preserves _ (os_path_isdir _) => apply preserves_peek
  | |- preserves _ (os_listdir _ _) => apply preserves_peek
  | |- preserves _ (zipfile_open _ _) => apply preserves_peek
  | |- preserves _ (emit _) => apply preserves_emit
  | |- preserves _ (say _) => apply preserves_emit
  | |- preserves _ (input _) => apply preserves_input
  | |- preserves _ (requests_get _ _) => apply preserves_get
  | |- preserves _ (report_backup _ _) => unfold report_backup
  | |- preserves _ (raise_for_status _) => unfold raise_for_status
  | |- preserves _ (try_except _ _) => apply preserves_try_except; [|intros ?]
  | |- preserves _ (try_finally _ _) => apply preserves_try_finally
  | |- preserves _ (for_fold _ _ _) => apply preserves_for_fold; intros ? ?
  | |- preserves _ (for_each _ _) => apply preserves_for_each; intros ?
  | |- preserves _ (os_makedirs _ _ _) => apply preserves_makedirs
  | |- preserves _ (os_mkdir _ _) => apply preserves_mkdir
  | |- preserves _ (shutil_rmtree _ _) => apply preserves_rmtree
  | |- preserves _ (shutil_rmtree_ignore _ _) => apply preserves_rmtree_ignore
  | |- preserves _ (os_remove _ _) => apply preserves_remove
  | |- preserves _ (shutil_copytree _ _ _) => apply preserves_copytree
  | |- preserves _ (shutil_copy2 _ _ _) => apply preserves_copy2
  | |- preserves _ (open_wb _ _) => apply preserves_open
  | |- preserves _ (f_write _ _ _) => apply preserves_write
  | |- preserves _ (if ?b then _ else _) => destruct b
  | |- preserves _ (match ?x with _ => _ end) => destruct x
  end.

Ltac preserves_tac := repeat preserves_step.

(** ** The paths each step writes to *)

Section Footprints.

Context (E : env) (I : node → Prop).

(** [download_zip] writes to its destination file only. *)
Lemma preserves_download url dest :
  upd_stable I dest → preserves I (download_zip E url dest).
Proof.
  intros Hs. unfold download_zip. preserves_tac; try done.
  unfold download_chunk. preserves_tac; done.
Qed.

(** [extract_zip] writes below the destination, after it has created the
    directories above each member. *)
Lemma preserves_extract_member m dest :
  (∀ r, upd_stable I (dest ++ r)) →
  (∀ r, mk_stable I (dirname (dest ++ r))) →
  preserves I (zip_extract_member E m dest).
Proof. intros Hu Hm. unfold zip_extract_member. preserves_tac; auto. Qed.

Lemma preserves_extract zip dest :
  (∀ r, upd_stable I (dest ++ r)) →
  (∀ r, mk_stable I (dirname (dest ++ r))) →
  preserves I (extract_zip E zip dest).
Proof.
  intros Hu Hm. unfold extract_zip, zip_extractall. preserves_tac.
  by apply preserves_extract_member.
Qed.

(** The merge writes below the children of the target. *)
Lemma preserves_copy_entry src_root dst_root applied name :
  (∀ r, upd_stable I (dst_root ++ name :: r)) →
  mk_stable I (dst_root ++ [name]) →
  preserves I (copy_entry E src_root dst_root applied name).
Proof.
  intros Hu Hm. unfold copy_entry. preserves_tac; try done;
    rewrite <-?app_assoc; cbn [app]; auto.
Qed.

Lemma preserves_merge src_root dst_root :
  (∀ n r, upd_stable I (dst_root ++ n :: r)) →
  (∀ n, mk_stable I (dst_root ++ [n])) →
  preserves I (copy_top_level_folders E src_root dst_root).
Proof.
  intros Hu Hm. unfold copy_top_level_folders. preserves_tac.
  by apply preserves_copy_entry.
Qed.

(** Clearing removes children of the folder. *)
Lemma preserves_clear folder :
  (∀ n, upd_stable I (folder ++ [n])) → mk_stable I folder →
  preserves I (clear_folder_contents E folder).
Proof.
  intros Hu Hm. unfold clear_folder_contents, clear_entry.
  preserves_tac; auto.
Qed.

End Footprints.

(** * The backup comes first *)

Section BackupFirst.

Context (E : env).

Lemma backup_first_app target l1 l2 :
  existsb is_removal l1 = false →
  backup_first target (l1 ++ l2) =
  existsb (is_backup_of target) l1 || backup_first target l2.
Proof.
  induction l1 as [|ev l1 IH]; simpl; [done|].
  intros [Hev Hl1]%orb_false_elim. rewrite Hev. simpl.
  destruct (is_backup_of target ev); [done|]. auto.
Qed.

Lemma mute_removal_ensure target : mute is_removal (ensure_target E target).
Proof. unfold ensure_target. mute_tac. Qed.

Lemma mute_removal_backup target : mute is_removal (make_backup E target).
Proof. unfold make_backup. mute_tac. Qed.

Lemma ensure_target_exists target w :
  res (ensure_target E target w) = Ok tt →
  path_exists target (fs (post (ensure_target E target w))) = true.
Proof.
  unfold ensure_target. run.
  destruct (path_exists target (fs w)) eqn:Hex; run; [done|].
  unfold os_makedirs. simpl. destruct (mk_denied E target); [done|].
  destruct (mkdirs target (fs w)) as [t|] eqn:Hmk; [|done]. simpl. intros _.
  apply mkdirs_isdir in Hmk. unfold isdir in Hmk. unfold path_exists.
  by destruct (get target t).
Qed.

(** On an existing folder [make_backup] returns the path of a backup it has
    completed, or raises. *)
Lemma make_backup_existing folder w :
  path_exists folder (fs w) = true →
  let o := make_backup E folder w in
  let bp := backup_path_of folder w in
  trace o = [SayPath "Creating backup:" bp;
             Sys (Copytree folder bp) (is_ok (res o))]
            ++ (if is_ok (res o) then [Say "Backup complete."] else [])
  ∧ (is_ok (res o) = true → res o = Ok (Some bp))
  ∧ res o = match res (shutil_copytree E folder bp w) with
            | Ok _ => Ok (Some bp)
            | Raise e => Raise e
            end
  ∧ post o = post (shutil_copytree E folder bp w).
Proof.
  intros Hex. unfold make_backup, backup_path_of.
  run. rewrite Hex. run. rewrite one_call_copytree.
  destruct (res (shutil_copytree E folder _ w)) as [d|e]; simpl; repeat split; auto; done.
Qed.

Lemma backup_first_make_backup {B} target (k : option path → M B) w :
  path_exists target (fs w) = true →
  backup_first target (trace (bind (make_backup E target) k w)) = true.
Proof.
  intros Hex. rewrite trace_bind, backup_first_app by apply mute_removal_backup.
  destruct (make_backup_existing target w Hex) as (Htr & _ & _ & _).
  destruct (res (make_backup E target w)) as [b|e] eqn:Hres.
  - rewrite Htr. simpl. by rewrite bool_decide_eq_true_2.
  - simpl. by rewrite orb_true_r.
Qed.

End BackupFirst.

(** C1. In every session, whatever the action and whether or not the target
    existed before, no entry is removed ([shutil.rmtree], [os.remove]; by
    [clear_folder_contents], by the merge or by the final cleanup) before
    [make_backup]'s copy of the target has completed. *)
Theorem backup_precedes_every_removal E target action w :
  backup_first target (trace (run_session E target action w)) = true.
Proof.
  unfold run_session.
  rewrite trace_bind, backup_first_app by apply mute_removal_ensure.
  apply orb_true_intro. right.
  destruct (res (ensure_target E target w)) as [[]|e] eqn:Hens; [|done].
  apply ensure_target_exists in Hens.
  set (w1 := post (ensure_target E target w)) in *.
  destruct (decide (action = "4")) as [->|Hact].
  - rewrite trace_bind. simpl. by apply backup_first_make_backup.
  - destruct (PATCHES_get action) as [p|]; [|done].
    rewrite trace_bind. simpl. by apply backup_first_make_backup.
Qed.

(** * A failed backup stops the session *)

Lemma string_length_app (s t : string) :
  String.length (s +:+ t) = String.length s + String.length t.
Proof. induction s as [|a s IH]; simpl; [done|]. by rewrite IH. Qed.

(** The backup goes next to the folder, never into it. *)
Lemma backup_path_diverges folder w :
  folder ≠ [] → diverge (backup_path_of folder w) folder.
Proof.
  intros Hne. unfold backup_path_of, dirname, basename.
  rewrite (app_removelast_last "" Hne) at 3.
  apply diverge_siblings. intros Heq.
  apply (f_equal String.length) in Heq.
  rewrite !string_length_app in Heq. simpl in Heq. lia.
Qed.

Section BackupFailure.

Context (E : env).

(** [shutil.copytree] changes nothing outside its destination, whether it
    succeeds or fails half-way. *)
Lemma copytree_frame src dst q w :
  diverge dst q →
  get q (fs (post (shutil_copytree E src dst w))) = get q (fs w).
Proof.
  intros Hdiv. unfold shutil_copytree, commit, abort, leftover.
  repeat case_match; simpl; try done;
    repeat match goal with
    | H : mkdirs dst _ = Some _ |- _ => apply (get_mkdirs_diverge _ _ _ q) in H; [|done]
    end;
    try congruence.
  - destruct (put dst _ _) as [t'|] eqn:Hput; simpl; [|congruence].
    apply (get_upd_diverge _ _ _ _ q) in Hput; [|done]. congruence.
  - destruct (put dst _ _) as [t'|] eqn:Hput; simpl; [|congruence].
    apply (get_upd_diverge _ _ _ _ q) in Hput; [|done]. congruence.
Qed.

Lemma make_backup_frame folder w :
  folder ≠ [] →
  get folder (fs (post (make_backup E folder w))) = get folder (fs w).
Proof.
  intros Hne. destruct (path_exists folder (fs w)) eqn:Hex.
  - destruct (make_backup_existing E folder w Hex) as (_ & _ & _ & ->).
    by apply copytree_frame, backup_path_diverges.
  - unfold make_backup. run. by rewrite Hex.
Qed.

End BackupFailure.

(** C5. If [make_backup] raises, the session ends there with that exception:
    the world is the one [make_backup] left (nothing ran after it), the last
    event is the failed copy, and the target's tree is what it was when
    [make_backup] was called. *)
Theorem backup_failure_stops_session E target action w e :
  target ≠ [] →
  action = "4" ∨ is_Some (PATCHES_get action) →
  res (ensure_target E target w) = Ok tt →
  res (make_backup E target (post (ensure_target E target w))) = Raise e →
  let w1 := post (ensure_target E target w) in
  let o := run_session E target action w in
  res o = Raise e
  ∧ post o = post (make_backup E target w1)
  ∧ get target (fs (post o)) = get target (fs w1)
  ∧ last (trace o) = Some (Sys (Copytree target (backup_path_of target w1)) false).
Proof.
  intros Hne Hact Hens Hbk w1 o.
  assert (Hex : path_exists target (fs w1) = true) by by apply ensure_target_exists.
  destruct (make_backup_existing E target w1 Hex) as (Htr & _ & _ & _).
  fold w1 in Hbk. rewrite Hbk in Htr. cbn in Htr.
  assert (res o = Raise e ∧ post o = post (make_backup E target w1)
          ∧ ∃ l, trace o = l ++ trace (make_backup E target w1)) as (Hres & Hpost & l & Hl).
  { subst o. unfold run_session. run. rewrite Hens. fold w1.
    destruct (decide (action = "4")) as [->|Hn4].
    - run. rewrite Hbk. split_and!; [done..|].
      eexists (_ ++ [_]). by rewrite app_nil_r, <-app_assoc.
    - destruct Hact as [?|[p Hp]]; [done|]. rewrite Hp. run. rewrite Hbk.
      split_and!; [done..|].
      eexists (_ ++ [_]). by rewrite app_nil_r, <-app_assoc. }
  split_and!; [done..| |].
  - rewrite Hpost. by apply make_backup_frame.
  - rewrite Hl, Htr.
    change [?a; ?b] with ([a] ++ [b]). by rewrite !app_assoc, last_snoc.
Qed.

(** * Clearing is best effort *)

Lemma get_child folder n t cur :
  get folder t = Some (Dir cur) → get (folder ++ [n]) t = cur !! n.
Proof.
  intros H. rewrite get_app, H. cbn. rewrite get_cons.
  by destruct (cur !! n).
Qed.

Lemma isdir_child folder n t cur :
  get folder t = Some (Dir cur) →
  isdir (folder ++ [n]) t = match cur !! n with Some (Dir _) => true | _ => false end.
Proof. intros H. unfold isdir. by rewrite (get_child _ _ _ _ H). Qed.

Lemma exists_child folder n t cur :
  get folder t = Some (Dir cur) →
  path_exists (folder ++ [n]) t = match cur !! n with Some _ => true | None => false end.
Proof. intros H. unfold path_exists. by rewrite (get_child _ _ _ _ H). Qed.

Section Clear.

Context (E : env) (folder : path).

Lemma clear_entry_spec n w cur :
  get folder (fs w) = Some (Dir cur) →
  let o := clear_entry E folder n w in
  res o = Ok tt
  ∧ get folder (fs (post o)) = Some (Dir (clear_step E folder cur n))
  ∧ (∀ c, cur !! n = Some c → rm_fault E (folder ++ [n]) ≠ NoFault →
     ∃ e, Warn "failed to remove" (folder ++ [n]) e ∈ trace o).
Proof.
  intros Hf. unfold clear_entry, clear_step. run.
  rewrite (isdir_child _ n _ _ Hf).
  pose proof (get_child _ n _ _ Hf) as Hn.
  destruct (upd_child folder n None (fs w) cur Hf) as (t1 & Hdel & Ht1).
  destruct (cur !! n) as [[d|sub]|] eqn:Hc.
  - unfold os_remove, del. rewrite Hn, Hdel.
    destruct (rm_fault E (folder ++ [n])) as [| |rest] eqn:Hrm; cbn.
    + split_and!; [done..|]. by intros ? _ [].
    + split_and!; [done..|]. intros ? _ _. eexists. apply list_elem_of_further, list_elem_of_here.
    + destruct (upd_child folder n (Some rest) (fs w) cur Hf) as (t2 & Hput & Ht2).
      unfold put. rewrite Hput. cbn. split_and!; [done..|].
      intros ? _ _. eexists. apply list_elem_of_further, list_elem_of_here.
  - unfold shutil_rmtree, del. rewrite Hn, Hdel.
    destruct (rm_fault E (folder ++ [n])) as [| |rest] eqn:Hrm; cbn.
    + split_and!; [done..|]. by intros ? _ [].
    + split_and!; [done..|]. intros ? _ _. eexists. apply list_elem_of_further, list_elem_of_here.
    + destruct (upd_child folder n (Some rest) (fs w) cur Hf) as (t2 & Hput & Ht2).
      unfold put. rewrite Hput. cbn. split_and!; [done..|].
      intros ? _ _. eexists. apply list_elem_of_further, list_elem_of_here.
  - unfold os_remove. rewrite Hn. cbn. split_and!; done.
Qed.

Lemma clear_step_other cur x n :
  n ≠ x → clear_step E folder cur x !! n = cur !! n.
Proof.
  intros Hne. unfold clear_step. destruct (cur !! x); [|done].
  destruct (rm_fault E (folder ++ [x])); [|done|].
  - by rewrite lookup_delete_ne.
  - by rewrite lookup_insert_ne.
Qed.

Lemma clear_loop_spec l : ∀ w cur,
  get folder (fs w) = Some (Dir cur) →
  let o := for_each l (clear_entry E folder) w in
  res o = Ok tt
  ∧ get folder (fs (post o)) = Some (Dir (foldl (clear_step E folder) cur l))
  ∧ (∀ n c, n ∈ l → cur !! n = Some c → rm_fault E (folder ++ [n]) ≠ NoFault →
     ∃ e, Warn "failed to remove" (folder ++ [n]) e ∈ trace o).
Proof.
  induction l as [|x l IH]; intros w cur Hf.
  - cbn. split_and!; [done..|]. intros ? ? []%elem_of_nil.
  - destruct (clear_entry_spec x w cur Hf) as (Hr & Hp & Hw).
    destruct (IH _ _ Hp) as (Hr' & Hp' & Hw').
    unfold for_each in *. cbn [for_fold foldl]. run. rewrite Hr.
    split_and!; [done..|].
    intros n c Hin Hc Hrm. destruct (decide (n = x)) as [->|Hne].
    + destruct (Hw c Hc Hrm) as [e He]. exists e. apply elem_of_app. by left.
    + apply elem_of_cons in Hin as [?|Hin]; [done|].
      destruct (Hw' n c Hin) as [e He]; [by rewrite clear_step_other|done|].
      exists e. apply elem_of_app. by right.
Qed.

Lemma foldl_clear_step_lookup l : ∀ cur n,
  foldl (clear_step E folder) cur l !! n =
  if decide (n ∈ l) then
    cur !! n ≫= λ c, match rm_fault E (folder ++ [n]) with
                     | NoFault => None
                     | Denied => Some c
                     | Partial rest => Some rest
                     end
  else cur !! n.
Proof.
  induction l as [|x l IH]; intros cur n; cbn [foldl].
  - by rewrite decide_False by apply not_elem_of_nil.
  - rewrite IH. destruct (decide (n = x)) as [->|Hne].
    + rewrite (decide_True (P := x ∈ x :: l)) by apply list_elem_of_here.
      unfold clear_step.
      destruct (cur !! x) as [c|] eqn:Hc; cbn.
      2:{ rewrite Hc. by destruct (decide _). }
      destruct (rm_fault E (folder ++ [x])) as [| |rest] eqn:Hrm.
      * rewrite lookup_delete_eq. by destruct (decide _).
      * rewrite Hc. cbn. by destruct (decide _).
      * rewrite lookup_insert_eq. cbn. by destruct (decide _).
    + rewrite clear_step_other by done.
      destruct (decide (n ∈ l)) as [Hin|Hnin].
      * by rewrite decide_True by by apply list_elem_of_further.
      * rewrite decide_False; [done|].
        intros [?|?]%elem_of_cons; done.
Qed.

Lemma foldl_clear_step_names es :
  foldl (clear_step E folder) es (names es) = survivors E folder es.
Proof.
  apply map_eq. intros n. unfold survivors.
  rewrite foldl_clear_step_lookup, map_lookup_imap.
  destruct (decide (n ∈ names es)) as [Hin|Hnin]; [done|].
  destruct (es !! n) as [c|] eqn:Hc; [|done].
  destruct Hnin. unfold names. apply list_elem_of_fmap.
  exists (n, c). split; [done|]. by apply elem_of_map_to_list.
Qed.

(** What [clear_folder_contents] does on an existing directory. *)
Lemma clear_spec w es :
  get folder (fs w) = Some (Dir es) →
  let o := clear_folder_contents E folder w in
  is_ok (res o) = negb (ls_denied E folder)
  ∧ (ls_denied E folder = false →
     get folder (fs (post o)) = Some (Dir (survivors E folder es))
     ∧ ∀ n,
       (rm_fault E (folder ++ [n]) = NoFault → survivors E folder es !! n = None)
       ∧ (rm_fault E (folder ++ [n]) ≠ NoFault → is_Some (es !! n) →
          is_Some (survivors E folder es !! n)
          ∧ ∃ e, Warn "failed to remove" (folder ++ [n]) e ∈ trace o)).
Proof.
  intros Hf o. subst o. unfold clear_folder_contents. run.
  unfold path_exists, os_listdir. rewrite Hf. run. rewrite Hf.
  destruct (ls_denied E folder) eqn:Hls; cbn; [done|].
  destruct (clear_loop_spec (names es) w es Hf) as (Hr & Hp & Hw).
  run. rewrite Hr. run. rewrite Hp, foldl_clear_step_names.
  split_and!; [done|]. intros _. split; [done|].
  intros n. unfold survivors at 1 2. rewrite !map_lookup_imap. split.
  - intros ->. by destruct (es !! n).
  - intros Hrm [c Hc]. rewrite Hc. cbn. split.
    + by destruct (rm_fault E (folder ++ [n])).
    + destruct (Hw n c) as [e He]; [|done..|].
      { unfold names. apply list_elem_of_fmap. exists (n, c).
        split; [done|]. by apply elem_of_map_to_list. }
      exists e. apply list_elem_of_further, elem_of_app. by left.
Qed.

End Clear.

(** C6. On an existing directory [clear_folder_contents] fails only when the
    directory cannot be listed.  Otherwise it returns normally, every child
    whose removal does not fail is gone, and every child whose removal fails
    is still there and has been reported in a warning. *)
Theorem clear_is_best_effort E folder w es :
  get folder (fs w) = Some (Dir es) →
  let o := clear_folder_contents E folder w in
  is_ok (res o) = negb (ls_denied E folder)
  ∧ (ls_denied E folder = false →
     get folder (fs (post o)) = Some (Dir (survivors E folder es))
     ∧ ∀ n,
       (rm_fault E (folder ++ [n]) = NoFault → survivors E folder es !! n = None)
       ∧ (rm_fault E (folder ++ [n]) ≠ NoFault → is_Some (es !! n) →
          is_Some (survivors E folder es !! n)
          ∧ ∃ e, Warn "failed to remove" (folder ++ [n]) e ∈ trace o)).
Proof. apply clear_spec. Qed.

(** * Progress reports while downloading *)

Section Download.

Context (E : env) (dest : path).

Lemma requests_get_inr url w r :
  http E url = inr r →
  requests_get E url w = Outcome (Ok r) (set_fs (fs w) w) [Sys (HttpGet url) true].
Proof. intros H. unfold requests_get. by rewrite H. Qed.

Lemma requests_get_inl url w e :
  http E url = inl e →
  requests_get E url w = Outcome (Raise e) (set_fs (fs w) w) [Sys (HttpGet url) false].
Proof. intros H. unfold requests_get. by rewrite H. Qed.

Lemma mute_progress_chunk total s chunk :
  truthy total = false → mute is_progress (download_chunk E dest total s chunk).
Proof. intros Ht. unfold download_chunk. rewrite Ht. mute_tac. Qed.

Lemma mute_progress_loop total l s :
  truthy total = false →
  mute is_progress (for_fold l s (download_chunk E dest total)).
Proof. intros Ht. apply mute_for_fold. intros. by apply mute_progress_chunk. Qed.

Lemma download_chunk_positive t s chunk w :
  t ≠ 0%N →
  let o := download_chunk E dest (Some t) s chunk w in
  let d := (s + str_len chunk)%N in
  (res o = Ok s ∧ trace o = [] ∧ post o = w)
  ∨ (res o = Ok d ∧
     trace o = [Sys (WriteChunk dest (str_len chunk)) true;
                Progress d t (d * 100 `div` t)])
  ∨ (∃ e, res o = Raise e ∧ trace o = [Sys (WriteChunk dest (str_len chunk)) false]).
Proof.
  intros Ht. unfold download_chunk.
  destruct (decide (chunk = "")) as [->|Hne]; [by left|]. right.
  assert (truthy (Some t) = true) as ->.
  { cbn. by destruct (N.eqb_spec t 0). }
  run. pose proof (one_call_write E dest chunk w) as Htr.
  destruct (res (f_write E dest chunk w)) as [[]|e]; rewrite Htr; cbn; eauto.
Qed.

(** With a positive total, every chunk the loop writes is followed by its
    progress report; [rest] is what the program prints after the loop. *)
Lemma progress_loop t l : ∀ s w rest,
  t ≠ 0%N →
  (∀ s', res (for_fold l s (download_chunk E dest (Some t)) w) = Ok s' →
         progress_after_writes t s' rest = true) →
  (is_ok (res (for_fold l s (download_chunk E dest (Some t)) w)) = false →
   rest = []) →
  progress_after_writes t s
    (trace (for_fold l s (download_chunk E dest (Some t)) w) ++ rest) = true.
Proof.
  induction l as [|chunk l IH]; intros s w rest Ht; cbn [for_fold].
  - cbn. intros Hok _. by apply Hok.
  - run.
    destruct (download_chunk_positive t s chunk w Ht)
      as [(Hr & Htr & Hp)|[(Hr & Htr)|(e & Hr & Htr)]]; rewrite Hr, Htr; cbn.
    + rewrite Hp. intros. by apply IH.
    + intros Hok Hraise. rewrite !N.eqb_refl. cbn. by apply IH.
    + intros _ ->; done.
Qed.

End Download.

(** C8, as the code has it.  When the response carries a content length
    that parses to a positive number, every chunk written is followed at
    once by a report of the bytes so far, the total and the percentage.
    In every other case (no header, a header that is no number, a length of
    zero, a failed request) no progress is reported at all. *)
Theorem progress_only_with_positive_total E url dest w :
  let o := download_zip E url dest w in
  match http E url with
  | inr r =>
      match parse_total (content_length r) with
      | Ok (Some t) =>
          if (t =? 0)%N then existsb is_progress (trace o) = false
          else progress_after_writes t 0 (trace o) = true
      | _ => existsb is_progress (trace o) = false
      end
  | inl _ => existsb is_progress (trace o) = false
  end.
Proof.
  cbn zeta. unfold download_zip. run.
  destruct (http E url) as [e|r] eqn:Hhttp.
  { rewrite (requests_get_inl E url w e Hhttp). done. }
  rewrite (requests_get_inr E url w r Hhttp). run.
  unfold raise_for_status.
  destruct ((400 <=? status r)%N && (status r <? 600)%N); run.
  { by repeat case_match. }
  destruct (parse_total (content_length r)) as [total|e]; run; [|done].
  pose proof (one_call_open E dest (set_fs (fs w) w)) as Hopen.
  destruct (res (open_wb E dest (set_fs (fs w) w))) as [[]|e];
    rewrite Hopen; run.
  2:{ by repeat case_match. }
  set (w1 := post (open_wb E dest (set_fs (fs w) w))).
  destruct (truthy total) eqn:Htruthy.
  - destruct total as [t|]; [|done]. cbn in Htruthy.
    destruct (N.eqb_spec t 0) as [->|Ht]; [done|]. cbn.
    apply (progress_loop E dest t (chunks r) 0%N w1 _ Ht).
    + intros s' ->. run. by repeat case_match.
    + intros Hr. by destruct (res (for_fold _ _ _ _)).
  - run.
    destruct total as [t|]; [destruct (N.eqb_spec t 0) as [->|Ht]|];
      cbn in Htruthy; try (by destruct (N.eqb_spec t 0));
      (rewrite existsb_app, mute_progress_loop by done; cbn;
       by repeat case_match).
Qed.

(** * The scratch directory is released *)

Lemma not_prefix_app_cons (p r : path) x : ¬ (p ++ x :: r) `prefix_of` p.
Proof.
  intros H%prefix_length. rewrite length_app in H. cbn in H. lia.
Qed.

Lemma not_prefix_below (p q r : path) : ¬ p `prefix_of` q → ¬ (p ++ r) `prefix_of` q.
Proof. intros Hp H. apply Hp. etrans; [|done]. by apply prefix_app_r. Qed.

Section Cleanup.

Context (E : env).

Lemma mkdtemp_ok prefix w d :
  res (tempfile_mkdtemp E prefix w) = Ok d →
  d = tmp_root E ++ [prefix +:+ entropy w]
  ∧ get d (fs (post (tempfile_mkdtemp E prefix w))) = Some (Dir ∅).
Proof.
  unfold tempfile_mkdtemp, commit, abort. repeat case_match; cbn; try done.
  intros [= <-]. split; [done|].
  match goal with H : put _ _ _ = Some _ |- _ =>
    pose proof (get_upd_same _ _ _ _ [] H) as Hg end.
  by rewrite app_nil_r in Hg.
Qed.

(** Removing an existing directory that the environment lets go. *)
Lemma rmtree_ok p x w sub :
  get (p ++ [x]) (fs w) = Some (Dir sub) →
  rm_fault E (p ++ [x]) = NoFault →
  res (shutil_rmtree E (p ++ [x]) w) = Ok tt
  ∧ get (p ++ [x]) (fs (post (shutil_rmtree E (p ++ [x]) w))) = None.
Proof.
  intros Hg Hrm. unfold shutil_rmtree. rewrite Hg, Hrm.
  rewrite get_app in Hg. apply bind_Some_inv in Hg as (c & Hp & Hx).
  destruct c as [|es]; [done|].
  destruct (upd_child p x None (fs w) es Hp) as (t' & Hdel & Ht').
  unfold del. rewrite Hdel. cbn. split; [done|].
  rewrite <-(app_nil_r (p ++ [x])). by rewrite (get_upd_same _ _ _ _ _ Hdel).
Qed.

(** Download, extraction and merge keep the scratch directory a directory,
    as long as it does not lie inside the target. *)
Lemma pipeline_keeps_tmpdir (p : patch) target backup tmpdir :
  ¬ target `prefix_of` tmpdir →
  preserves (λ t, isdir tmpdir t = true)
    (try_except (patch_steps E p target backup tmpdir) (patch_failed backup)).
Proof.
  intros Ht. unfold patch_steps, patch_failed. preserves_tac.
  - apply preserves_download, upd_stable_isdir, not_prefix_app_cons.
  - apply preserves_extract; intros r.
    + rewrite <-app_assoc. apply upd_stable_isdir, not_prefix_app_cons.
    + apply mk_stable_isdir.
  - apply preserves_merge.
    + intros n r. by apply upd_stable_isdir, not_prefix_below.
    + intros n. apply mk_stable_isdir.
Qed.

End Cleanup.

(** C3. Once the scratch directory has been created, every run of the apply
    pipeline ends with the call that removes it, whether download,
    extraction or merge succeeded, raised an [Exception] or was interrupted.
    Unless the environment denies the removal, the call succeeds and the
    scratch directory is gone. *)
Theorem staging_always_released E (p : patch) target backup w :
  is_ok (res (tempfile_mkdtemp E "patcher_" w)) = true →
  let o := apply_patch E p target backup w in
  let tmpdir := tmpdir_of E w in
  (∃ ok, last (trace o) = Some (Sys (Rmtree tmpdir) ok))
  ∧ (¬ target `prefix_of` tmpdir → rm_fault E tmpdir = NoFault →
     last (trace o) = Some (Sys (Rmtree tmpdir) true)
     ∧ path_exists tmpdir (fs (post o)) = false).
Proof.
  intros Hmk o tmpdir.
  destruct (res (tempfile_mkdtemp E "patcher_" w)) as [d|] eqn:Hd; [|done].
  destruct (mkdtemp_ok E _ _ _ Hd) as (-> & Hdir). fold (tmpdir_of E w) in *.
  fold tmpdir in Hdir, Hd.
  subst o. unfold apply_patch. run. rewrite Hd. fold tmpdir.
  unfold try_finally. cbn [trace post].
  set (body := try_except _ _).
  set (w1 := post (tempfile_mkdtemp E "patcher_" w)) in *.
  rewrite trace_rmtree_ignore, !app_assoc, last_snoc.
  split; [by eexists|]. intros Ht Hrm.
  assert (isdir tmpdir (fs (post (body w1))) = true) as Hkeep.
  { apply (pipeline_keeps_tmpdir E p target backup tmpdir Ht).
    unfold isdir. by rewrite Hdir. }
  unfold isdir in Hkeep.
  destruct (get tmpdir (fs (post (body w1)))) as [[|sub]|] eqn:Hg; try done.
  unfold tmpdir, tmpdir_of in Hg, Hrm |- *.
  destruct (rmtree_ok E _ _ _ _ Hg Hrm) as (Hok & Hgone).
  unfold shutil_rmtree_ignore. cbn [post]. rewrite Hok. split; [done|].
  unfold path_exists. by rewrite Hgone.
Qed.

(** * Extraction stays below its destination *)

Lemma removelast_prefix (l : path) : removelast l `prefix_of` l.
Proof.
  destruct (decide (l = [])) as [->|Hne]; [done|].
  rewrite (app_removelast_last "" Hne) at 2. by apply prefix_app_r.
Qed.


(** * The names extraction writes under *)

Section Names.

Implicit Types (cs cur : list ascii) (P : ascii → Prop).





Lemma filter_holds {A} (f : A → bool) (l : list A) :
  Forall (λ x, f x = true) (List.filter f l).
Proof.
  induction l as [|x l IH]; cbn; [done|]. destruct (f x) eqn:Hx; [by constructor|done].
Qed.










End Names.

(** * The merge *)

Section Merge.

Context (E : env).

(** The library calls the program guards with [except Exception] raise
    nothing else. *)
Lemma rmtree_raises p w e :
  res (shutil_rmtree E p w) = Raise e → is_Exception e = true.
Proof. unfold shutil_rmtree, commit, abort. repeat case_match; cbn; by intros [= <-]. Qed.

Lemma remove_raises p w e :
  res (os_remove E p w) = Raise e → is_Exception e = true.
Proof. unfold os_remove, commit, abort. repeat case_match; cbn; by intros [= <-]. Qed.

Lemma copy2_raises s d w e :
  res (shutil_copy2 E s d w) = Raise e → is_Exception e = true.
Proof. unfold shutil_copy2, commit, abort. repeat case_match; cbn; by intros [= <-]. Qed.

(** Trying to remove the child [n] of [folder] and reporting a failure:
    the block both [clear_folder_contents] and the merge use. *)
Lemma try_remove_spec text folder n w cur :
  get folder (fs w) = Some (Dir cur) →
  let p := folder ++ [n] in
  let o := try_except
             (bind (os_path_isdir p)
                   (λ d, if d then shutil_rmtree E p else os_remove E p))
             (λ e, emit (Warn text p e)) w in
  res o = Ok tt
  ∧ get folder (fs (post o)) = Some (Dir (clear_step E folder cur n)).
Proof.
  intros Hf. pose proof (clear_entry_spec E folder n w cur Hf) as (Hr & Hp & _).
  unfold clear_entry in Hr, Hp. revert Hr Hp. cbn zeta. run.
  destruct (isdir (folder ++ [n]) (fs w));
    [destruct (res (shutil_rmtree E _ w)) as [|e]
    |destruct (res (os_remove E _ w)) as [|e]]; try done;
    by destruct (is_Exception e).
Qed.

(** [shutil.copytree] into the child [n] of [folder]. *)
Lemma copytree_child_spec src folder n w sub cur :
  get src (fs w) = Some (Dir sub) →
  get folder (fs w) = Some (Dir cur) →
  let o := shutil_copytree E src (folder ++ [n]) w in
  (is_ok (res o) = true →
   res o = Ok (folder ++ [n])
   ∧ get (folder ++ [n]) (fs (post o)) = Some (Dir sub))
  ∧ (cp_fault E src = NoFault → mk_denied E (folder ++ [n]) = false →
     cur !! n = None → is_ok (res o) = true).
Proof.
  intros Hs Hf. cbn zeta. unfold shutil_copytree. rewrite Hs.
  rewrite (exists_child _ n _ _ Hf).
  rewrite (mkdirs_app _ [n] _ _ Hf), mkdirs_cons.
  destruct (cur !! n) as [c|] eqn:Hn; cbn.
  { split; [|done]. repeat case_match; cbn; done. }
  rewrite mkdirs_nil. cbn.
  destruct (upd_Some_is_Some folder (Dir (<[n:=Dir ∅]> cur)) (fs w)) as [t1 Ht1].
  { by rewrite Hf. }
  rewrite Ht1.
  assert (Hf1 : get folder t1 = Some (Dir (<[n:=Dir ∅]> cur))).
  { rewrite <-(app_nil_r folder). by rewrite (get_upd_same _ _ _ _ _ Ht1). }
  destruct (upd_child folder n (Some (Dir sub)) t1 _ Hf1) as (t2 & Ht2 & Hf2).
  unfold put. rewrite Ht2. cbn.
  assert (get (folder ++ [n]) t2 = Some (Dir sub)) as Hg.
  { rewrite (get_child _ _ _ _ Hf2). apply lookup_partial_alter_eq. }
  destruct (cp_fault E src), (mk_denied E (folder ++ [n])); cbn; done.
Qed.

(** [shutil.copy2] of a file onto the child [n] of [folder]. *)
Lemma copy2_child_spec src folder n w d cur :
  get src (fs w) = Some (File d) →
  get folder (fs w) = Some (Dir cur) →
  let o := shutil_copy2 E src (folder ++ [n]) w in
  (cp_fault E src = NoFault →
   match cur !! n with Some (Dir _) => False | _ => True end →
   is_ok (res o) = true
   ∧ get (folder ++ [n]) (fs (post o)) = Some (File d))
  ∧ (cp_fault E src ≠ NoFault → is_ok (res o) = false).
Proof.
  intros Hs Hf. cbn zeta. unfold shutil_copy2. rewrite Hs.
  rewrite (isdir_child _ n _ _ Hf). split.
  - intros -> Hn.
    assert (match cur !! n with Some (Dir _) => true | _ => false end = false) as ->.
    { by destruct (cur !! n) as [[]|]. }
    rewrite (isdir_child _ n _ _ Hf).
    assert (match cur !! n with Some (Dir _) => true | _ => false end = false) as ->.
    { by destruct (cur !! n) as [[]|]. }
    destruct (upd_child folder n (Some (File d)) (fs w) _ Hf) as (t2 & Ht2 & Hf2).
    unfold put. rewrite Ht2. cbn. split; [done|].
    rewrite (get_child _ _ _ _ Hf2). apply lookup_partial_alter_eq.
  - intros Hcp. destruct (cp_fault E src); [done| |]; cbn; [done|].
    repeat case_match; cbn; done.
Qed.

(** One round of the merge loop. *)
Lemma copy_entry_spec src_root dst_root applied name w es cur :
  diverge src_root dst_root →
  get src_root (fs w) = Some (Dir es) →
  get dst_root (fs w) = Some (Dir cur) →
  let o := copy_entry E src_root dst_root applied name w in
  get src_root (fs (post o)) = Some (Dir es)
  ∧ ∃ cur', get dst_root (fs (post o)) = Some (Dir cur')
    ∧ (∀ m, m ≠ name → cur' !! m = cur !! m)
    ∧ match es !! name with
      | Some (Dir sub) =>
          (∀ a, res o = Ok a →
                a = applied ++ [name] ∧ cur' !! name = Some (Dir sub))
          ∧ (cp_fault E (src_root ++ [name]) = NoFault →
             mk_denied E (dst_root ++ [name]) = false →
             cur !! name = None ∨ rm_fault E (dst_root ++ [name]) = NoFault →
             is_ok (res o) = true)
      | Some (File d) =>
          res o = Ok applied
          ∧ (cp_fault E (src_root ++ [name]) = NoFault →
             match cur !! name with Some (Dir _) => False | _ => True end →
             cur' !! name = Some (File d))
          ∧ (cp_fault E (src_root ++ [name]) ≠ NoFault →
             SayStr "  Skipped non-dir item:" name ∈ trace o)
      | None => res o = Ok applied
      end.
Proof.
  intros Hdiv Hsrc Hdst o.
  assert (Hdiv' : diverge dst_root src_root) by by apply diverge_sym.
  (* what the round leaves alone *)
  assert (Hsrc' : get src_root (fs (post o)) = Some (Dir es)).
  { apply (preserves_copy_entry E (λ t, get src_root t = Some (Dir es))); [| |done].
    - intros r. by apply upd_stable_get, diverge_app_l.
    - apply mk_stable_get. by apply (diverge_app_l _ _ [name]) in Hdiv' as [_ ?]. }
  assert (Hdir : isdir dst_root (fs (post o)) = true).
  { apply (preserves_copy_entry E (λ t, isdir dst_root t = true)).
    - intros r. apply upd_stable_isdir, not_prefix_app_cons.
    - apply mk_stable_isdir.
    - unfold isdir. by rewrite Hdst. }
  unfold isdir in Hdir.
  destruct (get dst_root (fs (post o))) as [[|cur']|] eqn:Hdst'; try done.
  assert (Hsib : ∀ m, m ≠ name → cur' !! m = cur !! m).
  { intros m Hm. rewrite <-(get_child _ m _ _ Hdst'), <-(get_child _ m _ _ Hdst).
    apply (preserves_copy_entry E (λ t, get (dst_root ++ [m]) t = get (dst_root ++ [m]) (fs w)));
      [| |done].
    - intros r. apply upd_stable_get. by apply diverge_siblings.
    - apply mk_stable_get. intros H%prefix_length_eq; [|by rewrite !length_app].
      apply app_inv_head in H. congruence. }
  split; [done|]. exists cur'. split_and!; [done..|].
  pose proof (get_child _ name _ _ Hsrc) as Hsn.
  pose proof (get_child _ name _ _ Hdst') as Hdn. rewrite <-Hdn.
  subst o. clear Hsrc' Hdst' Hsib Hdn cur'.
  destruct (try_remove_spec "failed to remove existing" dst_root name w cur Hdst)
    as (Hr & Hp). cbn zeta in Hr, Hp.
  unfold copy_entry.
  set (blk := try_except (bind (os_path_isdir _) _) _) in *. run.
  rewrite (isdir_child _ name _ _ Hsrc).
  destruct (es !! name) as [[d|sub]|] eqn:Hes.
  - (* a file *)
    destruct (copy2_child_spec _ dst_root name w d cur Hsn Hdst) as (Hgood & Hbad).
    run. destruct (res (shutil_copy2 E _ _ w)) as [a|e] eqn:Hcp; run.
    + split_and!; [done| |].
      * intros Hnf Hcur. by destruct (Hgood Hnf Hcur).
      * intros Hf. by specialize (Hbad Hf).
    + rewrite (copy2_raises _ _ _ _ Hcp). run. split_and!; [done| |].
      * intros Hnf Hcur. by destruct (Hgood Hnf Hcur).
      * intros _. rewrite one_call_copy2. apply list_elem_of_further, list_elem_of_here.
  - (* a directory *)
    run. rewrite (exists_child _ name _ _ Hdst).
    destruct (cur !! name) as [c|] eqn:Hcur.
    + run. rewrite Hr. set (w1 := post (blk w)) in *.
      assert (Hsn1 : get (src_root ++ [name]) (fs w1) = Some (Dir sub)).
      { apply (preserves_try_except (λ t, get (src_root ++ [name]) t = Some (Dir sub)));
          [| |done].
        - assert (upd_stable (λ t, get (src_root ++ [name]) t = Some (Dir sub))
                             (dst_root ++ [name])).
          { by apply upd_stable_get, diverge_app_l, diverge_app_r. }
          preserves_tac; done.
        - intros e. apply preserves_emit. }
      destruct (copytree_child_spec _ dst_root name w1 sub _ Hsn1 Hp) as (Hgood & Hsucc).
      run. destruct (res (shutil_copytree E _ _ w1)) as [a|e] eqn:Hct; run.
      * destruct (Hgood eq_refl) as (_ & Hg). split; [by intros ? [= <-]|done].
      * split; [done|]. intros Hnf Hmk [?|Hrm]; [done|].
        apply Hsucc; [done..|]. unfold clear_step. rewrite Hcur, Hrm.
        apply lookup_delete_eq.
    + run.
      destruct (copytree_child_spec _ dst_root name w sub _ Hsn Hdst) as (Hgood & Hsucc).
      destruct (res (shutil_copytree E _ _ w)) as [a|e] eqn:Hct; run.
      * destruct (Hgood eq_refl) as (_ & Hg). split; [by intros ? [= <-]|done].
      * split; [done|]. intros Hnf Hmk _. by apply Hsucc.
  - (* gone in the meantime *)
    run. unfold shutil_copy2 at 1. rewrite Hsn. by cbn.
Qed.

(** The merge loop over distinct names. *)
Lemma merge_loop_spec src_root dst_root es l :
  NoDup l → diverge src_root dst_root →
  ∀ applied w cur,
  get src_root (fs w) = Some (Dir es) →
  get dst_root (fs w) = Some (Dir cur) →
  let o := for_fold l applied (copy_entry E src_root dst_root) w in
  ∃ cur', get dst_root (fs (post o)) = Some (Dir cur')
    ∧ (∀ m, m ∉ l → cur' !! m = cur !! m)
    ∧ ((∀ n, n ∈ l → is_dir_child es n = true →
             can_replace E src_root dst_root cur n) →
       is_ok (res o) = true)
    ∧ (∀ a, res o = Ok a →
         a = applied ++ List.filter (is_dir_child es) l
         ∧ (∀ n sub, n ∈ l → es !! n = Some (Dir sub) →
                     cur' !! n = Some (Dir sub))
         ∧ (∀ n d, n ∈ l → es !! n = Some (File d) →
                   cp_fault E (src_root ++ [n]) = NoFault →
                   match cur !! n with Some (Dir _) => False | _ => True end →
                   cur' !! n = Some (File d))
         ∧ (∀ n d, n ∈ l → es !! n = Some (File d) →
                   cp_fault E (src_root ++ [n]) ≠ NoFault →
                   skipped n ∈ trace o)).
Proof.
  intros Hnd Hdiv. induction Hnd as [|x l Hx Hnd IH]; intros applied w cur Hsrc Hdst.
  { cbn. exists cur. split_and!; [done..|].
    intros a [= <-]. rewrite app_nil_r.
    split_and!; [done|..]; by intros ? ? ?%elem_of_nil. }
  cbn [for_fold]. cbn zeta.
  destruct (copy_entry_spec src_root dst_root applied x w es cur Hdiv Hsrc Hdst)
    as (Hsrc1 & cur1 & Hdst1 & Hsib1 & Hx1).
  set (o1 := copy_entry E src_root dst_root applied x w) in *.
  destruct (res o1) as [a1|e1] eqn:Hr1.
  2:{ run. fold o1. rewrite Hr1. exists cur1. split_and!; [done| |..|done].
      - intros m Hm. apply Hsib1. intros ->. apply Hm, list_elem_of_here.
      - intros Hcan. specialize (Hcan x (list_elem_of_here _ _)).
        unfold is_dir_child in Hcan.
        destruct (es !! x) as [[d|sub]|] eqn:Hes; [by destruct Hx1| |done].
        destruct Hx1 as (_ & Hok). destruct (Hcan eq_refl) as (? & ? & ?).
        by apply Hok. }
  destruct (IH a1 (post o1) cur1 Hsrc1 Hdst1) as (cur' & Hdst' & Hsib' & Hok' & Hres').
  run. fold o1. rewrite Hr1. exists cur'. split_and!; [done|..].
  - intros m Hm. rewrite Hsib'.
    + apply Hsib1. intros ->. apply Hm, list_elem_of_here.
    + intros ?. by apply Hm, list_elem_of_further.
  - intros Hcan. apply Hok'. intros n Hn Hd.
    destruct (Hcan n (list_elem_of_further _ _ _ Hn) Hd) as (? & ? & ?).
    split_and!; [done..|]. rewrite Hsib1; [done|]. by intros ->.
  - intros a Ha. destruct (Hres' a Ha) as (-> & Hdirs & Hfiles & Hskip).
    assert (Hkeep : cur' !! x = cur1 !! x) by by apply Hsib'.
    split_and!.
    + cbn [List.filter]. unfold is_dir_child at 2.
      destruct (es !! x) as [[d|sub]|] eqn:Hes.
      * destruct Hx1 as (Heq & _). by simplify_eq.
      * destruct Hx1 as (Heq & _). destruct (Heq a1 eq_refl) as (-> & _).
        by rewrite <-app_assoc.
      * by simplify_eq.
    + intros n sub [->|Hn]%elem_of_cons Hes; [|by eapply Hdirs].
      rewrite Hes in Hx1. destruct Hx1 as (Heq & _).
      destruct (Heq a1 eq_refl) as (_ & ?). congruence.
    + intros n d [->|Hn]%elem_of_cons Hes Hcp Hcur.
      * rewrite Hes in Hx1. destruct Hx1 as (_ & Hgood & _).
        rewrite Hkeep. by apply Hgood.
      * eapply Hfiles; [done..|]. rewrite Hsib1; [done|]. by intros ->.
    + intros n d [->|Hn]%elem_of_cons Hes Hcp; apply elem_of_app.
      * left. rewrite Hes in Hx1. destruct Hx1 as (_ & _ & Hbad). by apply Hbad.
      * right. by eapply Hskip.
Qed.

Lemma elem_of_names (es : gmap string node) n : n ∈ names es ↔ is_Some (es !! n).
Proof.
  unfold names. rewrite list_elem_of_fmap. split.
  - intros [[k v] [-> H%elem_of_map_to_list]]. by eexists.
  - intros [v Hv]. exists (n, v). split; [done|]. by apply elem_of_map_to_list.
Qed.

Lemma NoDup_names (es : gmap string node) : NoDup (names es).
Proof. apply NoDup_fst_map_to_list. Qed.

End Merge.

Lemma elem_of_filter_bool {A} (f : A → bool) (l : list A) x :
  x ∈ List.filter f l ↔ x ∈ l ∧ f x = true.
Proof. rewrite !list_elem_of_In. apply filter_In. Qed.

(** What [copy_top_level_folders] does between two directories. *)
Lemma merge_spec E src_root dst_root w es cur :
  diverge src_root dst_root →
  get src_root (fs w) = Some (Dir es) →
  get dst_root (fs w) = Some (Dir cur) →
  let o := copy_top_level_folders E src_root dst_root w in
  (ls_denied E src_root = false →
   (∀ n, is_dir_child es n = true → can_replace E src_root dst_root cur n) →
   is_ok (res o) = true)
  ∧ ∀ applied, res o = Ok applied →
      applied = List.filter (is_dir_child es) (names es)
      ∧ (∀ n, n ∈ applied ↔ is_dir_child es n = true)
      ∧ (∀ n sub, es !! n = Some (Dir sub) →
           get (dst_root ++ [n]) (fs (post o)) = Some (Dir sub))
      ∧ (∀ n d, es !! n = Some (File d) →
           (n ∉ applied)
           ∧ (cp_fault E (src_root ++ [n]) = NoFault →
              match cur !! n with Some (Dir _) => False | _ => True end →
              get (dst_root ++ [n]) (fs (post o)) = Some (File d))).
Proof.
  intros Hdiv Hsrc Hdst o. subst o. unfold copy_top_level_folders. run.
  unfold os_listdir. cbn. rewrite Hsrc.
  destruct (ls_denied E src_root); cbn; [done|].
  destruct (merge_loop_spec E src_root dst_root es (names es) (NoDup_names es)
              Hdiv [] w cur Hsrc Hdst) as (cur' & Hdst' & _ & Hok & Hres).
  cbn zeta in *. split.
  { intros _ Hcan. apply Hok. intros n _. apply Hcan. }
  intros applied Ha. destruct (Hres applied Ha) as (-> & Hdirs & Hfiles & _).
  cbn [app].
  assert (Hin : ∀ n, n ∈ List.filter (is_dir_child es) (names es)
                     ↔ is_dir_child es n = true).
  { intros n. rewrite elem_of_filter_bool, elem_of_names. unfold is_dir_child.
    split; [by intros [_ ?]|]. destruct (es !! n); [eauto|done]. }
  split_and!; [done|done|..].
  - intros n sub Hn. rewrite (get_child _ _ _ _ Hdst').
    apply Hdirs; [|done]. apply elem_of_names. by eexists.
  - intros n d Hn. split.
    + rewrite Hin. unfold is_dir_child. by rewrite Hn.
    + intros Hcp Hcur. rewrite (get_child _ _ _ _ Hdst').
      eapply Hfiles; [|done..]. apply elem_of_names. by eexists.
Qed.

(** C10. When [copy_top_level_folders] returns, the list it returns holds the
    names of the top-level directories of the extraction root, all of them
    and in the order listed, and each has been copied into the target.
    Files are copied too when nothing prevents it, but never listed.  It
    does return whenever the root can be listed and nothing stops a
    directory from being replaced. *)
Theorem applied_is_the_copied_directories E src_root dst_root w es cur :
  diverge src_root dst_root →
  get src_root (fs w) = Some (Dir es) →
  get dst_root (fs w) = Some (Dir cur) →
  let o := copy_top_level_folders E src_root dst_root w in
  (ls_denied E src_root = false →
   (∀ n, is_dir_child es n = true → can_replace E src_root dst_root cur n) →
   is_ok (res o) = true)
  ∧ ∀ applied, res o = Ok applied →
      applied = List.filter (is_dir_child es) (names es)
      ∧ (∀ n, n ∈ applied ↔ is_dir_child es n = true)
      ∧ (∀ n sub, es !! n = Some (Dir sub) →
           get (dst_root ++ [n]) (fs (post o)) = Some (Dir sub))
      ∧ (∀ n d, es !! n = Some (File d) →
           (n ∉ applied)
           ∧ (cp_fault E (src_root ++ [n]) = NoFault →
              match cur !! n with Some (Dir _) => False | _ => True end →
              get (dst_root ++ [n]) (fs (post o)) = Some (File d))).
Proof. apply merge_spec. Qed.

(** * A file that cannot be copied is skipped *)

Section FileFailures.

Context (E : env).

Lemma mute_failure_download url dest : mute is_failure (download_zip E url dest).
Proof. mute_tac. Qed.

Lemma mute_failure_extract zip dest : mute is_failure (extract_zip E zip dest).
Proof. mute_tac. Qed.

Lemma mute_failure_merge src dst : mute is_failure (copy_top_level_folders E src dst).
Proof. mute_tac. Qed.

End FileFailures.

(** C7, as the code has it.  Take a run of the apply pipeline in which the
    scratch directory was created, download and extraction succeeded and
    nothing stops the directories of the extraction from replacing their
    namesakes in the target.  Then, whichever of the top-level files cannot
    be copied, the run reports success and no error: each such file is
    reported as skipped, and the count printed is that of the directories. *)
Theorem file_copy_failures_are_skipped E (p : patch) target backup w es cur :
  let tmpdir := tmpdir_of E w in
  let zip_path := tmpdir ++ ["patch.zip"] in
  let extract_dir := tmpdir ++ ["extracted"] in
  let w1 := post (tempfile_mkdtemp E "patcher_" w) in
  let w2 := post (download_zip E (patch_url p) zip_path w1) in
  let w3 := post (extract_zip E zip_path extract_dir w2) in
  is_ok (res (tempfile_mkdtemp E "patcher_" w)) = true →
  is_ok (res (download_zip E (patch_url p) zip_path w1)) = true →
  is_ok (res (extract_zip E zip_path extract_dir w2)) = true →
  get extract_dir (fs w3) = Some (Dir es) →
  get target (fs w3) = Some (Dir cur) →
  diverge extract_dir target →
  ls_denied E extract_dir = false →
  (∀ n, is_dir_child es n = true → can_replace E extract_dir target cur n) →
  let o := apply_patch E p target backup w in
  res o = Ok tt
  ∧ existsb is_success (trace o) = true
  ∧ existsb is_failure (trace o) = false
  ∧ SayNum "Applied packs count:"
      (N.of_nat (length (List.filter (is_dir_child es) (names es)))) ∈ trace o
  ∧ ∀ n d, es !! n = Some (File d) → cp_fault E (extract_dir ++ [n]) ≠ NoFault →
           skipped n ∈ trace o.
Proof.
  intros tmpdir zip_path extract_dir w1 w2 w3 Hmk Hdl Hex Hes Hcur Hdiv Hls Hcan o.
  destruct (res (tempfile_mkdtemp E "patcher_" w)) as [d|] eqn:Hd; [|done].
  destruct (mkdtemp_ok E _ _ _ Hd) as (-> & _). fold (tmpdir_of E w) in Hd. fold tmpdir in Hd.
  destruct (res (download_zip E (patch_url p) zip_path w1)) as [z|] eqn:Hz; [|done].
  destruct (res (extract_zip E zip_path extract_dir w2)) as [x|] eqn:Hx; [|done].
  destruct (merge_spec E extract_dir target w3 es cur Hdiv Hes Hcur)
    as (Hok & Hres).
  specialize (Hok Hls Hcan).
  destruct (res (copy_top_level_folders E extract_dir target w3)) as [applied|] eqn:Ha;
    [|done].
  destruct (Hres applied eq_refl) as (Happ & _).
  destruct (merge_loop_spec E extract_dir target es (names es) (NoDup_names es)
              Hdiv [] w3 cur Hes Hcur) as (cur2 & _ & _ & _ & Hloop).
  assert (Hskip : ∀ n d, es !! n = Some (File d) →
            cp_fault E (extract_dir ++ [n]) ≠ NoFault →
            skipped n ∈ trace (copy_top_level_folders E extract_dir target w3)).
  { intros n d Hn Hcp. revert Ha. unfold copy_top_level_folders. run.
    unfold os_listdir. cbn. rewrite Hes, Hls. cbn. intros Ha.
    destruct (Hloop applied Ha) as (_ & _ & _ & Hsk).
    eapply Hsk; [|done..]. apply elem_of_names. by eexists. }
  subst o. unfold apply_patch. run. rewrite Hd.
  unfold try_finally, patch_steps, patch_failed, report_backup.
  cbn [res post trace]. run. fold tmpdir zip_path extract_dir w1.
  rewrite Hz. run. fold w2. rewrite Hx. run. fold w3. rewrite Ha. run.
  rewrite trace_mkdtemp, trace_rmtree_ignore, res_rmtree_ignore.
  pose proof (mute_failure_download E (patch_url p) zip_path w1) as M1.
  pose proof (mute_failure_extract E zip_path extract_dir w2) as M2.
  pose proof (mute_failure_merge E extract_dir target w3) as M3.
  rewrite <-Happ.
  destruct backup as [b|]; run; (split_and!; [done|..]).
  all: try (rewrite !existsb_app; cbn; by rewrite ?M1, ?M2, ?M3, ?orb_true_r).
  all: try (repeat (rewrite elem_of_app || rewrite elem_of_cons); by eauto 10).
  all: intros n d Hn Hcp; specialize (Hskip n d Hn Hcp);
    repeat (rewrite elem_of_app || rewrite elem_of_cons); by eauto 10.
Qed.

(** * Running below a directory *)

Lemma upd_reloc d r v t c :
  get d t = Some c →
  match upd r (Some v) c with
  | Some c' => ∃ t', upd (d ++ r) (Some v) t = Some t' ∧ get d t' = Some c'
  | None => upd (d ++ r) (Some v) t = None
  end.
Proof.
  intros Hd. destruct r as [|x r].
  - rewrite upd_nil, app_nil_r.
    destruct (upd_Some_is_Some d v t) as [t' Ht']; [by rewrite Hd|].
    exists t'. split; [done|].
    rewrite <-(app_nil_r d). by rewrite (get_upd_same _ _ _ _ _ Ht').
  - rewrite upd_app, Hd. cbn.
    destruct (upd (x :: r) (Some v) c) as [c'|]; cbn; [|done].
    destruct (upd_Some_is_Some d c' t) as [t' Ht']; [by rewrite Hd|].
    exists t'. split; [done|].
    rewrite <-(app_nil_r d). by rewrite (get_upd_same _ _ _ _ _ Ht').
Qed.

Lemma mkdirs_reloc d r t c :
  get d t = Some c →
  match mkdirs r c with
  | Some c' => ∃ t', mkdirs (d ++ r) t = Some t' ∧ get d t' = Some c'
  | None => mkdirs (d ++ r) t = None
  end.
Proof.
  intros Hd. rewrite (mkdirs_app _ _ _ _ Hd).
  destruct (mkdirs r c) as [c'|]; cbn; [|done].
  destruct (upd_Some_is_Some d c' t) as [t' Ht']; [by rewrite Hd|].
  exists t'. split; [done|].
  rewrite <-(app_nil_r d). by rewrite (get_upd_same _ _ _ _ _ Ht').
Qed.

Section Reloc.

Context (E : env) (HE : no_faults E) (d : path).

Lemma reloc_ret {A A'} (R : A → A' → Prop) a a' : R a a' → reloc R d (ret a) (ret a').
Proof. by intros HR w w' Hd. Qed.

Lemma reloc_raise {A A'} (R : A → A' → Prop) e e' : reloc R d (raise e) (raise e').
Proof. by intros w w' Hd. Qed.

Lemma reloc_emit ev ev' : reloc eq d (emit ev) (emit ev').
Proof. by intros w w' Hd. Qed.

Lemma reloc_const {A} (r : result A) : reloc eq d (peek (λ _, r)) (peek (λ _, r)).
Proof. intros w w' Hd. cbn. split; [|done]. by destruct r. Qed.

Lemma reloc_weaken {A A'} (R : A → A' → Prop) m m' :
  reloc R d m m' → reloc any d m m'.
Proof.
  intros H w w' Hd. destruct (H w w' Hd) as (Hr & Hp). split; [|done].
  destruct (res (m w)), (res (m' w')); done.
Qed.

Lemma reloc_bind {A A' B B'} (R : A → A' → Prop) (R2 : B → B' → Prop)
    (m : M A) (m' : M A') (k : A → M B) (k' : A' → M B') :
  reloc R d m m' → (∀ a a', R a a' → reloc R2 d (k a) (k' a')) →
  reloc R2 d (bind m k) (bind m' k').
Proof.
  intros Hm Hk w w' Hd. destruct (Hm w w' Hd) as (Hr & Hp).
  rewrite !res_bind, !post_bind.
  destruct (res (m w)) as [a|e], (res (m' w')) as [a'|e']; try done.
  by apply Hk.
Qed.

Lemma reloc_for_fold {A S} (l : list A) (s : S) (body body' : S → A → M S) :
  (∀ s x, reloc eq d (body s x) (body' s x)) →
  reloc eq d (for_fold l s body) (for_fold l s body').
Proof.
  intros Hb. revert s. induction l as [|x l IH]; intros s; cbn [for_fold].
  - by apply reloc_ret.
  - eapply reloc_bind; [apply Hb|]. intros a ? <-. apply IH.
Qed.

Lemma reloc_for_each {A} (l : list A) (body body' : A → M unit) :
  (∀ x, reloc eq d (body x) (body' x)) →
  reloc eq d (for_each l body) (for_each l body').
Proof. intros Hb. apply reloc_for_fold. intros _. apply Hb. Qed.

Lemma reloc_exists r : reloc eq d (os_path_exists (d ++ r)) (os_path_exists r).
Proof.
  intros w w' Hd. cbn. split; [|done].
  unfold path_exists. by rewrite get_app, Hd.
Qed.

Lemma reloc_isdir r : reloc eq d (os_path_isdir (d ++ r)) (os_path_isdir r).
Proof.
  intros w w' Hd. cbn. split; [|done].
  unfold isdir. by rewrite get_app, Hd.
Qed.

Lemma reloc_zipfile_open r : reloc eq d (zipfile_open E (d ++ r)) (zipfile_open E r).
Proof.
  intros w w' Hd. unfold zipfile_open. cbn. split; [|done].
  rewrite get_app, Hd. cbn.
  destruct (get r (fs w')) as [[d0|]|]; [destruct (zip_decode E d0)|..]; done.
Qed.

Lemma reloc_get url : reloc eq d (requests_get E url) (requests_get E url).
Proof.
  intros w w' Hd. unfold requests_get, commit, abort.
  destruct (http E url); cbn; done.
Qed.

Lemma reloc_makedirs b r : reloc eq d (os_makedirs E b (d ++ r)) (os_makedirs E b r).
Proof.
  intros w w' Hd. unfold os_makedirs, commit, abort.
  rewrite !(nf_mk E HE). unfold isdir. rewrite get_app, Hd. cbn.
  destruct (negb b && match get r (fs w') with Some (Dir _) => true | _ => false end);
    [done|].
  pose proof (mkdirs_reloc d r (fs w) (fs w') Hd) as H.
  destruct (mkdirs r (fs w')) as [c'|].
  - destruct H as (t' & -> & Ht'). done.
  - rewrite H. done.
Qed.

Lemma reloc_mkdir r : reloc eq d (os_mkdir E (d ++ r)) (os_mkdir E r).
Proof.
  intros w w' Hd. unfold os_mkdir, commit, abort, put.
  rewrite !(nf_mk E HE). unfold path_exists. rewrite get_app, Hd. cbn.
  destruct (get r (fs w')); [done|].
  pose proof (upd_reloc d r (Dir ∅) (fs w) (fs w') Hd) as H.
  destruct (upd r _ (fs w')) as [c'|].
  - destruct H as (t' & -> & Ht'). done.
  - rewrite H. done.
Qed.

Lemma reloc_open r : reloc eq d (open_wb E (d ++ r)) (open_wb E r).
Proof.
  intros w w' Hd. unfold open_wb, commit, abort, put.
  rewrite !(nf_open E HE). unfold isdir. rewrite get_app, Hd. cbn.
  destruct (get r (fs w')) as [[]|]; try done.
  all: pose proof (upd_reloc d r (File "") (fs w) (fs w') Hd) as H;
    destruct (upd r _ (fs w')) as [c'|];
    [destruct H as (t' & -> & Ht'); done|rewrite H; done].
Qed.

Lemma reloc_write r s : reloc eq d (f_write E (d ++ r) s) (f_write E r s).
Proof.
  intros w w' Hd. unfold f_write, commit, abort, put.
  rewrite get_app, Hd. cbn.
  destruct (get r (fs w')) as [[data|]|]; try done.
  rewrite !(nf_wr E HE).
  pose proof (upd_reloc d r (File (data +:+ s)) (fs w) (fs w') Hd) as H.
  destruct (upd r _ (fs w')) as [c'|].
  - destruct H as (t' & -> & Ht'). done.
  - rewrite H. done.
Qed.

Lemma reloc_download_chunk r total s chunk :
  reloc eq d (download_chunk E (d ++ r) total s chunk)
             (download_chunk E r total s chunk).
Proof.
  unfold download_chunk. destruct (decide (chunk = "")); [by apply reloc_ret|].
  eapply reloc_bind; [apply reloc_write|]. intros _ _ _.
  eapply reloc_bind.
  - destruct (truthy total); [apply reloc_emit|by apply reloc_ret].
  - intros _ _ _. by apply reloc_ret.
Qed.

Lemma reloc_download url r :
  reloc any d (download_zip E url (d ++ r)) (download_zip E url r).
Proof.
  unfold download_zip.
  eapply reloc_bind; [apply reloc_emit|]. intros _ _ _.
  eapply reloc_bind; [apply reloc_get|]. intros resp ? <-.
  eapply reloc_bind.
  { unfold raise_for_status. destruct (_ && _); [apply (reloc_raise eq)|by apply reloc_ret]. }
  intros _ _ _.
  eapply reloc_bind; [apply reloc_const|]. intros total ? <-.
  eapply reloc_bind; [apply reloc_open|]. intros _ _ _.
  eapply reloc_bind.
  { apply reloc_for_fold. intros. apply reloc_download_chunk. }
  intros n ? <-.
  eapply reloc_bind.
  { destruct (broken resp); [apply (reloc_raise eq)|by apply reloc_ret]. }
  intros _ _ _.
  eapply reloc_bind.
  { destruct (truthy total); apply reloc_emit. }
  intros _ _ _. by apply reloc_ret.
Qed.

Lemma dirname_app_cons (r : path) x : dirname (d ++ x :: r) = d ++ dirname (x :: r).
Proof. unfold dirname. by rewrite removelast_app. Qed.

Lemma reloc_extract_member m x r :
  reloc any d (zip_extract_member E m (d ++ x :: r)) (zip_extract_member E m (x :: r)).
Proof.
  unfold zip_extract_member.
  rewrite <-app_assoc. cbn [app]. rewrite dirname_app_cons.
  eapply reloc_bind; [apply reloc_exists|]. intros ex ? <-.
  eapply reloc_bind.
  { destruct (negb ex); [apply reloc_makedirs|by apply reloc_ret]. }
  intros _ _ _. destruct (member_is_dir m).
  - eapply reloc_bind; [apply reloc_isdir|]. intros dd ? <-.
    eapply reloc_bind.
    { destruct (negb dd); [apply reloc_mkdir|by apply reloc_ret]. }
    intros _ _ _. by apply reloc_ret.
  - eapply reloc_bind; [apply reloc_open|]. intros _ _ _.
    eapply reloc_bind; [apply reloc_write|]. intros _ _ _.
    by apply reloc_ret.
Qed.

Lemma reloc_extract z x r :
  reloc any d (extract_zip E (d ++ z) (d ++ x :: r)) (extract_zip E z (x :: r)).
Proof.
  unfold extract_zip, zip_extractall.
  eapply reloc_bind; [apply reloc_emit|]. intros _ _ _.
  eapply reloc_bind; [apply reloc_zipfile_open|]. intros ms ? <-.
  eapply reloc_bind.
  { apply reloc_for_each. intros m.
    eapply reloc_bind; [apply reloc_extract_member|]. intros _ _ _.
    by apply reloc_ret. }
  intros _ _ _.
  eapply reloc_bind; [apply reloc_emit|]. intros _ _ _.
  by apply reloc_ret.
Qed.

End Reloc.

(** * Applying a patch twice *)

Section Payload.

Context (E : env) (HE : no_faults E).

Lemma survivors_no_faults folder es : survivors E folder es = ∅.
Proof.
  apply map_eq. intros n. unfold survivors.
  rewrite map_lookup_imap, lookup_empty, (nf_rm E HE). by destruct (es !! n).
Qed.

Lemma merge_needs_listing src dst w a :
  res (copy_top_level_folders E src dst w) = Ok a →
  ∃ es, get src (fs w) = Some (Dir es).
Proof.
  unfold copy_top_level_folders. run. unfold os_listdir. cbn.
  destruct (get src (fs w)) as [[|es]|]; cbn; try done. eauto.
Qed.

(** Without faults the merge fills an empty target with exactly the
    children of the extraction root. *)
Lemma merge_into_empty src dst w es :
  diverge src dst →
  get src (fs w) = Some (Dir es) →
  get dst (fs w) = Some (Dir ∅) →
  let o := copy_top_level_folders E src dst w in
  is_ok (res o) = true ∧ get dst (fs (post o)) = Some (Dir es).
Proof.
  intros Hdiv Hsrc Hdst o. subst o.
  destruct (merge_loop_spec E src dst es (names es) (NoDup_names es)
              Hdiv [] w ∅ Hsrc Hdst) as (cur' & Hdst' & Hout & Hok & Hres).
  cbn zeta in *.
  unfold copy_top_level_folders. run. unfold os_listdir. cbn.
  rewrite Hsrc, (nf_ls E HE). cbn.
  assert (is_ok (res (for_fold (names es) [] (copy_entry E src dst) w)) = true) as Hr.
  { apply Hok. intros n _ _. split_and!; [apply (nf_cp E HE)|apply (nf_mk E HE)|].
    left. apply lookup_empty. }
  split; [done|]. rewrite Hdst'. do 2 f_equal.
  destruct (res (for_fold _ _ _ w)) as [a|] eqn:Ha; [|done].
  destruct (Hres a eq_refl) as (_ & Hdirs & Hfiles & _).
  apply map_eq. intros n. destruct (es !! n) as [[d|sub]|] eqn:Hn.
  - eapply Hfiles; [by apply elem_of_names|done|apply (nf_cp E HE)|].
    by rewrite lookup_empty.
  - eapply Hdirs; [by apply elem_of_names|done].
  - rewrite Hout, lookup_empty; [done|]. rewrite elem_of_names, Hn.
    by intros [].
Qed.

Lemma mute_success_download url dest : mute is_success (download_zip E url dest).
Proof. mute_tac. Qed.
Lemma mute_success_extract zip dest : mute is_success (extract_zip E zip dest).
Proof. mute_tac. Qed.
Lemma mute_success_merge src dst : mute is_success (copy_top_level_folders E src dst).
Proof. mute_tac. Qed.
Lemma mute_success_failed backup e : mute is_success (patch_failed backup e).
Proof. mute_tac. Qed.
Lemma mute_success_ensure target : mute is_success (ensure_target E target).
Proof. mute_tac. Qed.
Lemma mute_success_backup target : mute is_success (make_backup E target).
Proof. mute_tac. Qed.
Lemma mute_success_clear target : mute is_success (clear_folder_contents E target).
Proof. mute_tac. Qed.

(** The steps of the [try] block, started with an empty scratch directory
    and an empty target: they report success exactly when all of them
    return, and then the target holds the payload of the patch. *)
Lemma steps_payload (p : patch) target backup tmpdir w :
  diverge tmpdir target →
  get tmpdir (fs w) = Some (Dir ∅) →
  get target (fs w) = Some (Dir ∅) →
  let o := patch_steps E p target backup tmpdir w in
  existsb is_success (trace o) = is_ok (res o)
  ∧ (is_ok (res o) = true → get target (fs (post o)) = payload E p).
Proof.
  intros Hdiv Htmp Htgt o. subst o. unfold patch_steps, payload, staged.
  set (w0 := World (Dir ∅) [] "" "").
  assert (Hup : ∀ r, upd_stable (λ t, get target t = Some (Dir ∅)) (tmpdir ++ r)).
  { intros r. by apply upd_stable_get, diverge_app_l. }
  (* the download *)
  destruct (reloc_download E HE tmpdir (patch_url p) ["patch.zip"] w w0 Htmp)
    as (Hr1 & Hp1).
  pose proof (preserves_download E _ (patch_url p) _ (Hup ["patch.zip"]) w Htgt) as Ht1.
  pose proof (mute_success_download (patch_url p) (tmpdir ++ ["patch.zip"]) w) as M1.
  run. rewrite existsb_app, M1. cbn.
  set (w1 := post (download_zip E _ (tmpdir ++ _) w)) in *.
  set (v1 := post (download_zip E _ ["patch.zip"] w0)) in *.
  destruct (res (download_zip E _ (tmpdir ++ _) w)) as [z|];
    destruct (res (download_zip E _ ["patch.zip"] w0)) as [z'|]; try done.
  (* the extraction *)
  destruct (reloc_extract E HE tmpdir ["patch.zip"] "extracted" [] w1 v1 Hp1)
    as (Hr2 & Hp2).
  assert (Ht2 : get target (fs (post (extract_zip E (tmpdir ++ ["patch.zip"])
                  (tmpdir ++ ["extracted"]) w1))) = Some (Dir ∅)).
  { apply (preserves_extract E (λ t, get target t = Some (Dir ∅))); [| |done].
    - intros r. rewrite <-app_assoc. apply Hup.
    - intros r. apply mk_stable_get. intros Hq.
      destruct (diverge_app_l _ _ (["extracted"] ++ r) Hdiv) as [_ H]. apply H.
      etrans; [done|]. rewrite app_assoc. apply removelast_prefix. }
  pose proof (mute_success_extract (tmpdir ++ ["patch.zip"]) (tmpdir ++ ["extracted"]) w1) as M2.
  run. rewrite existsb_app, M2. cbn.
  set (w2 := post (extract_zip E (tmpdir ++ _) _ w1)) in *.
  set (v2 := post (extract_zip E ["patch.zip"] _ v1)) in *.
  destruct (res (extract_zip E (tmpdir ++ _) _ w1)) as [x|];
    destruct (res (extract_zip E ["patch.zip"] _ v1)) as [x'|]; try done.
  (* the merge *)
  assert (Hdiv2 : diverge (tmpdir ++ ["extracted"]) target) by by apply diverge_app_l.
  pose proof (mute_success_merge (tmpdir ++ ["extracted"]) target w2) as M3.
  run. rewrite existsb_app, M3. cbn.
  destruct (res (copy_top_level_folders E _ target w2)) as [a|] eqn:Ha; [|done].
  destruct (merge_needs_listing _ _ _ _ Ha) as [es Hes].
  destruct (merge_into_empty _ _ w2 es Hdiv2 Hes Ht2) as (_ & Hfull).
  run. unfold report_backup.
  assert (Hpay : get ["extracted"] (fs v2) = Some (Dir es)).
  { rewrite get_app, Hp2 in Hes. done. }
  destruct backup as [b|]; run; (split; [done|]); intros _; by rewrite Hfull, Hpay.
Qed.

Lemma copytree_needs_dir src dst w :
  is_ok (res (shutil_copytree E src dst w)) = true →
  ∃ es, get src (fs w) = Some (Dir es).
Proof.
  unfold shutil_copytree. destruct (get src (fs w)) as [[|es]|]; cbn; try done.
  eauto.
Qed.

(** The apply pipeline on an empty target. *)
Lemma apply_patch_payload (p : patch) target backup w :
  (∀ s, diverge (tmp_root E ++ ["patcher_" +:+ s]) target) →
  get target (fs w) = Some (Dir ∅) →
  let o := apply_patch E p target backup w in
  existsb is_success (trace o) = true →
  get target (fs (post o)) = payload E p.
Proof.
  intros Hdiv Htgt o Hsucc. subst o. revert Hsucc. unfold apply_patch. run.
  rewrite trace_mkdtemp.
  pose proof (preserves_mkdtemp E (λ t, get target t = Some (Dir ∅)) "patcher_"
                (λ s, upd_stable_get _ _ _ (Hdiv s)) w Htgt) as Ht1.
  destruct (res (tempfile_mkdtemp E "patcher_" w)) as [d|] eqn:Hd; [|done].
  destruct (mkdtemp_ok E _ _ _ Hd) as (-> & Htmp).
  set (tmpdir := tmp_root E ++ ["patcher_" +:+ entropy w]) in *.
  set (w1 := post (tempfile_mkdtemp E "patcher_" w)) in *.
  destruct (steps_payload p target backup tmpdir w1 (Hdiv _) Htmp Ht1) as (Hs & Hpay).
  unfold try_finally. cbn [trace post]. rewrite trace_rmtree_ignore. run.
  rewrite !existsb_app, Hs. cbn.
  destruct (res (patch_steps E p target backup tmpdir w1)) as [[]|e].
  - intros _. rewrite <-(Hpay eq_refl).
    apply (preserves_rmtree_ignore E (λ t, get target t = get target
             (fs (post (patch_steps E p target backup tmpdir w1))))); [|done].
    apply upd_stable_get, Hdiv.
  - cbn. destruct (is_Exception e); [|by rewrite orb_false_r].
    by rewrite (mute_success_failed backup e), orb_false_r.
Qed.

End Payload.

Lemma fs_post_input s w : fs (post (input s w)) = fs w.
Proof. unfold input. by destruct (stdin w). Qed.

Lemma PATCHES_get_not_clear action p : PATCHES_get action = Some p → action ≠ "4".
Proof. intros H ->. vm_compute in H. done. Qed.

(** After a session that applied the patch [p] and reported success, in an
    environment without faults, the target holds the payload of [p]:
    nothing of what it held before, and nothing that depends on the clock
    or on the name of the scratch directory. *)
Lemma session_leaves_payload E target action (p : patch) w :
  no_faults E →
  target ≠ [] →
  (∀ s, diverge (tmp_root E ++ ["patcher_" +:+ s]) target) →
  PATCHES_get action = Some p →
  existsb is_success (trace (run_session E target action w)) = true →
  get target (fs (post (run_session E target action w))) = payload E p.
Proof.
  intros HE Hne Hdiv Hp. pose proof (PATCHES_get_not_clear _ _ Hp) as Hn4.
  unfold run_session. run.
  rewrite existsb_app, (mute_success_ensure E target w). cbn.
  destruct (res (ensure_target E target w)) as [[]|] eqn:Hens; [|done].
  apply ensure_target_exists in Hens.
  set (w1 := post (ensure_target E target w)) in *.
  rewrite decide_False by done. rewrite Hp. run.
  rewrite existsb_app, (mute_success_backup E target w1). cbn.
  destruct (make_backup_existing E target w1 Hens) as (_ & _ & Hres & Hpost).
  pose proof (make_backup_frame E target w1 Hne) as Hframe.
  set (w2 := post (make_backup E target w1)) in *.
  rewrite Hres.
  destruct (res (shutil_copytree E target _ w1)) as [bp|] eqn:Hcp; [|done].
  destruct (copytree_needs_dir E target (backup_path_of target w1) w1) as [es Hes];
    [by rewrite Hcp|].
  rewrite <-Hframe in Hes.
  destruct (clear_spec E target w2 es Hes) as (Hok & Hclear).
  rewrite (nf_ls E HE) in Hok. destruct (Hclear (nf_ls E HE target)) as (Hempty & _).
  rewrite survivors_no_faults in Hempty by done.
  run. rewrite existsb_app, (mute_success_clear E target w2). cbn.
  set (w3 := post (clear_folder_contents E target w2)) in *.
  destruct (res (clear_folder_contents E target w2)) as [[]|]; [|done].
  run. rewrite existsb_app.
  intros Hsucc.
  assert (existsb is_success
            (trace (apply_patch E p target (Some (backup_path_of target w1)) w3)) = true)
    as Hsucc'.
  { apply orb_true_iff in Hsucc as [?|Hsucc]; [done|].
    destruct (res (apply_patch _ _ _ _ _)); [|done].
    rewrite existsb_app in Hsucc. cbn in Hsucc.
    unfold input in Hsucc. by destruct (stdin _). }
  pose proof (apply_patch_payload E HE p target _ w3 Hdiv Hempty Hsucc') as Hpay.
  destruct (res (apply_patch _ _ _ _ _)); [|done].
  run. destruct (res (input _ _)); by rewrite fs_post_input.
Qed.
(** * The prompts *)

#[global] Arguments prompt_version : simpl never.
#[global] Arguments prompt_action : simpl never.

Section Prompts.

Context (E : env).

Lemma input_line prompt w l rest :
  stdin w = l :: rest →
  input prompt w = Outcome (Ok l) (set_stdin rest w) [Say prompt].
Proof. intros H. unfold input. by rewrite H. Qed.

Lemma prompt_version_spec w l rest :
  stdin w = l :: rest →
  let o := prompt_version E w in
  post o = set_stdin rest w
  ∧ existsb is_call (trace o) = false
  ∧ res o = (if decide (strip l = "1") then Ok (expand E PATH_UWP)
             else if decide (strip l = "2") then Ok (expand E PATH_GDK)
             else Raise (SystemExit 1))
  ∧ (is_ok (res o) = false → last (trace o) = Some (Say "Invalid selection. Exiting.")).
Proof.
  intros H. unfold prompt_version. run. rewrite (input_line _ _ _ _ H). cbn.
  repeat case_decide; cbn; done.
Qed.

Lemma prompt_action_spec w l rest :
  stdin w = l :: rest →
  let o := prompt_action w in
  post o = set_stdin rest w
  ∧ existsb is_call (trace o) = false
  ∧ res o = (if decide (strip l ∈ ["1"; "2"; "3"; "4"]) then Ok (strip l)
             else Raise (SystemExit 1))
  ∧ (is_ok (res o) = false → last (trace o) = Some (Say "Invalid selection. Exiting.")).
Proof.
  intros H. unfold prompt_action. run. rewrite (input_line _ _ _ _ H). cbn.
  repeat case_decide; cbn; done.
Qed.

End Prompts.

(** X1. An answer to the version prompt that is neither 1 nor 2 (blanks
    around it apart) ends [main] with [SystemExit(1)]: the action is never
    asked for, no library call is made and the file system is as it was. *)
Theorem invalid_version_exits_untouched E w l rest :
  stdin w = l :: rest → strip l ≠ "1" → strip l ≠ "2" →
  let o := main E w in
  res o = Raise (SystemExit 1)
  ∧ fs (post o) = fs w
  ∧ stdin (post o) = rest
  ∧ existsb is_call (trace o) = false
  ∧ last (trace o) = Some (Say "Invalid selection. Exiting.").
Proof.
  intros H H1 H2 o. subst o.
  destruct (prompt_version_spec E w l rest H) as (Hp & Hc & Hr & Hl).
  rewrite !decide_False in Hr by done.
  unfold main. run. rewrite Hr, Hp. rewrite app_nil_r.
  repeat split; try done. apply Hl. by rewrite Hr.
Qed.

(** X2. Once the version is chosen, an answer to the action prompt other
    than 1, 2, 3 or 4 ends [main] with [SystemExit(1)] before anything is
    done: no library call is made, the target is not even created. *)
Theorem invalid_action_exits_untouched E w v l rest :
  stdin w = v :: l :: rest →
  strip v = "1" ∨ strip v = "2" →
  strip l ∉ ["1"; "2"; "3"; "4"] →
  let o := main E w in
  res o = Raise (SystemExit 1)
  ∧ fs (post o) = fs w
  ∧ existsb is_call (trace o) = false
  ∧ last (trace o) = Some (Say "Invalid selection. Exiting.").
Proof.
  intros H Hv Hl o. subst o.
  destruct (prompt_version_spec E w v (l :: rest) H) as (Hp & Hc & Hr & _).
  destruct (prompt_action_spec (set_stdin (l :: rest) w) l rest eq_refl)
    as (Hp' & Hc' & Hr' & Hl').
  rewrite decide_False in Hr' by done.
  assert (∃ t, res (prompt_version E w) = Ok t) as [t Ht].
  { rewrite Hr. destruct Hv as [-> | ->]; cbn; eauto. }
  unfold main. run. rewrite Ht, Hp. cbn. run. rewrite Hr', Hp'. cbn.
  rewrite app_nil_r, existsb_app, Hc. cbn. rewrite Hc'.
  repeat split; try done.
  rewrite last_app, last_cons, Hl'; [done|]. by rewrite Hr'.
Qed.

Lemma prompt_action_returns w a :
  res (prompt_action w) = Ok a → a ∈ ["1"; "2"; "3"; "4"].
Proof.
  destruct (stdin w) as [|l rest] eqn:H.
  - unfold prompt_action. run. unfold input. by rewrite H.
  - destruct (prompt_action_spec w l rest H) as (_ & _ & -> & _).
    case_decide; [|done]. by intros [= <-].
Qed.

Lemma mute_invalid_version E : mute is_invalid_patch (prompt_version E).
Proof. unfold prompt_version. mute_tac. Qed.

Lemma mute_invalid_action : mute is_invalid_patch prompt_action.
Proof. unfold prompt_action. mute_tac. Qed.

Lemma mute_invalid_session E target a :
  a ∈ ["1"; "2"; "3"; "4"] → mute is_invalid_patch (run_session E target a).
Proof.
  intros Ha. unfold run_session.
  destruct (decide (a = "4")) as [->|H4]; [mute_tac|].
  assert (is_Some (PATCHES_get a)) as [p ->].
  { repeat (apply elem_of_cons in Ha as [->|Ha]; [by vm_compute; eauto|]).
    by apply elem_of_nil in Ha. }
  unfold apply_patch. mute_tac.
Qed.

(** X3. [main] never prints its line for an action that names no patch
    (lines 174-177): the actions [prompt_action] lets through are 4 and the
    keys of [PATCHES]. *)
Theorem main_never_reports_invalid_patch E w :
  existsb is_invalid_patch (trace (main E w)) = false.
Proof.
  unfold main. rewrite trace_bind, existsb_app, mute_invalid_version. cbn.
  destruct (res (prompt_version E w)) as [target|]; [|done].
  run. rewrite existsb_app, mute_invalid_action. cbn.
  destruct (res (prompt_action _)) as [a|] eqn:Ha; [|done].
  apply prompt_action_returns in Ha. by apply mute_invalid_session.
Qed.

(** ** Blanks around an answer *)

Lemma chars_app (s t : string) : chars (s +:+ t) = chars s ++ chars t.
Proof. unfold chars. induction s as [|c s IH]; cbn; [done|]. by rewrite <-IH. Qed.

Lemma lstrip_blanks ws cs : forallb is_space ws = true → lstrip (ws ++ cs) = lstrip cs.
Proof.
  induction ws as [|c ws IH]; cbn [forallb app lstrip]; [done|].
  intros [-> ?]%andb_true_iff. auto.
Qed.

Lemma lstrip_app cs ws :
  lstrip (cs ++ ws) = match lstrip cs with [] => lstrip ws | l => l ++ ws end.
Proof.
  induction cs as [|c cs IH]; cbn [app lstrip].
  - by destruct (lstrip ws).
  - destruct (is_space c); [done|]. done.
Qed.

Lemma lstrip_all_blank ws : forallb is_space ws = true → lstrip ws = [].
Proof. intros H. rewrite <-(app_nil_r ws). by rewrite lstrip_blanks. Qed.

Lemma strip_blanks a s b :
  all_blank a = true → all_blank b = true → strip (a +:+ s +:+ b) = strip s.
Proof.
  unfold all_blank, strip. intros Ha Hb. f_equal.
  rewrite !chars_app, (lstrip_blanks _ _ Ha), lstrip_app, (lstrip_all_blank _ Hb).
  destruct (lstrip (chars s)) as [|c l]; [done|].
  rewrite rev_app_distr, lstrip_blanks; [done|].
  rewrite forallb_forall in *. intros x Hx. apply Hb. by apply in_rev.
Qed.

Lemma for_each_emit {A} (f : A → event) (l : list A) w :
  for_each l (λ x, emit (f x)) w = Outcome (Ok tt) w (f <$> l).
Proof.
  unfold for_each. induction l as [|x l IH]; cbn [for_fold]; [done|].
  unfold bind at 1. cbn [emit res post trace]. by rewrite IH.
Qed.

(** A step that only prints can be skipped when two runs are compared. *)
Lemma after_output {A B} (m : M A) (k : A → M B) a tr w w' :
  (∀ w0, m w0 = Outcome (Ok a) w0 tr) →
  k a w = k a w' → bind m k w = bind m k w'.
Proof. intros Hm Hk. unfold bind. rewrite !Hm. cbn. by rewrite Hk. Qed.

(** X4. Both prompts ignore blanks around the answer: a line with blanks
    before and after it is read exactly as the line without them. *)
Theorem prompts_ignore_surrounding_blanks E w a l b rest :
  all_blank a = true → all_blank b = true →
  stdin w = (a +:+ l +:+ b) :: rest →
  prompt_version E w = prompt_version E (set_stdin (l :: rest) w)
  ∧ prompt_action w = prompt_action (set_stdin (l :: rest) w).
Proof.
  intros Ha Hb H. pose proof (strip_blanks a l b Ha Hb) as Hs.
  assert (∀ B prompt (k : string → M B),
            k (a +:+ l +:+ b) (set_stdin rest w) = k l (set_stdin rest w) →
            bind (input prompt) k w
            = bind (input prompt) k (set_stdin (l :: rest) w)) as Hin.
  { intros B prompt k Hk. unfold bind, input. rewrite H. cbn.
    fold (set_stdin rest w). by rewrite Hk. }
  split.
  - unfold prompt_version, say.
    do 6 (eapply after_output; [by intros ?|]). apply Hin; cbn zeta; by rewrite Hs.
  - unfold prompt_action, say.
    eapply after_output; [by intros ?|].
    eapply after_output; [apply for_each_emit|].
    eapply after_output; [by intros ?|]. apply Hin; cbn zeta; by rewrite Hs.
Qed.

(** X5. [main] is the session on the answers to the two prompts: with
    valid answers it runs [run_session] on the expanded path of the chosen
    installation and the chosen action, after it has done nothing but print
    and read two lines.  What holds of every session holds of [main]. *)
Theorem main_runs_the_session E w v a rest :
  stdin w = v :: a :: rest →
  strip v = "1" ∨ strip v = "2" →
  strip a ∈ ["1"; "2"; "3"; "4"] →
  let target := expand E (if decide (strip v = "1") then PATH_UWP else PATH_GDK) in
  let s := run_session E target (strip a) (set_stdin rest w) in
  res (main E w) = res s
  ∧ post (main E w) = post s
  ∧ ∃ l, trace (main E w) = l ++ trace s ∧ existsb is_call l = false.
Proof.
  intros H Hv Ha target s. subst target s.
  destruct (prompt_version_spec E w v (a :: rest) H) as (Hp & Hc & Hr & _).
  destruct (prompt_action_spec (set_stdin (a :: rest) w) a rest eq_refl)
    as (Hp' & Hc' & Hr' & _).
  rewrite decide_True in Hr' by done.
  assert (res (prompt_version E w)
          = Ok (expand E (if decide (strip v = "1") then PATH_UWP else PATH_GDK))) as Ht.
  { rewrite Hr. destruct Hv as [Hv|Hv]; rewrite Hv; by repeat case_decide. }
  unfold main. run. rewrite Ht, Hp. cbn. run. rewrite Hr', Hp'. cbn.
  split_and!; [done..|].
  eexists (_ ++ _ :: _). split.
  - by rewrite <-app_assoc.
  - rewrite existsb_app, Hc. cbn. apply Hc'.
Qed.

(** * The backup *)

Lemma path_split (p : path) : p ≠ [] → p = dirname p ++ [basename p].
Proof. intros H. by apply app_removelast_last. Qed.

Lemma get_parent p x t c :
  get (p ++ [x]) t = Some c →
  ∃ cur, get p t = Some (Dir cur) ∧ cur !! x = Some c.
Proof.
  rewrite get_app. intros (n & Hp & Hx)%bind_Some_inv.
  destruct n as [d|cur]; [by rewrite get_cons_File in Hx|].
  exists cur. split; [done|]. rewrite get_cons in Hx.
  apply bind_Some_inv in Hx as (c' & Hc & Hn). rewrite get_nil in Hn. congruence.
Qed.

Lemma diverge_not_prefix_app (p q r : path) : diverge p q → ¬ q `prefix_of` p ++ r.
Proof.
  intros [H1 H2] Hq.
  destruct (prefix_weak_total p q (p ++ r)); [by apply prefix_app_r|done|tauto..].
Qed.

Section Backup.

Context (E : env).

(** What a successful [shutil.copytree] tells about the environment and the
    file system it ran in. *)
Lemma copytree_ok_inv src dst w :
  is_ok (res (shutil_copytree E src dst w)) = true →
  cp_fault E src = NoFault ∧ mk_denied E dst = false
  ∧ path_exists dst (fs w) = false ∧ ∃ es, get src (fs w) = Some (Dir es).
Proof.
  unfold shutil_copytree, commit, abort. repeat case_match; cbn; try done.
  intros _. eauto.
Qed.

Lemma copytree_exists src dst w es :
  get src (fs w) = Some (Dir es) →
  cp_fault E src = NoFault → mk_denied E dst = false →
  path_exists dst (fs w) = true →
  shutil_copytree E src dst w
  = Outcome (Raise (OSError "FileExistsError" dst)) (set_fs (fs w) w)
            [Sys (Copytree src dst) false].
Proof. intros Hs Hc Hm Hd. unfold shutil_copytree. by rewrite Hs, Hc, Hm, Hd. Qed.

Lemma make_backup_absent folder w :
  path_exists folder (fs w) = false →
  res (make_backup E folder w) = Ok None ∧ post (make_backup E folder w) = w.
Proof. intros H. unfold make_backup. run. by rewrite H. Qed.

(** A backup that is reported holds the tree of the folder. *)
Lemma make_backup_copy folder w b :
  folder ≠ [] →
  res (make_backup E folder w) = Ok (Some b) →
  b = backup_path_of folder w
  ∧ ∃ es, get folder (fs w) = Some (Dir es)
          ∧ get b (fs (post (make_backup E folder w))) = Some (Dir es).
Proof.
  intros Hne Hres. destruct (path_exists folder (fs w)) eqn:Hex.
  2: { apply make_backup_absent in Hex as [Hn _]. congruence. }
  destruct (make_backup_existing E folder w Hex) as (_ & Hbp & Hcp & Hpost).
  assert (Hok0 : is_ok (res (make_backup E folder w)) = true) by by rewrite Hres.
  specialize (Hbp Hok0). cbn zeta in *. rewrite Hbp in Hres. injection Hres as <-.
  split; [done|]. rewrite Hcp in Hbp. rewrite Hpost. clear Hcp Hpost Hok0.
  set (bp := backup_path_of folder w) in *.
  destruct (res (shutil_copytree E folder bp w)) as [d|] eqn:Hc; [|done].
  assert (Hok : is_ok (res (shutil_copytree E folder bp w)) = true) by by rewrite Hc.
  destruct (copytree_ok_inv _ _ _ Hok) as (_ & _ & _ & es & Hes).
  exists es. split; [done|].
  pose proof Hes as Hp. rewrite (path_split folder Hne) in Hp.
  apply get_parent in Hp as (cur & Hcur & _).
  destruct (copytree_child_spec E folder (dirname folder)
              (basename folder +:+ "_backup_" +:+ now w) w es cur Hes Hcur) as [H _].
  by apply H.
Qed.

(** Nothing in the way, nothing denied: the backup is made. *)
Lemma make_backup_ok folder w es :
  folder ≠ [] →
  get folder (fs w) = Some (Dir es) →
  cp_fault E folder = NoFault →
  mk_denied E (backup_path_of folder w) = false →
  path_exists (backup_path_of folder w) (fs w) = false →
  res (make_backup E folder w) = Ok (Some (backup_path_of folder w)).
Proof.
  intros Hne Hes Hcp Hmk Hfree.
  assert (Hex : path_exists folder (fs w) = true) by (unfold path_exists; by rewrite Hes).
  destruct (make_backup_existing E folder w Hex) as (_ & Hbp & Hres & _).
  apply Hbp. rewrite Hres.
  pose proof Hes as Hp. rewrite (path_split folder Hne) in Hp.
  apply get_parent in Hp as (cur & Hcur & _).
  destruct (copytree_child_spec E folder (dirname folder)
              (basename folder +:+ "_backup_" +:+ now w) w es cur Hes Hcur) as [_ H].
  unfold backup_path_of in *.
  rewrite (exists_child _ _ _ _ Hcur) in Hfree.
  destruct (res (shutil_copytree _ _ _ _)); [done|].
  specialize (H Hcp Hmk). destruct (cur !! _); [done|]. by specialize (H eq_refl).
Qed.

End Backup.

(** X6. [make_backup] returns no path exactly when the folder is absent.  A
    path it returns is the sibling of the folder named after it and the
    clock, and holds a copy of the folder's tree; the folder itself is as it
    was.  It does return one when the folder is a directory, nothing denies
    the copy and the sibling's name is free. *)
Theorem backup_holds_the_tree E folder w :
  folder ≠ [] →
  let o := make_backup E folder w in
  let bp := backup_path_of folder w in
  (res o = Ok None ↔ path_exists folder (fs w) = false)
  ∧ (∀ b, res o = Ok (Some b) →
       b = bp
       ∧ ∃ es, get folder (fs w) = Some (Dir es)
               ∧ get b (fs (post o)) = Some (Dir es)
               ∧ get folder (fs (post o)) = Some (Dir es))
  ∧ (∀ es, get folder (fs w) = Some (Dir es) →
       cp_fault E folder = NoFault → mk_denied E bp = false →
       path_exists bp (fs w) = false →
       res o = Ok (Some bp)).
Proof.
  intros Hne o bp. subst o bp. split_and!.
  - split; [|by intros [? _]%(make_backup_absent E)].
    intros Hres. destruct (path_exists folder (fs w)) eqn:Hex; [|done].
    destruct (make_backup_existing E folder w Hex) as (_ & _ & Hcp & _).
    rewrite Hcp in Hres. by destruct (res (shutil_copytree _ _ _ _)).
  - intros b Hb. destruct (make_backup_copy E folder w b Hne Hb) as (-> & es & Hes & Hcopy).
    split; [done|]. exists es. split_and!; [done..|].
    by rewrite make_backup_frame.
  - intros es. by apply make_backup_ok.
Qed.

(** X7. The backup's name has the clock's reading to the second in it, and
    [shutil.copytree] refuses a destination that exists.  So a second backup
    of the same folder while the clock reads the same fails with
    [FileExistsError] and changes nothing. *)
Theorem second_backup_in_the_same_second_fails E folder w w' b :
  folder ≠ [] →
  res (make_backup E folder w) = Ok (Some b) →
  fs w' = fs (post (make_backup E folder w)) →
  now w' = now w →
  let o := make_backup E folder w' in
  res o = Raise (OSError "FileExistsError" b) ∧ fs (post o) = fs w'.
Proof.
  intros Hne Hres Hfs Hnow o. subst o.
  destruct (make_backup_copy E folder w b Hne Hres) as (-> & es & Hes & Hcopy).
  assert (Hex : path_exists folder (fs w) = true) by (unfold path_exists; by rewrite Hes).
  destruct (make_backup_existing E folder w Hex) as (_ & _ & Hcp & _).
  rewrite Hcp in Hres.
  assert (Hok : is_ok (res (shutil_copytree E folder (backup_path_of folder w) w)) = true).
  { by destruct (res (shutil_copytree _ _ _ _)). }
  destruct (copytree_ok_inv _ _ _ _ Hok) as (Hfault & Hmk & _ & _).
  assert (Hes' : get folder (fs w') = Some (Dir es)).
  { by rewrite Hfs, make_backup_frame. }
  assert (Hex' : path_exists folder (fs w') = true) by (unfold path_exists; by rewrite Hes').
  assert (Hbp : backup_path_of folder w' = backup_path_of folder w).
  { unfold backup_path_of. by rewrite Hnow. }
  destruct (make_backup_existing E folder w' Hex') as (_ & _ & Hcp' & Hpost').
  rewrite Hcp', Hpost', Hbp, (copytree_exists E _ _ _ es); try done.
  unfold path_exists. by rewrite Hfs, Hcopy.
Qed.

(** * What a session touches *)

Section SessionFootprint.

Context (E : env) (I : node → Prop).



(** The apply pipeline writes in the scratch directory and below the
    children of the target. *)
Lemma preserves_steps (p : patch) target backup s :
  (∀ r, upd_stable I (tmp_root E ++ s :: r)) →
  (∀ r, mk_stable I (tmp_root E ++ s :: r)) →
  (∀ n r, upd_stable I (target ++ n :: r)) →
  (∀ n, mk_stable I (target ++ [n])) →
  preserves I (try_except (patch_steps E p target backup (tmp_root E ++ [s]))
                          (patch_failed backup)).
Proof.
  intros Hu Hm Hut Hmt. unfold patch_steps, patch_failed. preserves_tac.
  - apply preserves_download. rewrite <-app_assoc. apply Hu.
  - apply preserves_extract; intros r.
    + rewrite <-!app_assoc. apply Hu.
    + rewrite <-!app_assoc. cbn [app]. rewrite dirname_app_cons.
      destruct r; cbn [dirname removelast]; [apply Hm|apply Hm].
  - by apply preserves_merge.
Qed.

Lemma preserves_apply_patch (p : patch) target backup :
  (∀ s r, upd_stable I (tmp_root E ++ ("patcher_" +:+ s) :: r)) →
  (∀ s r, mk_stable I (tmp_root E ++ ("patcher_" +:+ s) :: r)) →
  (∀ n r, upd_stable I (target ++ n :: r)) →
  (∀ n, mk_stable I (target ++ [n])) →
  preserves I (apply_patch E p target backup).
Proof.
  intros Hu Hm Hut Hmt w Hw. unfold apply_patch. rewrite post_bind.
  assert (Hw1 : I (fs (post (tempfile_mkdtemp E "patcher_" w)))).
  { by apply preserves_mkdtemp. }
  destruct (res (tempfile_mkdtemp _ _ _)) as [d|] eqn:Hd; [|done].
  apply mkdtemp_ok in Hd as [-> _].
  apply preserves_try_finally; [| |done].
  - by apply preserves_steps.
  - apply preserves_rmtree_ignore. apply Hu.
Qed.


End SessionFootprint.

Lemma scratch_below (p : path) x r : p ++ x :: r = (p ++ [x]) ++ r.
Proof. by rewrite <-app_assoc. Qed.


(** * What is left when the session ends *)

Section AfterBackup.

Context (E : env).

Lemma ensure_target_present target w :
  path_exists target (fs w) = true →
  ensure_target E target w = Outcome (Ok tt) w [].
Proof. intros H. unfold ensure_target, bind, os_path_exists, peek. cbn. by rewrite H. Qed.

(** Clearing the target and applying a patch leave a sibling of the target
    alone, as long as the scratch directory is elsewhere. *)
Lemma clear_keeps_sibling target b v :
  diverge b target →
  preserves (λ t, get b t = v) (clear_folder_contents E target).
Proof.
  intros Hb%diverge_sym. apply preserves_clear.
  - intros n. apply upd_stable_get, diverge_app_l, Hb.
  - apply mk_stable_get, (proj2 Hb).
Qed.

Lemma apply_keeps_sibling target b v (p : patch) backup :
  diverge b target →
  (∀ s, diverge (tmp_root E ++ ["patcher_" +:+ s]) b) →
  preserves (λ t, get b t = v) (apply_patch E p target backup).
Proof.
  intros Hb%diverge_sym Hs. apply preserves_apply_patch.
  - intros s r. rewrite scratch_below. apply upd_stable_get, diverge_app_l, Hs.
  - intros s r. rewrite scratch_below. apply mk_stable_get, diverge_not_prefix_app, Hs.
  - intros n r. apply upd_stable_get, diverge_app_l, Hb.
  - intros n. apply mk_stable_get, diverge_not_prefix_app, Hb.
Qed.

Lemma backup_kept target action w es b :
  target ≠ [] →
  action = "4" ∨ is_Some (PATCHES_get action) →
  (∀ s, diverge (tmp_root E ++ ["patcher_" +:+ s]) b) →
  get target (fs w) = Some (Dir es) →
  res (make_backup E target w) = Ok (Some b) →
  get b (fs (post (run_session E target action w))) = Some (Dir es).
Proof.
  intros Hne Hact Hs Hes Hres.
  assert (Hex : path_exists target (fs w) = true) by (unfold path_exists; by rewrite Hes).
  destruct (make_backup_copy E target w b Hne Hres) as (Hb & es' & Hes' & Hcopy).
  assert (es' = es) as -> by congruence.
  assert (Hdiv : diverge b target) by (rewrite Hb; by apply backup_path_diverges).
  pose proof (clear_keeps_sibling target b (Some (Dir es)) Hdiv) as Hclear.
  pose proof (λ p backup, apply_keeps_sibling target b (Some (Dir es)) p backup Hdiv Hs)
    as Hrest.
  set (w1 := post (make_backup E target w)) in *.
  assert (Hw2 : get b (fs (post (clear_folder_contents E target w1))) = Some (Dir es)).
  { by apply Hclear. }
  unfold run_session. rewrite post_bind, (ensure_target_present _ _ Hex). cbn [res post].
  destruct (decide (action = "4")) as [->|Hn4].
  - rewrite post_bind. cbn [say emit res post]. rewrite post_bind, Hres. fold w1.
    rewrite post_bind. destruct (res (clear_folder_contents _ _ _)); [|done].
    rewrite post_bind. cbn [say emit res post].
    rewrite post_bind. cbn [report_backup emit res post].
    rewrite post_bind. destruct (res (input _ _)); cbn [ret post]; by rewrite fs_post_input.
  - destruct Hact as [?|[p Hp]]; [done|]. rewrite Hp.
    rewrite post_bind. cbn [emit res post]. rewrite post_bind, Hres. fold w1.
    rewrite post_bind. destruct (res (clear_folder_contents _ _ _)); [|done].
    rewrite post_bind.
    pose proof (Hrest p (Some b) _ Hw2) as Hw3. cbn beta in Hw3.
    destruct (res (apply_patch _ _ _ _ _)); [|done].
    rewrite post_bind. destruct (res (input _ _)); cbn [ret post]; by rewrite fs_post_input.
Qed.

End AfterBackup.

(** X9. The backup outlives the session.  When [make_backup] has returned
    a path at the start of a session, that path holds the tree the target
    had before the session, and still holds it when the session ends:
    whatever clearing, download, extraction and merge did, and whether or
    not they failed. *)
Theorem backup_outlives_the_session E target action w es b :
  target ≠ [] →
  action = "4" ∨ is_Some (PATCHES_get action) →
  (∀ s, diverge (tmp_root E ++ ["patcher_" +:+ s]) b) →
  get target (fs w) = Some (Dir es) →
  res (make_backup E target w) = Ok (Some b) →
  b = backup_path_of target w
  ∧ get b (fs (post (make_backup E target w))) = Some (Dir es)
  ∧ get b (fs (post (run_session E target action w))) = Some (Dir es).
Proof.
  intros Hne Hact Hs Hes Hres.
  destruct (make_backup_copy E target w b Hne Hres) as (Hb & es' & Hes' & Hcopy).
  assert (es' = es) as -> by congruence.
  split_and!; [done..|]. by apply backup_kept.
Qed.

(** X10. The clear-only action, when nothing fails: the target is an empty
    directory afterwards, the backup holds everything the target held, and
    the user is told so and where the backup is.  The session then ends
    normally, unless standard input is closed when it waits for ENTER. *)
Theorem clear_only_empties_and_backs_up E target w es :
  no_faults E →
  target ≠ [] →
  get target (fs w) = Some (Dir es) →
  path_exists (backup_path_of target w) (fs w) = false →
  let o := run_session E target "4" w in
  let bp := backup_path_of target w in
  (res o = Ok tt ∨ res o = Raise EOFError)
  ∧ get target (fs (post o)) = Some (Dir ∅)
  ∧ get bp (fs (post o)) = Some (Dir es)
  ∧ Say "Cleared. Game will redownload server packs when you join servers." ∈ trace o
  ∧ SayPath "Backup located at:" bp ∈ trace o.
Proof.
  intros HE Hne Hes Hfree o bp. subst o bp.
  assert (Hex : path_exists target (fs w) = true) by (unfold path_exists; by rewrite Hes).
  pose proof (make_backup_ok E target w es Hne Hes (nf_cp E HE _) (nf_mk E HE _) Hfree)
    as Hres.
  destruct (make_backup_copy E target w _ Hne Hres) as (_ & es' & Hes' & Hcopy).
  assert (es' = es) as -> by congruence. clear Hes'.
  pose proof (make_backup_frame E target w Hne) as Hframe. rewrite Hes in Hframe.
  set (bp := backup_path_of target w) in *.
  set (w1 := post (make_backup E target w)) in *.
  destruct (clear_spec E target w1 es Hframe) as (Hok & Hclear).
  rewrite (nf_ls E HE) in Hok. destruct (Hclear (nf_ls E HE target)) as (Hempty & _).
  rewrite survivors_no_faults in Hempty by done.
  assert (Hkept : get bp (fs (post (clear_folder_contents E target w1))) = Some (Dir es)).
  { apply (clear_keeps_sibling E target bp); [|done].
    by apply backup_path_diverges. }
  set (w2 := post (clear_folder_contents E target w1)) in *.
  unfold run_session. rewrite decide_True by done.
  run. rewrite (ensure_target_present _ _ _ Hex). cbn.
  rewrite Hres. fold w1. run.
  destruct (res (clear_folder_contents E target w1)) as [[]|]; [|done]. fold w2. run.
  split_and!.
  - unfold input. destruct (stdin w2); cbn; auto.
  - destruct (res (input _ _)); cbn; by rewrite fs_post_input.
  - destruct (res (input _ _)); cbn; by rewrite fs_post_input.
  - rewrite !elem_of_cons, !elem_of_app, !elem_of_cons. auto 10.
  - rewrite !elem_of_cons, !elem_of_app, !elem_of_cons. auto 10.
Qed.

(** * The calls of the clear-only action *)

Lemma dirname_child (p : path) n : dirname (p ++ [n]) = p.
Proof. apply removelast_last. Qed.

Lemma forallb_mute {A} (f : event → bool) (m : M A) w :
  mute (λ ev, negb (f ev)) m → forallb f (trace (m w)) = true.
Proof.
  intros Hm. specialize (Hm w). induction (trace (m w)) as [|ev l IH]; [done|].
  cbn in *. apply orb_false_iff in Hm as [Hev Hl]. apply negb_false_iff in Hev.
  by rewrite Hev, IH.
Qed.

(** X11. The clear-only action makes no request, creates no scratch
    directory and writes no file.  The only calls it makes create the
    target, copy the target, and remove children of the target. *)
Theorem clear_only_stays_local E target w :
  forallb (clear_only_call target) (trace (run_session E target "4" w)) = true.
Proof.
  apply forallb_mute. unfold run_session. rewrite decide_True by done.
  mute_tac.
  - eapply mute_one_call; [apply one_call_makedirs|].
    intros ok. cbn. by rewrite bool_decide_true.
  - eapply mute_one_call; [apply one_call_copytree|].
    intros ok. cbn. by rewrite bool_decide_true.
  - eapply mute_one_call; [apply one_call_makedirs|].
    intros ok. cbn. by rewrite bool_decide_true.
  - eapply mute_one_call; [apply one_call_rmtree|].
    intros ok. cbn. rewrite bool_decide_true; [done|].
    split; [by destruct target|apply dirname_child].
  - eapply mute_one_call; [apply one_call_remove|].
    intros ok. cbn. rewrite bool_decide_true; [done|].
    split; [by destruct target|apply dirname_child].
Qed.

(** X12. What a successful apply leaves, when nothing fails.  If the
    session reports success, the target holds exactly what the archive
    unpacks to, nothing of what it held before; and what it held before is
    in the backup. *)
Theorem successful_session_installs_the_archive E target action (p : patch) w es :
  no_faults E →
  target ≠ [] →
  (∀ s, diverge (tmp_root E ++ ["patcher_" +:+ s]) target) →
  (∀ s, diverge (tmp_root E ++ ["patcher_" +:+ s]) (backup_path_of target w)) →
  PATCHES_get action = Some p →
  get target (fs w) = Some (Dir es) →
  path_exists (backup_path_of target w) (fs w) = false →
  let o := run_session E target action w in
  existsb is_success (trace o) = true →
  get target (fs (post o)) = payload E p
  ∧ get (backup_path_of target w) (fs (post o)) = Some (Dir es).
Proof.
  intros HE Hne Hst Hsb Hp Hes Hfree o Hsucc. subst o. split.
  - by apply session_leaves_payload.
  - apply backup_kept; eauto.
    apply (make_backup_ok E target w es); [done..|apply (nf_cp E HE)|apply (nf_mk E HE)|done].
Qed.

(** * How the apply pipeline ends *)

(** Finds an event in a trace that is given as a concatenation. *)
Ltac in_trace :=
  repeat first [rewrite elem_of_cons | rewrite elem_of_app]; auto 12.

Section Report.

Context (E : env).

Lemma steps_report (p : patch) target backup tmpdir w :
  let o := patch_steps E p target backup tmpdir w in
  existsb is_success (trace o) = is_ok (res o)
  ∧ existsb is_failure (trace o) = false.
Proof.
  cbn zeta. unfold patch_steps.
  pose proof (mute_success_download E (patch_url p) (tmpdir ++ ["patch.zip"]) w) as S1.
  pose proof (mute_failure_download E (patch_url p) (tmpdir ++ ["patch.zip"]) w) as F1.
  run. rewrite !existsb_app, S1, F1. cbn.
  destruct (res (download_zip _ _ _ _)); [|done].
  match goal with |- context [extract_zip E ?z ?d ?w'] =>
    pose proof (mute_success_extract E z d w') as S2;
    pose proof (mute_failure_extract E z d w') as F2 end.
  run. rewrite !existsb_app, S2, F2. cbn.
  destruct (res (extract_zip _ _ _ _)); [|done].
  match goal with |- context [copy_top_level_folders E ?s ?d ?w'] =>
    pose proof (mute_success_merge E s d w') as S3;
    pose proof (mute_failure_merge E s d w') as F3 end.
  run. rewrite !existsb_app, S3, F3. cbn.
  destruct (res (copy_top_level_folders _ _ _ _)); [|done].
  unfold report_backup. destruct backup; run; done.
Qed.

End Report.

(** X13. How [apply_patch] ends.  If the scratch directory cannot be
    created, the exception leaves [apply_patch] at once: that call is
    outside the [try].  Otherwise the scratch directory is removed at the
    end, and
    - if download, extraction and merge all returned, success is reported
      and no error;
    - if one of them raised an [Exception], [apply_patch] still returns
      normally: the error is reported, with the place of the backup when
      there is one, and no success;
    - if one of them was interrupted ([KeyboardInterrupt], [SystemExit]),
      nothing is reported and the exception leaves [apply_patch]. *)
Theorem pipeline_reports_one_outcome E (p : patch) target backup w :
  let tmpdir := tmpdir_of E w in
  let w1 := post (tempfile_mkdtemp E "patcher_" w) in
  let o := apply_patch E p target backup w in
  match res (tempfile_mkdtemp E "patcher_" w) with
  | Raise e => res o = Raise e ∧ trace o = [Sys (Mkdtemp tmpdir) false]
  | Ok _ =>
      (∃ ok, last (trace o) = Some (Sys (Rmtree tmpdir) ok))
      ∧ match res (patch_steps E p target backup tmpdir w1) with
        | Ok _ =>
            res o = Ok tt
            ∧ existsb is_success (trace o) = true
            ∧ existsb is_failure (trace o) = false
        | Raise e =>
            existsb is_success (trace o) = false
            ∧ if is_Exception e then
                res o = Ok tt
                ∧ SayExn "ERROR during patch application:" e ∈ trace o
                ∧ ∀ b, backup = Some b →
                       SayPath "You can restore from backup at:" b ∈ trace o
              else res o = Raise e ∧ existsb is_failure (trace o) = false
        end
  end.
Proof.
  intros tmpdir w1 o. subst tmpdir w1 o. unfold tmpdir_of, apply_patch.
  rewrite res_bind, trace_bind, trace_mkdtemp.
  destruct (res (tempfile_mkdtemp E "patcher_" w)) as [d|e] eqn:Hd; [|done].
  destruct (mkdtemp_ok E _ _ _ Hd) as (-> & _).
  destruct (steps_report E p target backup (tmp_root E ++ ["patcher_" +:+ entropy w])
              (post (tempfile_mkdtemp E "patcher_" w))) as (Hs & Hf).
  unfold try_finally. cbn [res post trace]. rewrite res_rmtree_ignore, trace_rmtree_ignore.
  split.
  { eexists. rewrite (app_assoc [_]). apply last_snoc. }
  rewrite res_try_except, trace_try_except.
  destruct (res (patch_steps _ _ _ _ _ _)) as [[]|e].
  - cbn. rewrite app_nil_r, !existsb_app, Hs, Hf. done.
  - cbn in Hs. destruct (is_Exception e).
    + unfold patch_failed, report_backup. run. split_and!.
      * rewrite !existsb_app, Hs. cbn. by destruct backup.
      * by destruct backup.
      * in_trace.
      * intros b ->. run. in_trace.
    + cbn. rewrite app_nil_r, !existsb_app, Hs, Hf. done.
Qed.

(** * When a session succeeds *)

Section Success.

Context (E : env) (HE : no_faults E).

(** The steps of the [try] block, started with an empty scratch directory
    and an empty target, all return exactly when the archive is
    deliverable. *)
Lemma steps_succeed (p : patch) target backup tmpdir w :
  diverge tmpdir target →
  get tmpdir (fs w) = Some (Dir ∅) →
  get target (fs w) = Some (Dir ∅) →
  is_ok (res (patch_steps E p target backup tmpdir w)) = deliverable E p.
Proof.
  intros Hdiv Htmp Htgt. unfold patch_steps, deliverable, payload, staged.
  set (w0 := World (Dir ∅) [] "" "").
  assert (Hup : ∀ r, upd_stable (λ t, get target t = Some (Dir ∅)) (tmpdir ++ r)).
  { intros r. by apply upd_stable_get, diverge_app_l. }
  destruct (reloc_download E HE tmpdir (patch_url p) ["patch.zip"] w w0 Htmp)
    as (Hr1 & Hp1).
  pose proof (preserves_download E _ (patch_url p) _ (Hup ["patch.zip"]) w Htgt) as Ht1.
  run.
  set (w1 := post (download_zip E _ (tmpdir ++ _) w)) in *.
  set (v1 := post (download_zip E _ ["patch.zip"] w0)) in *.
  destruct (res (download_zip E _ (tmpdir ++ _) w)) as [z|];
    destruct (res (download_zip E _ ["patch.zip"] w0)) as [z'|]; try done.
  destruct (reloc_extract E HE tmpdir ["patch.zip"] "extracted" [] w1 v1 Hp1)
    as (Hr2 & Hp2).
  assert (Ht2 : get target (fs (post (extract_zip E (tmpdir ++ ["patch.zip"])
                  (tmpdir ++ ["extracted"]) w1))) = Some (Dir ∅)).
  { apply (preserves_extract E (λ t, get target t = Some (Dir ∅))); [| |done].
    - intros r. rewrite <-app_assoc. apply Hup.
    - intros r. apply mk_stable_get. intros Hq.
      destruct (diverge_app_l _ _ (["extracted"] ++ r) Hdiv) as [_ H]. apply H.
      etrans; [done|]. rewrite app_assoc. apply removelast_prefix. }
  run.
  set (w2 := post (extract_zip E (tmpdir ++ _) _ w1)) in *.
  set (v2 := post (extract_zip E ["patch.zip"] _ v1)) in *.
  destruct (res (extract_zip E (tmpdir ++ _) _ w1)) as [x|];
    destruct (res (extract_zip E ["patch.zip"] _ v1)) as [x'|]; try done.
  assert (Hdiv2 : diverge (tmpdir ++ ["extracted"]) target) by by apply diverge_app_l.
  assert (Hpay : get (tmpdir ++ ["extracted"]) (fs w2) = get ["extracted"] (fs v2)).
  { by rewrite get_app, Hp2. }
  run. destruct (get ["extracted"] (fs v2)) as [[d|es]|] eqn:Hes.
  - unfold copy_top_level_folders. run. unfold os_listdir. cbn. by rewrite Hpay.
  - destruct (merge_into_empty E HE _ _ w2 es Hdiv2 Hpay Ht2) as (Hok & _).
    destruct (res (copy_top_level_folders E _ target w2)); [|done].
    run. unfold report_backup. by destruct backup.
  - unfold copy_top_level_folders. run. unfold os_listdir. cbn. by rewrite Hpay.
Qed.

Lemma mkdtemp_succeeds prefix w :
  isdir (tmp_root E) (fs w) = true →
  path_exists (tmp_root E ++ [prefix +:+ entropy w]) (fs w) = false →
  is_ok (res (tempfile_mkdtemp E prefix w)) = true.
Proof.
  intros Hroot Hfree. unfold tempfile_mkdtemp. rewrite (nf_mk E HE), Hfree.
  unfold isdir in Hroot.
  destruct (get (tmp_root E) (fs w)) as [[|cur]|] eqn:Hcur; try done. clear Hroot.
  rename Hcur into Hroot.
  destruct (upd_child (tmp_root E) (prefix +:+ entropy w) (Some (Dir ∅)) (fs w) cur Hroot)
    as (t & Ht & _).
  unfold put. by rewrite Ht.
Qed.

(** The apply pipeline on an empty target, with room for the scratch
    directory. *)
Lemma apply_patch_succeeds (p : patch) target backup w :
  (∀ s, diverge (tmp_root E ++ ["patcher_" +:+ s]) target) →
  get target (fs w) = Some (Dir ∅) →
  isdir (tmp_root E) (fs w) = true →
  (∀ s, path_exists (tmp_root E ++ ["patcher_" +:+ s]) (fs w) = false) →
  existsb is_success (trace (apply_patch E p target backup w)) = deliverable E p.
Proof.
  intros Hdiv Htgt Hroot Hfree.
  pose proof (mkdtemp_succeeds "patcher_" w Hroot (Hfree _)) as Hmk.
  pose proof (preserves_mkdtemp E (λ t, get target t = Some (Dir ∅)) "patcher_"
                (λ s, upd_stable_get _ _ _ (Hdiv s)) w Htgt) as Ht1.
  unfold apply_patch. run. rewrite trace_mkdtemp.
  destruct (res (tempfile_mkdtemp E "patcher_" w)) as [d|] eqn:Hd; [|done].
  destruct (mkdtemp_ok E _ _ _ Hd) as (-> & Htmp).
  rewrite <-(steps_succeed p target backup _ _ (Hdiv _) Htmp Ht1).
  destruct (steps_report E p target backup (tmp_root E ++ ["patcher_" +:+ entropy w])
              (post (tempfile_mkdtemp E "patcher_" w))) as (Hs & _).
  unfold try_finally. cbn [trace post]. rewrite trace_rmtree_ignore. run.
  rewrite !existsb_app, Hs. cbn.
  destruct (res (patch_steps _ _ _ _ _ _)) as [[]|e]; cbn; [done|].
  destruct (is_Exception e); [|done].
  by rewrite (mute_success_failed backup e), orb_false_r.
Qed.

(** A pipeline that reports success had a deliverable archive. *)
Lemma apply_patch_deliverable (p : patch) target backup w :
  (∀ s, diverge (tmp_root E ++ ["patcher_" +:+ s]) target) →
  get target (fs w) = Some (Dir ∅) →
  existsb is_success (trace (apply_patch E p target backup w)) = true →
  deliverable E p = true.
Proof.
  intros Hdiv Htgt.
  pose proof (preserves_mkdtemp E (λ t, get target t = Some (Dir ∅)) "patcher_"
                (λ s, upd_stable_get _ _ _ (Hdiv s)) w Htgt) as Ht1.
  unfold apply_patch. run. rewrite trace_mkdtemp.
  destruct (res (tempfile_mkdtemp E "patcher_" w)) as [d|] eqn:Hd; [|done].
  destruct (mkdtemp_ok E _ _ _ Hd) as (-> & Htmp).
  rewrite <-(steps_succeed p target backup _ _ (Hdiv _) Htmp Ht1).
  destruct (steps_report E p target backup (tmp_root E ++ ["patcher_" +:+ entropy w])
              (post (tempfile_mkdtemp E "patcher_" w))) as (Hs & _).
  unfold try_finally. cbn [trace post]. rewrite trace_rmtree_ignore. run.
  rewrite !existsb_app, Hs. cbn.
  destruct (res (patch_steps _ _ _ _ _ _)) as [[]|e]; cbn; [done|].
  destruct (is_Exception e); [|by rewrite orb_false_r].
  by rewrite (mute_success_failed backup e), orb_false_r.
Qed.

End Success.

(** A session that applies a patch, with everything in place for it. *)
Lemma session_success E target action (p : patch) w es :
  no_faults E →
  target ≠ [] →
  (∀ s, diverge (tmp_root E ++ ["patcher_" +:+ s]) target) →
  (∀ s, diverge (tmp_root E ++ ["patcher_" +:+ s]) (backup_path_of target w)) →
  PATCHES_get action = Some p →
  get target (fs w) = Some (Dir es) →
  path_exists (backup_path_of target w) (fs w) = false →
  isdir (tmp_root E) (fs w) = true →
  (∀ s, path_exists (tmp_root E ++ ["patcher_" +:+ s]) (fs w) = false) →
  existsb is_success (trace (run_session E target action w)) = deliverable E p.
Proof.
  intros HE Hne Hst Hsb Hp Hes Hfree Hroot Hroom.
  pose proof (PATCHES_get_not_clear _ _ Hp) as Hn4.
  assert (Hex : path_exists target (fs w) = true) by (unfold path_exists; by rewrite Hes).
  pose proof (make_backup_ok E target w es Hne Hes (nf_cp E HE _) (nf_mk E HE _) Hfree)
    as Hres.
  pose proof (make_backup_frame E target w Hne) as Hframe. rewrite Hes in Hframe.
  destruct (make_backup_existing E target w Hex) as (_ & _ & _ & Hpost).
  set (bp := backup_path_of target w) in *.
  (* the temporary directory after the backup *)
  assert (Hnb : ¬ bp `prefix_of` tmp_root E).
  { intros H. apply (proj2 (Hsb "")). etrans; [done|]. by apply prefix_app_r. }
  assert (Hnt : ∀ n, ¬ (target ++ [n]) `prefix_of` tmp_root E).
  { intros n H. apply (proj2 (Hst "")). etrans; [|by apply prefix_app_r].
    etrans; [|done]. by apply prefix_app_r. }
  assert (Hroot1 : isdir (tmp_root E) (fs (post (make_backup E target w))) = true).
  { rewrite Hpost.
    apply (preserves_copytree E (λ t, isdir (tmp_root E) t = true)); [| |done].
    - by apply upd_stable_isdir.
    - apply mk_stable_isdir. }
  assert (Hroom1 : ∀ s, path_exists (tmp_root E ++ ["patcher_" +:+ s])
                          (fs (post (make_backup E target w))) = false).
  { intros s. unfold path_exists. rewrite Hpost, copytree_frame.
    - apply Hroom.
    - apply diverge_sym, Hsb. }
  set (w1 := post (make_backup E target w)) in *.
  (* and after the target is cleared *)
  destruct (clear_spec E target w1 es Hframe) as (Hok & Hclear).
  rewrite (nf_ls E HE) in Hok. destruct (Hclear (nf_ls E HE target)) as (Hempty & _).
  rewrite survivors_no_faults in Hempty by done.
  assert (Hroot2 : isdir (tmp_root E) (fs (post (clear_folder_contents E target w1))) = true).
  { apply (preserves_clear E (λ t, isdir (tmp_root E) t = true)); [| |done].
    - intros n. by apply upd_stable_isdir.
    - apply mk_stable_isdir. }
  assert (Hroom2 : ∀ s, path_exists (tmp_root E ++ ["patcher_" +:+ s])
                          (fs (post (clear_folder_contents E target w1))) = false).
  { intros s. unfold path_exists.
    rewrite (clear_keeps_sibling E target _ _ (Hst s) w1 eq_refl). apply Hroom1. }
  set (w2 := post (clear_folder_contents E target w1)) in *.
  pose proof (apply_patch_succeeds E HE p target (Some bp) w2 Hst Hempty Hroot2 Hroom2)
    as Happly.
  pose proof (mute_success_backup E target w) as M1.
  pose proof (mute_success_clear E target w1) as M2.
  clearbody bp. subst w1 w2.
  unfold run_session. rewrite decide_False, Hp by done.
  run. rewrite (ensure_target_present _ _ _ Hex). cbn.
  rewrite Hres. run. rewrite !existsb_app, M1. cbn.
  destruct (res (clear_folder_contents E target _)) as [[]|]; [|done].
  run. rewrite !existsb_app, M2, Happly. cbn.
  destruct (res (apply_patch _ _ _ _ _)); [|by rewrite orb_false_r].
  run. rewrite existsb_app. cbn. unfold input. destruct (stdin _); cbn;
    by rewrite !orb_false_r.
Qed.

(** A session that reports success had a deliverable archive. *)
Lemma session_needs_deliverable E target action (p : patch) w :
  no_faults E →
  target ≠ [] →
  (∀ s, diverge (tmp_root E ++ ["patcher_" +:+ s]) target) →
  PATCHES_get action = Some p →
  existsb is_success (trace (run_session E target action w)) = true →
  deliverable E p = true.
Proof.
  intros HE Hne Hdiv Hp. pose proof (PATCHES_get_not_clear _ _ Hp) as Hn4.
  unfold run_session. run.
  rewrite existsb_app, (mute_success_ensure E target w). cbn.
  destruct (res (ensure_target E target w)) as [[]|] eqn:Hens; [|done].
  apply ensure_target_exists in Hens.
  set (w1 := post (ensure_target E target w)) in *.
  rewrite decide_False by done. rewrite Hp. run.
  rewrite existsb_app, (mute_success_backup E target w1). cbn.
  destruct (make_backup_existing E target w1 Hens) as (_ & _ & Hres & Hpost).
  pose proof (make_backup_frame E target w1 Hne) as Hframe.
  set (w2 := post (make_backup E target w1)) in *.
  rewrite Hres.
  destruct (res (shutil_copytree E target _ w1)) as [bp|] eqn:Hcp; [|done].
  destruct (copytree_needs_dir E target (backup_path_of target w1) w1) as [es Hes];
    [by rewrite Hcp|].
  rewrite <-Hframe in Hes.
  destruct (clear_spec E target w2 es Hes) as (Hok & Hclear).
  rewrite (nf_ls E HE) in Hok. destruct (Hclear (nf_ls E HE target)) as (Hempty & _).
  rewrite survivors_no_faults in Hempty by done.
  run. rewrite existsb_app, (mute_success_clear E target w2). cbn.
  set (w3 := post (clear_folder_contents E target w2)) in *.
  destruct (res (clear_folder_contents E target w2)) as [[]|]; [|done].
  run. rewrite existsb_app.
  intros Hsucc.
  apply (apply_patch_deliverable E HE p target (Some (backup_path_of target w1)) w3 Hdiv
           Hempty).
  apply orb_true_iff in Hsucc as [?|Hsucc]; [done|].
  destruct (res (apply_patch _ _ _ _ _)); [|done].
  rewrite existsb_app in Hsucc. cbn in Hsucc.
  unfold input in Hsucc. by destruct (stdin _).
Qed.

(** X14. When a session succeeds.  In an environment without faults, with
    the target a directory, the backup's name free and room for the scratch
    directory, a session that applies the patch [p] reports success exactly
    when the archive of [p] can be fetched and unpacked and unpacks to a
    directory. *)
Theorem session_succeeds_iff_deliverable E target action (p : patch) w es :
  no_faults E →
  target ≠ [] →
  (∀ s, diverge (tmp_root E ++ ["patcher_" +:+ s]) target) →
  (∀ s, diverge (tmp_root E ++ ["patcher_" +:+ s]) (backup_path_of target w)) →
  PATCHES_get action = Some p →
  get target (fs w) = Some (Dir es) →
  path_exists (backup_path_of target w) (fs w) = false →
  isdir (tmp_root E) (fs w) = true →
  (∀ s, path_exists (tmp_root E ++ ["patcher_" +:+ s]) (fs w) = false) →
  existsb is_success (trace (run_session E target action w)) = deliverable E p.
Proof. apply session_success. Qed.

(** C9, as the code has it.  Without faults, a session that reports success
    leaves under the target what the archive unpacks to, whatever was there
    before.  So when a first session has reported success and a second one
    applies the same patch where the first ended (its backup's name free
    because the clock has moved on, and room for its scratch directory),
    the second reports success too and leaves the tree the first left. *)
Theorem applying_twice_changes_nothing E target action (p : patch) w w' :
  no_faults E →
  target ≠ [] →
  (∀ s, diverge (tmp_root E ++ ["patcher_" +:+ s]) target) →
  (∀ s, diverge (tmp_root E ++ ["patcher_" +:+ s]) (backup_path_of target w')) →
  PATCHES_get action = Some p →
  let once := run_session E target action w in
  let twice := run_session E target action w' in
  existsb is_success (trace once) = true →
  fs w' = fs (post once) →
  path_exists (backup_path_of target w') (fs w') = false →
  isdir (tmp_root E) (fs w') = true →
  (∀ s, path_exists (tmp_root E ++ ["patcher_" +:+ s]) (fs w') = false) →
  existsb is_success (trace twice) = true
  ∧ get target (fs (post twice)) = get target (fs (post once)).
Proof.
  intros HE Hne Hst Hsb Hp once twice Hsucc Hfs Hfree Hroot Hroom. subst once twice.
  pose proof (session_needs_deliverable E target action p w HE Hne Hst Hp Hsucc) as Hdel.
  pose proof (session_leaves_payload E target action p w HE Hne Hst Hp Hsucc) as Hpay.
  assert (∃ pay, payload E p = Some (Dir pay)) as [pay Hdir].
  { unfold deliverable in Hdel. apply andb_true_iff in Hdel as [_ Hdel].
    destruct (payload E p) as [[|pay]|]; try done. eauto. }
  assert (Hes : get target (fs w') = Some (Dir pay)) by by rewrite Hfs, Hpay.
  assert (Hsucc' : existsb is_success (trace (run_session E target action w')) = true).
  { by rewrite (session_success E target action p w' pay). }
  split; [done|].
  by rewrite (session_leaves_payload E target action p w'), Hpay.
Qed.


(** * Warnings of the merge *)

Section MergeWarning.

Context (E : env).

Lemma leftover_exists f p t :
  path_exists p t = true → path_exists p (leftover f p t) = true.
Proof.
  intros H. destruct f as [| |rest]; cbn; [done..|].
  destruct (put p rest t) as [t'|] eqn:Hput; cbn; [|done].
  unfold path_exists. rewrite <-(app_nil_r p).
  by rewrite (get_upd_same _ _ _ _ _ Hput).
Qed.

(** An entry whose removal failed is still there. *)
Lemma rmtree_failed_exists p w :
  path_exists p (fs w) = true →
  is_ok (res (shutil_rmtree E p w)) = false →
  path_exists p (fs (post (shutil_rmtree E p w))) = true.
Proof.
  intros Hex. unfold shutil_rmtree, commit, abort.
  repeat case_match; cbn; try done; intros _;
    by apply (leftover_exists (Partial _)).
Qed.

Lemma remove_failed_exists p w :
  path_exists p (fs w) = true →
  is_ok (res (os_remove E p w)) = false →
  path_exists p (fs (post (os_remove E p w))) = true.
Proof.
  intros Hex. unfold os_remove, commit, abort.
  repeat case_match; cbn; try done; intros _;
    by apply (leftover_exists (Partial _)).
Qed.

(** [shutil.copytree] never writes over an entry that exists. *)
Lemma copytree_refuses_existing src dst w :
  path_exists dst (fs w) = true →
  is_ok (res (shutil_copytree E src dst w)) = false.
Proof.
  intros Hex. unfold shutil_copytree, commit, abort. rewrite Hex.
  repeat case_match; cbn; done.
Qed.

Lemma copy_entry_warning src_root dst_root applied name w :
  existsb is_warning (trace (copy_entry E src_root dst_root applied name w)) = true →
  is_ok (res (copy_entry E src_root dst_root applied name w)) = false
  ∧ last (trace (copy_entry E src_root dst_root applied name w))
    = Some (Sys (Copytree (src_root ++ [name]) (dst_root ++ [name])) false).
Proof.
  set (src := src_root ++ [name]). set (dst := dst_root ++ [name]).
  unfold copy_entry. fold src dst. run.
  destruct (isdir src (fs w)).
  2: { run. rewrite one_call_copy2. cbn.
       destruct (res (shutil_copy2 E src dst w)) as [?|e]; cbn; [done|].
       by destruct (is_Exception e). }
  run. destruct (path_exists dst (fs w)) eqn:Hex.
  2: { run. rewrite one_call_copytree.
       destruct (res (shutil_copytree E src dst w)); cbn; done. }
  run. destruct (isdir dst (fs w)); run.
  - rewrite one_call_rmtree.
    pose proof (rmtree_failed_exists dst w Hex) as Hleft.
    destruct (res (shutil_rmtree E dst w)) as [[]|e] eqn:Hrm; cbn.
    { rewrite one_call_copytree. destruct (res (shutil_copytree _ _ _ _)); cbn; done. }
    specialize (Hleft eq_refl).
    destruct (is_Exception e); cbn; [|done].
    pose proof (copytree_refuses_existing src dst _ Hleft) as Hcp.
    rewrite one_call_copytree.
    destruct (res (shutil_copytree _ _ _ _)); cbn in *; done.
  - rewrite one_call_remove.
    pose proof (remove_failed_exists dst w Hex) as Hleft.
    destruct (res (os_remove E dst w)) as [[]|e] eqn:Hrm; cbn.
    { rewrite one_call_copytree. destruct (res (shutil_copytree _ _ _ _)); cbn; done. }
    specialize (Hleft eq_refl).
    destruct (is_Exception e); cbn; [|done].
    pose proof (copytree_refuses_existing src dst _ Hleft) as Hcp.
    rewrite one_call_copytree.
    destruct (res (shutil_copytree _ _ _ _)); cbn in *; done.
Qed.

Lemma merge_loop_warning src_root dst_root l : ∀ applied w,
  existsb is_warning (trace (for_fold l applied (copy_entry E src_root dst_root) w)) = true →
  is_ok (res (for_fold l applied (copy_entry E src_root dst_root) w)) = false
  ∧ ∃ n, n ∈ l
    ∧ last (trace (for_fold l applied (copy_entry E src_root dst_root) w))
      = Some (Sys (Copytree (src_root ++ [n]) (dst_root ++ [n])) false).
Proof.
  induction l as [|x l IH]; intros applied w; cbn [for_fold]; [done|].
  rewrite trace_bind, res_bind, existsb_app.
  intros [Hw|Hw]%orb_true_iff.
  - destruct (copy_entry_warning _ _ _ _ _ Hw) as (Hr & Hl).
    destruct (res (copy_entry _ _ _ _ _ _)); [done|].
    split; [done|]. exists x. split; [left|]. by rewrite app_nil_r.
  - destruct (res (copy_entry _ _ _ _ _ _)) as [a|]; [|done].
    destruct (IH _ _ Hw) as (Hr & n & Hn & Hl).
    split; [done|]. exists n. split; [by right|]. by rewrite last_app, Hl.
Qed.

End MergeWarning.

(** X15. A warning of the merge is never the end of it.  When an entry of
    the target that is in the way cannot be removed, the failure is caught
    and reported; but the entry is then still there, so the
    [shutil.copytree] that follows refuses to write over it and the merge
    ends with that exception: the entries after it are not processed. *)
Theorem removal_warning_is_fatal_to_the_merge E src_root dst_root w :
  let o := copy_top_level_folders E src_root dst_root w in
  existsb is_warning (trace o) = true →
  is_ok (res o) = false
  ∧ ∃ n, last (trace o)
         = Some (Sys (Copytree (src_root ++ [n]) (dst_root ++ [n])) false).
Proof.
  intros o. subst o. unfold copy_top_level_folders.
  rewrite trace_bind, res_bind.
  assert (trace (os_listdir E src_root w) = []) as -> by done.
  assert (post (os_listdir E src_root w) = w) as -> by done.
  destruct (res (os_listdir E src_root w)) as [l|]; [|done]. cbn [app].
  intros Hw. destruct (merge_loop_warning E _ _ _ _ _ Hw) as (Hr & n & _ & Hl). eauto.
Qed.

(** X16. The merge adds to the target and replaces in it; it takes nothing
    else away.  Whether it returns or fails half-way, a child of the target
    whose name the extraction does not have is as it was, and so is
    everything outside the target, the extraction among it. *)
Theorem merge_leaves_the_rest E src_root dst_root w es cur :
  diverge src_root dst_root →
  get src_root (fs w) = Some (Dir es) →
  get dst_root (fs w) = Some (Dir cur) →
  let o := copy_top_level_folders E src_root dst_root w in
  (∀ n, es !! n = None → get (dst_root ++ [n]) (fs (post o)) = cur !! n)
  ∧ (∀ q, diverge dst_root q → get q (fs (post o)) = get q (fs w))
  ∧ get src_root (fs (post o)) = Some (Dir es).
Proof.
  intros Hdiv Hsrc Hdst o. subst o.
  assert (Hframe : ∀ q, diverge dst_root q →
            get q (fs (post (copy_top_level_folders E src_root dst_root w)))
            = get q (fs w)).
  { intros q Hq.
    apply (preserves_merge E (λ t, get q t = get q (fs w))); [| |done].
    - intros n r. apply upd_stable_get, diverge_app_l, Hq.
    - intros n. apply mk_stable_get, diverge_not_prefix_app, Hq. }
  split_and!; [|done|].
  - intros n Hn.
    destruct (merge_loop_spec E src_root dst_root es (names es) (NoDup_names es)
                Hdiv [] w cur Hsrc Hdst) as (cur' & Hdst' & Hout & _).
    cbn zeta in *.
    unfold copy_top_level_folders. rewrite post_bind.
    assert (post (os_listdir E src_root w) = w) as -> by done.
    unfold os_listdir at 1. cbn [peek res]. rewrite Hsrc.
    destruct (ls_denied E src_root); cbn [res].
    + by rewrite (get_child _ _ _ _ Hdst).
    + rewrite (get_child _ _ _ _ Hdst'). apply Hout.
      rewrite elem_of_names, Hn. by intros [].
  - rewrite Hframe; [done|]. by apply diverge_sym.
Qed.

(** * The download *)





Section DownloadContent.

Context (E : env) (dest : path).
Context (Hwr : ∀ n, wr_denied E dest n = false).




End DownloadContent.



(** X18. A request that fails, a status between 400 and 599, or a
    [content-length] that [isdigit] accepts and [int] does not: each ends
    [download_zip] with its exception before the destination is opened.
    The file system is as it was, and no file was created or written. *)
Theorem bad_response_leaves_no_file E url dest w e :
  response_error E url = Some e →
  let o := download_zip E url dest w in
  res o = Raise e
  ∧ fs (post o) = fs w
  ∧ existsb is_file_write (trace o) = false.
Proof.
  intros Hbad o. subst o. unfold response_error in Hbad.
  unfold download_zip. run.
  destruct (http E url) as [e'|r] eqn:Hr.
  - injection Hbad as ->. by rewrite (requests_get_inl E url w e Hr).
  - rewrite (requests_get_inr E url w r Hr). cbn.
    unfold raise_for_status. fold (is_error_status r).
    destruct (is_error_status r); [by injection Hbad as <-|]. cbn.
    destruct (parse_total (content_length r)); [done|]. by injection Hbad as ->.
Qed.

(** * What extraction writes *)



(** Nothing exists below a file, and nothing can be created there. *)
Lemma get_below_file q x r t d :
  get q t = Some (File d) → get (q ++ x :: r) t = None.
Proof. intros H. by rewrite get_app, H. Qed.




Lemma string_app_empty_l (s : string) : "" +:+ s = s.
Proof. done. Qed.

Section Extraction.

Context (E : env) (dest : path).





End Extraction.

Section ExtractAll.

Context (E : env) (dest : path).





End ExtractAll.



(** * An archive without members *)

Lemma steps_without_members E (p : patch) target backup tmpdir w :
  get (tmpdir ++ ["extracted"]) (fs w) = None →
  is_ok (res (download_zip E (patch_url p) (tmpdir ++ ["patch.zip"]) w)) = true →
  res (zipfile_open E (tmpdir ++ ["patch.zip"])
         (post (download_zip E (patch_url p) (tmpdir ++ ["patch.zip"]) w))) = Ok [] →
  let o := patch_steps E p target backup tmpdir w in
  res o = Raise (OSError "FileNotFoundError" (tmpdir ++ ["extracted"]))
  ∧ existsb is_success (trace o) = false
  ∧ path_exists (tmpdir ++ ["extracted"]) (fs (post o)) = false.
Proof.
  intros Hnone Hdl Hzip o. subst o.
  assert (Hnone' : get (tmpdir ++ ["extracted"])
                     (fs (post (download_zip E (patch_url p) (tmpdir ++ ["patch.zip"]) w)))
                   = None).
  { apply (preserves_download E (λ t, get (tmpdir ++ ["extracted"]) t = None)); [|done].
    apply upd_stable_get, diverge_siblings. done. }
  pose proof (mute_success_download E (patch_url p) (tmpdir ++ ["patch.zip"]) w) as M1.
  set (w2 := post (download_zip E (patch_url p) (tmpdir ++ ["patch.zip"]) w)) in *.
  assert (Hex : extract_zip E (tmpdir ++ ["patch.zip"]) (tmpdir ++ ["extracted"]) w2
                = Outcome (Ok (tmpdir ++ ["extracted"])) w2
                    [Say "Extracting zip..."; SayPath "Extracted to:" (tmpdir ++ ["extracted"])]).
  { unfold extract_zip, bind. cbn. rewrite Hzip. by unfold zip_extractall. }
  assert (Hmerge : copy_top_level_folders E (tmpdir ++ ["extracted"]) target w2
                   = Outcome (Raise (OSError "FileNotFoundError" (tmpdir ++ ["extracted"])))
                       w2 []).
  { unfold copy_top_level_folders, bind, os_listdir, peek. cbn. by rewrite Hnone'. }
  subst w2.
  unfold patch_steps. run.
  destruct (res (download_zip E _ _ w)); [|done].
  rewrite Hex. cbn. rewrite Hmerge. cbn.
  unfold path_exists. by rewrite existsb_app, M1, Hnone'.
Qed.

(** X20. [extractall] creates the destination only on the way to a member.
    For an archive without members nothing is created, so the merge finds
    no extraction directory to list: the pipeline fails with
    [FileNotFoundError], which is reported like any other failure. *)
Theorem empty_archive_fails_the_session E (p : patch) target backup w :
  let tmpdir := tmpdir_of E w in
  let zip_path := tmpdir ++ ["patch.zip"] in
  let extract_dir := tmpdir ++ ["extracted"] in
  let w1 := post (tempfile_mkdtemp E "patcher_" w) in
  let w2 := post (download_zip E (patch_url p) zip_path w1) in
  is_ok (res (tempfile_mkdtemp E "patcher_" w)) = true →
  is_ok (res (download_zip E (patch_url p) zip_path w1)) = true →
  res (zipfile_open E zip_path w2) = Ok [] →
  let o := apply_patch E p target backup w in
  res o = Ok tt
  ∧ SayExn "ERROR during patch application:" (OSError "FileNotFoundError" extract_dir)
    ∈ trace o
  ∧ existsb is_success (trace o) = false.
Proof.
  intros tmpdir zip_path extract_dir w1 w2 Hmk Hdl Hzip o.
  subst tmpdir zip_path extract_dir w1 w2 o. unfold tmpdir_of in *.
  destruct (res (tempfile_mkdtemp E "patcher_" w)) as [d|] eqn:Hd; [|done].
  destruct (mkdtemp_ok E _ _ _ Hd) as (-> & Htmp).
  destruct (steps_without_members E p target backup _ _
              (eq_trans (get_child _ "extracted" _ _ Htmp) (lookup_empty _)) Hdl Hzip)
    as (Hres & Hsucc & _).
  unfold apply_patch. run. rewrite Hd.
  unfold try_finally. cbn [res post trace]. rewrite res_rmtree_ignore.
  rewrite trace_mkdtemp, trace_rmtree_ignore.
  run. rewrite Hres. cbn. unfold patch_failed, report_backup. run.
  split_and!.
  - by destruct backup.
  - rewrite !elem_of_cons, !elem_of_app, !elem_of_cons. auto 10.
  - rewrite !existsb_app, Hsucc. cbn. by destruct backup.
Qed.

(** * The scenarios, run *)

Lemma diverge_heads x y (p q : path) : x ≠ y → diverge (x :: p) (y :: q).
Proof. intros H. by apply (diverge_siblings [] x y p q). Qed.

Lemma no_faults_plain : no_faults E_plain.
Proof. by split. Qed.

Lemma scratch_diverges s : diverge (tmp_root E_plain ++ ["patcher_" +:+ s]) home.
Proof. by apply diverge_heads. Qed.

(** The checker of C1 does tell traces apart: a removal before the backup is
    refused, and the sessions it accepts do remove entries. *)
Example backup_first_refuses_early_removal :
  backup_first home
    [Sys (Rmtree (home ++ ["old"])) true; Sys (Copytree home ["home"; "b"]) true] = false.
Proof. reflexivity. Qed.

Example session_removes_after_backup :
  existsb is_removal (trace (run_session E_plain home "1" w_home)) = true.
Proof. vm_compute. reflexivity. Qed.

(** C2 fails on the code.  The target is absent; [main] creates it before it
    calls [make_backup], which therefore finds it, copies the empty
    directory and returns the path of that backup: the branch of
    [make_backup] that skips the backup is never taken in a session. *)
Theorem absent_target_is_backed_up_all_the_same :
  path_exists home (fs w_bare) = false
  ∧ res (run_session E_plain home "4" w_bare) = Ok tt
  ∧ existsb (is_backup_of home) (trace (run_session E_plain home "4" w_bare)) = true
  ∧ last (removelast (trace (run_session E_plain home "4" w_bare)))
    = Some (SayPath "Backup located at:" ["home"; "resource_backup_20260101-000000"])
  ∧ get ["home"; "resource_backup_20260101-000000"]
        (fs (post (run_session E_plain home "4" w_bare))) = Some (Dir ∅).
Proof. vm_compute. by split_and!. Qed.

(** In no session does [make_backup] skip the backup. *)
Lemma make_backup_never_skips E target w b :
  res (ensure_target E target w) = Ok tt →
  res (make_backup E target (post (ensure_target E target w))) = Ok b →
  b = Some (backup_path_of target (post (ensure_target E target w))).
Proof.
  intros Hens%ensure_target_exists Hb.
  destruct (make_backup_existing E target _ Hens) as (_ & Hok & _).
  rewrite Hb in Hok. specialize (Hok eq_refl). congruence.
Qed.

(** C3 at work: the download succeeds, the archive unpacks, the merge runs,
    and the scratch directory is gone at the end. *)
Lemma staging_always_released_witness :
  last (trace (apply_patch E_plain patch_1 home None w_cleared))
  = Some (Sys (Rmtree scratch) true)
  ∧ path_exists scratch (fs (post (apply_patch E_plain patch_1 home None w_cleared)))
    = false.
Proof.
  apply (staging_always_released E_plain patch_1 home None w_cleared).
  - vm_compute. reflexivity.
  - intros [k Hk]. discriminate Hk.
  - reflexivity.
Defined.

(** The same when the merge fails: copying the first pack is denied. *)
Example staging_released_after_failure :
  existsb is_failure
    (trace (apply_patch (E_copy_fails (extracted ++ ["packA"]) Denied)
              patch_1 home None w_cleared)) = true
  ∧ path_exists scratch
      (fs (post (apply_patch (E_copy_fails (extracted ++ ["packA"]) Denied)
                   patch_1 home None w_cleared))) = false.
Proof. vm_compute. by split. Qed.



(** C5 at work: the copy to the backup breaks off half-way. *)
Lemma backup_failure_stops_session_witness :
  res (run_session (E_copy_fails home (Partial (Dir ∅))) home "1" w_home)
  = Raise (ShutilError home)
  ∧ post (run_session (E_copy_fails home (Partial (Dir ∅))) home "1" w_home)
    = post (make_backup (E_copy_fails home (Partial (Dir ∅))) home
              (post (ensure_target (E_copy_fails home (Partial (Dir ∅))) home w_home)))
  ∧ get home (fs (post (run_session (E_copy_fails home (Partial (Dir ∅))) home "1" w_home)))
    = get home (fs (post (ensure_target (E_copy_fails home (Partial (Dir ∅))) home w_home)))
  ∧ last (trace (run_session (E_copy_fails home (Partial (Dir ∅))) home "1" w_home))
    = Some (Sys (Copytree home
                   (backup_path_of home
                      (post (ensure_target (E_copy_fails home (Partial (Dir ∅))) home
                               w_home))))
                false).
Proof.
  apply (backup_failure_stops_session (E_copy_fails home (Partial (Dir ∅))) home "1"
           w_home (ShutilError home)).
  - done.
  - right. vm_compute. by eexists.
  - vm_compute. reflexivity.
  - vm_compute. reflexivity.
Defined.

(** C6 at work: the old pack cannot be removed, the file beside it can. *)
Lemma clear_is_best_effort_witness :
  is_ok (res (clear_folder_contents (E_remove_fails (home ++ ["old"])) home w_home))
  = true
  ∧ survivors (E_remove_fails (home ++ ["old"])) home old_entries !! "junk.txt" = None
  ∧ is_Some (survivors (E_remove_fails (home ++ ["old"])) home old_entries !! "old")
  ∧ ∃ e, Warn "failed to remove" (home ++ ["old"]) e
         ∈ trace (clear_folder_contents (E_remove_fails (home ++ ["old"])) home w_home).
Proof.
  destruct (clear_is_best_effort (E_remove_fails (home ++ ["old"])) home w_home old_entries)
    as (Hok & Hrest).
  { vm_compute. reflexivity. }
  destruct (Hrest eq_refl) as (_ & Hall).
  destruct (Hall "junk.txt") as (Hgone & _).
  destruct (Hall "old") as (_ & Hkept).
  destruct Hkept as (Hold & Hwarn); [done|by eexists|].
  split_and!; [done|by apply Hgone|done..].
Defined.

(** C7 as stated fails on the code: when the copy of a top-level directory
    fails, the merge stops there.  The session reports an error and no
    success, and the pack that comes next in the listing is not copied. *)
Lemma directory_copy_failure_is_fatal :
  names unpacked = ["evil.txt"; "readme.txt"; "packA"; "packB"]
  ∧ existsb is_success
      (trace (run_session (E_copy_fails (extracted ++ ["packA"]) Denied) home "1" w_home))
    = false
  ∧ existsb is_failure
      (trace (run_session (E_copy_fails (extracted ++ ["packA"]) Denied) home "1" w_home))
    = true
  ∧ get (home ++ ["packB"])
      (fs (post (run_session (E_copy_fails (extracted ++ ["packA"]) Denied) home "1" w_home)))
    = None.
Proof. vm_compute. by split_and!. Qed.

Lemma readme_is_no_directory n :
  is_dir_child unpacked n = true →
  can_replace (E_copy_fails (extracted ++ ["readme.txt"]) Denied) extracted home ∅ n.
Proof.
  intros Hn. split_and!; [|done|by left].
  cbn. destruct (decide _) as [Heq|]; [|done].
  injection Heq as ->. vm_compute in Hn. done.
Qed.

Lemma file_copy_failures_are_skipped_witness :
  res (apply_patch (E_copy_fails (extracted ++ ["readme.txt"]) Denied)
         patch_1 home None w_cleared) = Ok tt
  ∧ existsb is_success
      (trace (apply_patch (E_copy_fails (extracted ++ ["readme.txt"]) Denied)
                patch_1 home None w_cleared)) = true
  ∧ existsb is_failure
      (trace (apply_patch (E_copy_fails (extracted ++ ["readme.txt"]) Denied)
                patch_1 home None w_cleared)) = false
  ∧ skipped "readme.txt"
    ∈ trace (apply_patch (E_copy_fails (extracted ++ ["readme.txt"]) Denied)
               patch_1 home None w_cleared).
Proof.
  destruct (file_copy_failures_are_skipped
              (E_copy_fails (extracted ++ ["readme.txt"]) Denied)
              patch_1 home None w_cleared unpacked ∅)
    as (Hres & Hsucc & Hfail & _ & Hskip).
  - vm_compute. reflexivity.
  - vm_compute. reflexivity.
  - vm_compute. reflexivity.
  - vm_compute. reflexivity.
  - vm_compute. reflexivity.
  - by apply diverge_heads.
  - reflexivity.
  - apply readme_is_no_directory.
  - split_and!; [done..|]. apply (Hskip "readme.txt" "hi"); [by vm_compute|].
    cbn. by rewrite decide_True.
Defined.

(** C8 as stated fails on the code: the server announces no length, two
    chunks are written, and nothing is reported until the closing line. *)
Lemma no_length_no_progress :
  content_length (answer None) = None
  ∧ trace (download_zip E_no_length "u" (tmp ++ ["z"]) w_home)
    = [SayStr "Downloading patch from:" "u"; Sys (HttpGet "u") true;
       Sys (OpenW (tmp ++ ["z"])) true;
       Sys (WriteChunk (tmp ++ ["z"]) 2) true;
       Sys (WriteChunk (tmp ++ ["z"]) 2) true;
       Say "  download complete."].
Proof. vm_compute. by split. Qed.

Example progress_with_length :
  trace (download_zip E_plain "u" (tmp ++ ["z"]) w_home)
  = [SayStr "Downloading patch from:" "u"; Sys (HttpGet "u") true;
     Sys (OpenW (tmp ++ ["z"])) true;
     Sys (WriteChunk (tmp ++ ["z"]) 2) true; Progress 2 4 50;
     Sys (WriteChunk (tmp ++ ["z"]) 2) true; Progress 4 4 100;
     Downloaded 4 4].
Proof. vm_compute. reflexivity. Qed.

(** C9 at work: a second session, one second later, on what the first one
    left. *)
Lemma applying_twice_changes_nothing_witness :
  existsb is_success
    (trace (run_session E_plain home "1"
              (World (fs (post (run_session E_plain home "1" w_home)))
                     [""; ""] "20260101-000001" "abc"))) = true
  ∧ get home
      (fs (post (run_session E_plain home "1"
                   (World (fs (post (run_session E_plain home "1" w_home)))
                          [""; ""] "20260101-000001" "abc"))))
    = get home (fs (post (run_session E_plain home "1" w_home))).
Proof.
  apply (applying_twice_changes_nothing E_plain home "1" patch_1 w_home
           (World (fs (post (run_session E_plain home "1" w_home)))
                  [""; ""] "20260101-000001" "abc")).
  - apply no_faults_plain.
  - done.
  - apply scratch_diverges.
  - intros s. apply diverge_heads. discriminate.
  - vm_compute. reflexivity.
  - vm_compute. reflexivity.
  - reflexivity.
  - vm_compute. reflexivity.
  - vm_compute. reflexivity.
  - intros s. vm_compute. reflexivity.
Defined.

(** C9 as stated fails on the code.  The first session puts [packA] into
    the target and reports success.  In the second, [packA] cannot be
    removed: clearing leaves it with a warning, the merge cannot remove it
    either and its [shutil.copytree] then fails on the existing directory.
    The second session reports an error and leaves the target without
    [packB], which the first had put there. *)
Lemma second_application_can_fail :
  existsb is_success
    (trace (run_session (E_remove_fails (home ++ ["packA"])) home "1" w_home)) = true
  ∧ fs w_again
    = fs (post (run_session (E_remove_fails (home ++ ["packA"])) home "1" w_home))
  ∧ existsb is_success
      (trace (run_session (E_remove_fails (home ++ ["packA"])) home "1" w_again)) = false
  ∧ existsb is_failure
      (trace (run_session (E_remove_fails (home ++ ["packA"])) home "1" w_again)) = true
  ∧ is_Some (get (home ++ ["packB"])
               (fs (post (run_session (E_remove_fails (home ++ ["packA"])) home "1" w_home))))
  ∧ get (home ++ ["packB"])
      (fs (post (run_session (E_remove_fails (home ++ ["packA"])) home "1" w_again)))
    = None
  ∧ get home (fs (post (run_session (E_remove_fails (home ++ ["packA"])) home "1" w_again)))
    ≠ get home (fs (post (run_session (E_remove_fails (home ++ ["packA"])) home "1" w_home))).
Proof.
  assert (Hfirst : is_Some (get (home ++ ["packB"])
            (fs (post (run_session (E_remove_fails (home ++ ["packA"])) home "1" w_home))))).
  { vm_compute. eauto. }
  assert (Hsecond : get (home ++ ["packB"])
            (fs (post (run_session (E_remove_fails (home ++ ["packA"])) home "1" w_again)))
          = None).
  { vm_compute. reflexivity. }
  split_and!; [vm_compute; reflexivity|reflexivity|vm_compute; reflexivity
              |vm_compute; reflexivity|done|done|].
  intros Heq. rewrite get_app, Heq, <-get_app in Hsecond.
  rewrite Hsecond in Hfirst. clear Heq. destruct Hfirst as [x Hx]. discriminate Hx.
Qed.

Example payload_of_the_archive : payload E_plain patch_1 = Some (Dir unpacked).
Proof. vm_compute. reflexivity. Qed.

(** C10 at work, on the extraction of the archive with one file that cannot
    be copied. *)
Lemma applied_is_the_copied_directories_witness :
  res (copy_top_level_folders (E_copy_fails (extracted ++ ["readme.txt"]) Denied)
         extracted home
         (World (Dir (<["tmp" := Dir (<["patcher_abc" :=
                         Dir (<["extracted" := Dir unpacked]> ∅)]> ∅)]>
                      (<["home" := Dir (<["resource" := Dir ∅]> ∅)]> ∅)))
                [] "" ""))
  = Ok ["packA"; "packB"].
Proof.
  destruct (applied_is_the_copied_directories
              (E_copy_fails (extracted ++ ["readme.txt"]) Denied) extracted home
              (World (Dir (<["tmp" := Dir (<["patcher_abc" :=
                              Dir (<["extracted" := Dir unpacked]> ∅)]> ∅)]>
                           (<["home" := Dir (<["resource" := Dir ∅]> ∅)]> ∅)))
                     [] "" "")
              unpacked ∅) as (Hok & Hres).
  - by apply diverge_heads.
  - vm_compute. reflexivity.
  - vm_compute. reflexivity.
  - specialize (Hok eq_refl readme_is_no_directory).
    destruct (res (copy_top_level_folders _ _ _ _)) as [a|]; [|done].
    destruct (Hres a eq_refl) as (-> & _). vm_compute. reflexivity.
Defined.

(** * The further properties at work *)

(** A third installation type is not on offer. *)
Lemma invalid_version_exits_untouched_witness :
  res (main E_plain (w_asked ["3"])) = Raise (SystemExit 1)
  ∧ fs (post (main E_plain (w_asked ["3"]))) = fs_home
  ∧ stdin (post (main E_plain (w_asked ["3"]))) = []
  ∧ existsb is_call (trace (main E_plain (w_asked ["3"]))) = false
  ∧ last (trace (main E_plain (w_asked ["3"]))) = Some (Say "Invalid selection. Exiting.").
Proof.
  apply (invalid_version_exits_untouched E_plain (w_asked ["3"]) "3" []).
  - reflexivity.
  - vm_compute. discriminate.
  - vm_compute. discriminate.
Defined.

(** Nor is a fifth action. *)
Lemma invalid_action_exits_untouched_witness :
  res (main E_plain (w_asked ["1"; "5"])) = Raise (SystemExit 1)
  ∧ fs (post (main E_plain (w_asked ["1"; "5"]))) = fs_home
  ∧ existsb is_call (trace (main E_plain (w_asked ["1"; "5"]))) = false
  ∧ last (trace (main E_plain (w_asked ["1"; "5"])))
    = Some (Say "Invalid selection. Exiting.").
Proof.
  apply (invalid_action_exits_untouched E_plain (w_asked ["1"; "5"]) "1" "5" []).
  - reflexivity.
  - left. reflexivity.
  - vm_compute. intros H. by repeat (apply elem_of_cons in H as [H|H]; [discriminate H|]);
      apply elem_of_nil in H.
Defined.

(** A tab before the answer and a carriage return after it. *)
Lemma prompts_ignore_surrounding_blanks_witness :
  prompt_version E_plain (w_asked [String "009"%char ("2" +:+ String "013"%char "")])
  = prompt_version E_plain (w_asked ["2"])
  ∧ prompt_action (w_asked [String "009"%char ("2" +:+ String "013"%char "")])
    = prompt_action (w_asked ["2"]).
Proof.
  apply (prompts_ignore_surrounding_blanks E_plain
           (w_asked [String "009"%char ("2" +:+ String "013"%char "")])
           (String "009"%char "") "2" (String "013"%char "") []).
  - reflexivity.
  - reflexivity.
  - reflexivity.
Defined.

(** The GDK installation, cleared. *)
Lemma main_runs_the_session_witness :
  res (main E_plain (w_asked ["2"; "4"; ""]))
  = res (run_session E_plain (expand E_plain PATH_GDK) "4" (w_asked [""])).
Proof.
  destruct (main_runs_the_session E_plain (w_asked ["2"; "4"; ""]) "2" "4" [""])
    as (Hres & _).
  - reflexivity.
  - right. reflexivity.
  - vm_compute. do 3 right. left.
  - exact Hres.
Defined.

(** The backup of the target of [w_home]. *)
Lemma backup_holds_the_tree_witness :
  res (make_backup E_plain home w_home) = Ok (Some home_backup)
  ∧ get home_backup (fs (post (make_backup E_plain home w_home))) = Some (Dir old_entries).
Proof.
  destruct (backup_holds_the_tree E_plain home w_home) as (_ & Hcopy & Hok).
  - discriminate.
  - assert (res (make_backup E_plain home w_home) = Ok (Some home_backup)) as Hres.
    { apply (Hok old_entries); reflexivity. }
    split; [exact Hres|].
    destruct (Hcopy home_backup Hres) as (_ & es & Hes & Hb & _).
    vm_compute in Hes. injection Hes as <-. exact Hb.
Defined.

(** A second backup before the clock has moved on. *)
Lemma second_backup_in_the_same_second_fails_witness :
  res (make_backup E_plain home (post (make_backup E_plain home w_home)))
  = Raise (OSError "FileExistsError" home_backup)
  ∧ fs (post (make_backup E_plain home (post (make_backup E_plain home w_home))))
    = fs (post (make_backup E_plain home w_home)).
Proof.
  apply (second_backup_in_the_same_second_fails E_plain home w_home
           (post (make_backup E_plain home w_home)) home_backup).
  - discriminate.
  - vm_compute. reflexivity.
  - reflexivity.
  - reflexivity.
Defined.



(** The merge fails on the first pack; the backup is there all the same. *)
Lemma backup_outlives_the_session_witness :
  existsb is_failure
    (trace (run_session (E_copy_fails (extracted ++ ["packA"]) Denied) home "1" w_home))
  = true
  ∧ get home_backup
      (fs (post (run_session (E_copy_fails (extracted ++ ["packA"]) Denied) home "1" w_home)))
    = Some (Dir old_entries).
Proof.
  split; [vm_compute; reflexivity|].
  apply (backup_outlives_the_session (E_copy_fails (extracted ++ ["packA"]) Denied)
           home "1" w_home old_entries home_backup).
  - discriminate.
  - right. vm_compute. eauto.
  - intros s. apply diverge_heads. discriminate.
  - reflexivity.
  - vm_compute. reflexivity.
Defined.

Lemma clear_only_empties_and_backs_up_witness :
  get home (fs (post (run_session E_plain home "4" w_home))) = Some (Dir ∅)
  ∧ get home_backup (fs (post (run_session E_plain home "4" w_home)))
    = Some (Dir old_entries).
Proof.
  destruct (clear_only_empties_and_backs_up E_plain home w_home old_entries)
    as (_ & Hempty & Hbackup & _).
  - apply no_faults_plain.
  - discriminate.
  - reflexivity.
  - reflexivity.
  - split; [exact Hempty|exact Hbackup].
Defined.

Lemma successful_session_installs_the_archive_witness :
  get home (fs (post (run_session E_plain home "1" w_home))) = Some (Dir unpacked)
  ∧ get home_backup (fs (post (run_session E_plain home "1" w_home)))
    = Some (Dir old_entries).
Proof.
  rewrite <-payload_of_the_archive.
  apply (successful_session_installs_the_archive E_plain home "1" patch_1 w_home
           old_entries).
  - apply no_faults_plain.
  - discriminate.
  - apply scratch_diverges.
  - intros s. apply diverge_heads. discriminate.
  - vm_compute. reflexivity.
  - reflexivity.
  - reflexivity.
  - vm_compute. reflexivity.
Defined.

Lemma session_succeeds_iff_deliverable_witness :
  existsb is_success (trace (run_session E_plain home "1" w_home)) = true
  ∧ existsb is_success (trace (run_session E_empty_archive home "1" w_home)) = false.
Proof.
  split.
  - rewrite (session_succeeds_iff_deliverable E_plain home "1" patch_1 w_home old_entries).
    + vm_compute. reflexivity.
    + apply no_faults_plain.
    + discriminate.
    + apply scratch_diverges.
    + intros s. apply diverge_heads. discriminate.
    + vm_compute. reflexivity.
    + reflexivity.
    + reflexivity.
    + reflexivity.
    + intros s. reflexivity.
  - vm_compute. reflexivity.
Defined.

(** A pack of the last session that cannot be removed stops the merge at
    that pack. *)
Lemma removal_warning_is_fatal_to_the_merge_witness :
  is_ok (res (copy_top_level_folders (E_remove_fails (home ++ ["packA"])) extracted home
                (w_unpacked (<["packA" := Dir ∅]> ∅)))) = false.
Proof.
  apply (removal_warning_is_fatal_to_the_merge (E_remove_fails (home ++ ["packA"]))
           extracted home (w_unpacked (<["packA" := Dir ∅]> ∅))).
  vm_compute. reflexivity.
Defined.

(** What was in the target and is not in the archive stays through the
    merge. *)
Lemma merge_leaves_the_rest_witness :
  get (home ++ ["old"]) (fs (post (copy_top_level_folders E_plain extracted home
                                     (w_unpacked old_entries))))
  = Some (Dir (<["f" := File "1"]> ∅)).
Proof.
  destruct (merge_leaves_the_rest E_plain extracted home (w_unpacked old_entries)
              unpacked old_entries) as (Hrest & _).
  - apply diverge_heads. discriminate.
  - reflexivity.
  - reflexivity.
  - rewrite (Hrest "old"); reflexivity.
Defined.


(** A length that [isdigit] lets through and [int] rejects. *)
Lemma bad_response_leaves_no_file_witness :
  res (download_zip E_odd_length "u" (tmp ++ ["z"]) w_home)
  = Raise (ValueError "invalid literal for int()")
  ∧ fs (post (download_zip E_odd_length "u" (tmp ++ ["z"]) w_home)) = fs_home
  ∧ existsb is_file_write (trace (download_zip E_odd_length "u" (tmp ++ ["z"]) w_home))
    = false.
Proof.
  apply (bad_response_leaves_no_file E_odd_length "u" (tmp ++ ["z"]) w_home).
  reflexivity.
Defined.

(** The same for a file the server does not have. *)
Example not_found_leaves_no_file :
  response_error E_not_found "u" = Some (HTTPError 404)
  ∧ trace (download_zip E_not_found "u" (tmp ++ ["z"]) w_home)
    = [SayStr "Downloading patch from:" "u"; Sys (HttpGet "u") true].
Proof. by vm_compute. Qed.


Lemma empty_archive_fails_the_session_witness :
  res (apply_patch E_empty_archive patch_1 home None w_cleared) = Ok tt
  ∧ SayExn "ERROR during patch application:" (OSError "FileNotFoundError" extracted)
    ∈ trace (apply_patch E_empty_archive patch_1 home None w_cleared)
  ∧ existsb is_success (trace (apply_patch E_empty_archive patch_1 home None w_cleared))
    = false.
Proof.
  apply (empty_archive_fails_the_session E_empty_archive patch_1 home None w_cleared).
  - vm_compute. reflexivity.
  - vm_compute. reflexivity.
  - vm_compute. reflexivity.
Defined.
